(** * Readability-guided annotation engine

    A shallow embedding of the glossary tooling of the repository
    ([src/glossary-extraction]): the text-complexity analyzer and the
    triage of protocols by jargon, reading category and priority
    ([validation-framework.py]), the term matcher, tooltip injector and markup
    validator ([update_protocols.py]), the production update loop
    ([execute-week-4-agent-2.py]), and the degradation diagnosis and
    repair scripts ([identify-degraded-protocols.py],
    [repair-degraded-protocols.py], [repair-degraded-protocols-v2.py]).

    Conventions of the embedding.
    - A Python [str] is a [list ascii]; offsets and lengths are [nat].
      The scripts process English prose: the character classes below are
      Python's on the ASCII range, and a character code above 127 is treated
      as a symbol (neither a letter, a word character nor white space).
    - Python floats are Rocq's primitive binary64 floats; [int / int] is the
      float quotient of the two converted integers.
    - Each regular expression of the scripts is embedded as the scanner it
      denotes: a function that tries the pattern at the head of the remaining
      text, driven left to right by [Re.sub] or [Re.finditer].
    - A [dict] is the list of its entries in insertion order, the order in
      which Python keeps and serialises them. *)

From Stdlib Require Import Ascii String List Bool Arith ZArith Lia.
From Stdlib Require Import Floats Permutation Sorted.
Import ListNotations.

Set Implicit Arguments.
Set Warnings "-inexact-float".

Definition text := list ascii.

(** A string literal as a text. *)
Definition txt (s : string) : text := list_ascii_of_string s.

(** ** Python built-ins *)
Module Py.

Definition code (c : ascii) : nat := nat_of_ascii c.

Definition between (lo hi : nat) (c : ascii) : bool :=
  (lo <=? code c) && (code c <=? hi).

(** [[A-Z]] and [[a-z]]. *)
Definition is_upper (c : ascii) : bool := between 65 90 c.
Definition is_az (c : ascii) : bool := between 97 122 c.

(** [[a-zA-Z]]. *)
Definition is_letter (c : ascii) : bool := is_az c || is_upper c.

Definition is_digit (c : ascii) : bool := between 48 57 c.

(** The class [\w]: letters, digits and the underscore. *)
Definition is_word (c : ascii) : bool :=
  is_letter c || is_digit c || (code c =? 95).

(** White space, as [str.strip], [str.split] and [\s] see it:
    TAB, LF, VT, FF, CR, the separators 28-31 and the space. *)
Definition is_space (c : ascii) : bool :=
  between 9 13 c || between 28 31 c || (code c =? 32).

(** [str.lower] on one character. *)
Definition lower_char (c : ascii) : ascii :=
  if is_upper c then ascii_of_nat (code c + 32) else c.

Definition lower (s : text) : text := map lower_char s.

(** Equality of texts, [==] on [str]. *)
Fixpoint eqb (s t : text) : bool :=
  match s, t with
  | [], [] => true
  | c :: s', d :: t' => Ascii.eqb c d && eqb s' t'
  | _, _ => false
  end.

Fixpoint drop_while (p : ascii -> bool) (s : text) : text :=
  match s with
  | [] => []
  | c :: s' => if p c then drop_while p s' else s
  end.

(** The longest prefix of [s] whose characters satisfy [p]. *)
Fixpoint take_while (p : ascii -> bool) (s : text) : text :=
  match s with
  | [] => []
  | c :: s' => if p c then c :: take_while p s' else []
  end.

(** [s.strip()]. *)
Definition strip (s : text) : text :=
  rev (drop_while is_space (rev (drop_while is_space s))).

(** [s[i:j]] for offsets [0 <= i], [0 <= j]. *)
Definition slice (s : text) (i j : nat) : text := firstn (j - i) (skipn i s).

(** [s.startswith(p)]. *)
Fixpoint startswith (p s : text) : bool :=
  match p, s with
  | [], _ => true
  | a :: p', c :: s' => Ascii.eqb a c && startswith p' s'
  | _ :: _, [] => false
  end.

(** [s.endswith(p)]. *)
Definition endswith (p s : text) : bool := startswith (rev p) (rev s).

(** [s.count(p)] for a non-empty [p]: occurrences counted left to right
    without overlap.  [skip] is the number of characters still covered by
    the occurrence found last. *)
Fixpoint count_from (p : text) (skip : nat) (s : text) : nat :=
  match s with
  | [] => 0
  | _ :: s' =>
      match skip with
      | S k => count_from p k s'
      | O => if startswith p s
             then S (count_from p (pred (length p)) s')
             else count_from p 0 s'
      end
  end.

Definition count (p s : text) : nat := count_from p 0 s.

(** The maximal runs of characters satisfying [p], left to right.  [cur] is
    the run being read, most recent character first. *)
Fixpoint runs_from (p : ascii -> bool) (cur : text) (s : text) : list text :=
  match s with
  | [] => match cur with [] => [] | _ => [rev cur] end
  | c :: s' =>
      if p c then runs_from p (c :: cur) s'
      else match cur with
           | [] => runs_from p [] s'
           | _ => rev cur :: runs_from p [] s'
           end
  end.

Definition runs (p : ascii -> bool) (s : text) : list text := runs_from p [] s.

(** [s.split()]: the maximal runs of non-blank characters. *)
Definition split_ws (s : text) : list text := runs (fun c => negb (is_space c)) s.

(** [sep.join(l)]. *)
Fixpoint join (sep : text) (l : list text) : text :=
  match l with
  | [] => []
  | [w] => w
  | w :: l' => w ++ sep ++ join sep l'
  end.

(** [l[:n]] for a Python integer [n]: a negative [n] counts from the end. *)
Definition take (A : Type) (n : Z) (l : list A) : list A :=
  if (n <? 0)%Z then firstn (length l - Z.to_nat (- n)) l
  else firstn (Z.to_nat n) l.

(** A stable sort, as [sorted] and [list.sort] are, also under
    [reverse=True].  [before y x] holds when [y] must come strictly before
    [x]; an element is inserted in front of the first one that need not
    precede it, so that elements the order does not separate keep the order
    they came in.  The result of a stable sort is determined by the keys, so
    insertion stands for Python's algorithm. *)
Section Sort.
Variable A : Type.
Variable before : A -> A -> bool.

Fixpoint insert (x : A) (l : list A) : list A :=
  match l with
  | [] => [x]
  | y :: l' => if before y x then y :: insert x l' else x :: l
  end.

Fixpoint sort (l : list A) : list A :=
  match l with
  | [] => []
  | x :: l' => insert x (sort l')
  end.
End Sort.

(** ** Floats *)

(** [float(z)] for an integer [z], exact below [2^53] in absolute value. *)
Definition float_of_Z (z : Z) : float :=
  match z with
  | Z0 => 0%float
  | Zpos _ => PrimFloat.of_uint63 (Uint63.of_Z z)
  | Zneg p => (- PrimFloat.of_uint63 (Uint63.of_Z (Zpos p)))%float
  end.

Definition float_of_nat (n : nat) : float := float_of_Z (Z.of_nat n).

(** The integer nearest to [a / b] for [0 <= a] and [0 < b], ties to even. *)
Definition div_half_even (a b : Z) : Z :=
  let q := (a / b)%Z in
  match (2 * (a mod b) ?= b)%Z with
  | Lt => q
  | Gt => (q + 1)%Z
  | Eq => if Z.even q then q else (q + 1)%Z
  end.

(** [round(x, 2)]: the float nearest to the decimal with two places that
    is nearest to the exact value of [x] (ties to even).  An integral [x],
    a zero, an infinity and NaN are returned as they are.  The decimal
    [k / 100] is converted by one correctly rounded division, which is
    exact to the last bit while [|x| < 2^46]. *)
Definition round2 (x : float) : float :=
  match Prim2SF x with
  | S754_finite s m (Zneg p) =>
      let k := div_half_even (Zpos m * 100) (2 ^ Zpos p) in
      let r := (float_of_Z k / 100)%float in
      if s then (- r)%float else r
  | _ => x
  end.

End Py.

(** ** Regular-expression drivers

    A pattern is embedded as a function that tries it at one position: it
    receives the character before the position ([None] at the start of the
    text) and the text from the position on.  None of the patterns given to
    [sub] matches the empty string. *)
Module Re.

(** [\b] between two positions: exactly one side is a word character. *)
Definition wordb (o : option ascii) : bool :=
  match o with Some c => Py.is_word c | None => false end.

Definition boundary (prev next : option ascii) : bool :=
  xorb (wordb prev) (wordb next).

(** [re.sub(pattern, repl, s)]: the pattern answers with the replacement
    and the length of the match; the scan resumes after the match.  [skip]
    counts the characters of the last match still to be passed over. *)
Fixpoint sub_from (m : option ascii -> text -> option (text * nat))
    (prev : option ascii) (skip : nat) (s : text) : text :=
  match s with
  | [] => []
  | c :: s' =>
      match skip with
      | S k => sub_from m (Some c) k s'
      | O =>
          match m prev s with
          | Some (r, n) => r ++ sub_from m (Some c) (pred n) s'
          | None => c :: sub_from m (Some c) 0 s'
          end
      end
  end.

Definition sub (m : option ascii -> text -> option (text * nat)) (s : text) : text :=
  sub_from m None 0 s.

(** [re.finditer(pattern, s)]: the spans [(start, end)] of the matches, left
    to right and without overlap; the pattern answers with the length of
    its match.  After an empty match the scan moves on by one character. *)
Fixpoint finditer_from (m : option ascii -> text -> option nat)
    (prev : option ascii) (i skip : nat) (s : text) : list (nat * nat) :=
  match s with
  | [] =>
      match skip, m prev [] with
      | O, Some n => [(i, i + n)]
      | _, _ => []
      end
  | c :: s' =>
      match skip with
      | S k => finditer_from m (Some c) (S i) k s'
      | O =>
          match m prev s with
          | Some n => (i, i + n) :: finditer_from m (Some c) (S i) (pred n) s'
          | None => finditer_from m (Some c) (S i) 0 s'
          end
      end
  end.

Definition finditer (m : option ascii -> text -> option nat) (s : text) : list (nat * nat) :=
  finditer_from m None 0 0 s.

(** [re.findall(pattern, s)] for a pattern without groups. *)
Definition findall (m : option ascii -> text -> option nat) (s : text) : list text :=
  map (fun span => Py.slice s (fst span) (snd span)) (finditer m s).

(** [re.split(r'[...]+', s)] for a character class [p]: the pieces between
    the maximal runs of [p], the empty ones at either end included.  [cur]
    is the piece being read, most recent character first; [in_sep] tells
    that the character before was a separator. *)
Fixpoint split_from (p : ascii -> bool) (cur : text) (in_sep : bool) (s : text)
    : list text :=
  match s with
  | [] => [rev cur]
  | c :: s' =>
      if p c then
        if in_sep then split_from p cur true s'
        else rev cur :: split_from p [] true s'
      else split_from p (c :: cur) false s'
  end.

Definition split (p : ascii -> bool) (s : text) : list text := split_from p [] false s.

(** A literal matched under [re.IGNORECASE] at the head of [s]. *)
Fixpoint prefix_ci (pat s : text) : bool :=
  match pat, s with
  | [], _ => true
  | a :: pat', c :: s' =>
      Ascii.eqb (Py.lower_char c) (Py.lower_char a) && prefix_ci pat' s'
  | _ :: _, [] => false
  end.

End Re.

(** ** Text complexity analyzer ([validation-framework.py]) *)
Module Readability.

Definition is_vowel (c : ascii) : bool :=
  existsb (Ascii.eqb c) (txt "aeiouy").

(** [[^a-z]], one character. *)
Definition non_az_at (_ : option ascii) (s : text) : option (text * nat) :=
  match s with
  | c :: _ => if Py.is_az c then None else Some ([], 1)
  | [] => None
  end.

(** [[aeiouy]+]: the longest run of vowels at the position. *)
Definition vowels_at (_ : option ascii) (s : text) : option nat :=
  match Py.take_while is_vowel s with
  | [] => None
  | g => Some (length g)
  end.

Definition count_syllables (word : text) : nat :=
  let word := Py.strip (Py.lower word) in
  (* Remove non-alpha characters *)
  let word := Re.sub non_az_at word in
  match word with
  | [] => 0
  | _ =>
      (* Count vowel groups *)
      let vowel_groups := Re.findall vowels_at word in
      let syllable_count := length vowel_groups in
      (* Subtract silent 'e' at end *)
      let syllable_count :=
        if Py.endswith (txt "e") word && (1 <? syllable_count)
        then syllable_count - 1 else syllable_count in
      (* Ensure minimum 1 syllable *)
      Nat.max 1 syllable_count
  end.

Definition abbreviations : list text :=
  map txt ["Dr"; "Mr"; "Mrs"; "Ms"; "etc"; "i.e"; "e.g"]%string.

(** [\b(Dr|Mr|Mrs|Ms|etc|i\.e|e\.g)\.] under [re.IGNORECASE], replaced by
    [\1<PERIOD>]: the first alternative that is followed by a period is the
    one the match takes, and group 1 keeps the casing of the text. *)
Definition abbreviation_at (prev : option ascii) (s : text) : option (text * nat) :=
  if Re.boundary prev (hd_error s) then
    match find (fun a => Re.prefix_ci (a ++ txt ".") s) abbreviations with
    | Some a => Some (firstn (length a) s ++ txt "<PERIOD>", S (length a))
    | None => None
    end
  else None.

(** [[.!?]]. *)
Definition is_terminator (c : ascii) : bool :=
  existsb (Ascii.eqb c) (txt ".!?").

Definition nonblank (s : text) : bool :=
  match Py.strip s with [] => false | _ => true end.

Definition count_sentences (text0 : text) : nat :=
  (* Replace common abbreviations to avoid false splits *)
  let text1 := Re.sub abbreviation_at text0 in
  (* Count sentence-ending punctuation *)
  let sentences := Re.split is_terminator text1 in
  (* Filter empty strings *)
  let sentences := map Py.strip (filter nonblank sentences) in
  Nat.max 1 (length sentences).

Definition calculate_flesch_kincaid_grade
    (_ : text) (word_count sentence_count syllable_count : nat) : float :=
  if (word_count =? 0) || (sentence_count =? 0) then 0%float
  else
    let avg_words_per_sentence :=
      (Py.float_of_nat word_count / Py.float_of_nat sentence_count)%float in
    let avg_syllables_per_word :=
      (Py.float_of_nat syllable_count / Py.float_of_nat word_count)%float in
    let grade_level :=
      (0.39 * avg_words_per_sentence + 11.8 * avg_syllables_per_word - 15.59)%float in
    Py.round2 grade_level.

Definition calculate_flesch_reading_ease
    (_ : text) (word_count sentence_count syllable_count : nat) : float :=
  if (word_count =? 0) || (sentence_count =? 0) then 0%float
  else
    let avg_words_per_sentence :=
      (Py.float_of_nat word_count / Py.float_of_nat sentence_count)%float in
    let avg_syllables_per_word :=
      (Py.float_of_nat syllable_count / Py.float_of_nat word_count)%float in
    let ease_score :=
      (206.835 - 1.015 * avg_words_per_sentence - 84.6 * avg_syllables_per_word)%float in
    Py.round2 ease_score.

(** [\*\*] and [\*], both replaced by nothing. *)
Definition bold_at (_ : option ascii) (s : text) : option (text * nat) :=
  if Py.startswith (txt "**") s then Some ([], 2) else None.

Definition italic_at (_ : option ascii) (s : text) : option (text * nat) :=
  if Py.startswith (txt "*") s then Some ([], 1) else None.

(** [#{1,6}\s]: a run of one to six hashes and the blank after it.  The
    blank must follow the run, so only the whole run matches, and a run of
    more than six matches from a later position. *)
Definition header_at (_ : option ascii) (s : text) : option (text * nat) :=
  let k := length (Py.take_while (Ascii.eqb "#") s) in
  if (1 <=? k) && (k <=? 6) then
    match nth_error s k with
    | Some c => if Py.is_space c then Some ([], S k) else None
    | None => None
    end
  else None.

(** [\[([^\]]+)\]\([^)]+\)], replaced by group 1: each class run is
    followed by the character it excludes, so it is the longest run. *)
Definition link_at (_ : option ascii) (s : text) : option (text * nat) :=
  match s with
  | "["%char :: s1 =>
      let g := Py.take_while (fun c => negb (Ascii.eqb c "]")) s1 in
      match g, skipn (length g) s1 with
      | _ :: _, "]"%char :: "("%char :: s2 =>
          let d := Py.take_while (fun c => negb (Ascii.eqb c ")")) s2 in
          match d, skipn (length d) s2 with
          | _ :: _, ")"%char :: _ => Some (g, length g + length d + 4)
          | _, _ => None
          end
      | _, _ => None
      end
  | _ => None
  end.

(** [\b[a-zA-Z]+\b]: a run of letters with a word boundary on both sides.
    Inside the run there is no boundary, so the match is the whole run. *)
Definition word_at (prev : option ascii) (s : text) : option nat :=
  match Py.take_while Py.is_letter s with
  | [] => None
  | g =>
      if Re.boundary prev (hd_error s)
         && Re.boundary (Some (last g " "%char)) (nth_error s (length g))
      then Some (length g) else None
  end.

Definition analyze_text_complexity (text0 : text) : nat * nat * nat :=
  (* Remove markdown formatting for accurate counting *)
  let clean_text := Re.sub bold_at text0 in
  let clean_text := Re.sub italic_at clean_text in
  let clean_text := Re.sub header_at clean_text in
  let clean_text := Re.sub link_at clean_text in
  (* Count words *)
  let words := Re.findall word_at clean_text in
  let word_count := length words in
  (* Count sentences *)
  let sentence_count := count_sentences clean_text in
  (* Count syllables *)
  let syllable_count := list_sum (map count_syllables words) in
  (word_count, sentence_count, syllable_count).

(** The grade level of a text, as every script computes it:
    [analyze_text_complexity] followed by [calculate_flesch_kincaid_grade]. *)
Definition grade_level (t : text) : float :=
  let '(word_count, sentence_count, syllable_count) := analyze_text_complexity t in
  calculate_flesch_kincaid_grade t word_count sentence_count syllable_count.

End Readability.

(** ** Term matcher, tooltip injector and markup validator
    ([update_protocols.py]) *)
Module Tooltips.

(** A Python [dict] from [str] to [str]: the keys in the order they were
    first inserted, each with the value assigned to it last. *)
Definition dict := list (text * text).

Fixpoint dict_set (k v : text) (d : dict) : dict :=
  match d with
  | [] => [(k, v)]
  | (k', v') :: d' =>
      if Py.eqb k k' then (k', v) :: d' else (k', v') :: dict_set k v d'
  end.

(** A glossary entry as loaded from JSON; only [clinical_term] is
    required. *)
Record GlossaryEntry := {
  clinical_term : text;
  user_friendly_term : option text;
  explanation : option text;
  category : option text
}.

(** [entry.get('user_friendly_term', entry.get('explanation', ''))]. *)
Definition entry_definition (entry : GlossaryEntry) : text :=
  match user_friendly_term entry with
  | Some d => d
  | None => match explanation entry with Some d => d | None => [] end
  end.

(** [entry.get('category', 'general')]. *)
Definition entry_category (entry : GlossaryEntry) : text :=
  match category entry with Some c => c | None => txt "general" end.

(** One match of a glossary term in a text. *)
Record TermMatch := {
  term : text;            (* the matched text, casing preserved *)
  position : nat;
  end_position : nat;
  definition : text;
  term_category : text
}.

(** [r'\b' + re.escape(clinical_term) + r'\b'] under [re.IGNORECASE], for
    the lower-cased term: the literal between two word boundaries. *)
Definition term_at (clinical : text) (prev : option ascii) (s : text) : option nat :=
  let n := length clinical in
  if Re.boundary prev (hd_error s)
     && Re.prefix_ci clinical s
     && Re.boundary (match n with O => prev | S k => nth_error s k end) (nth_error s n)
  then Some n else None.

(** The matches of one entry, in the order [re.finditer] yields them. *)
Definition entry_matches (protocol_text : text) (entry : GlossaryEntry) : list TermMatch :=
  let clinical := Py.lower (clinical_term entry) in
  let user_friendly := entry_definition entry in
  map (fun span =>
         {| term := Py.slice protocol_text (fst span) (snd span);
            position := fst span;
            end_position := snd span;
            definition := user_friendly;
            term_category := entry_category entry |})
      (Re.finditer (term_at clinical) protocol_text).

(** [start <= position < end or start < end_position <= end] for some
    range seen so far. *)
Definition overlaps (seen_ranges : list (nat * nat)) (t : TermMatch) : bool :=
  existsb (fun r =>
             let '(start, stop) := r in
             ((start <=? position t) && (position t <? stop))
             || ((start <? end_position t) && (end_position t <=? stop)))
          seen_ranges.

(** One turn of the loop that removes overlapping matches; the state is
    [(seen_ranges, unique_terms)]. *)
Definition keep_first (st : list (nat * nat) * list TermMatch) (t : TermMatch)
    : list (nat * nat) * list TermMatch :=
  let '(seen_ranges, unique_terms) := st in
  if overlaps seen_ranges t then st
  else (seen_ranges ++ [(position t, end_position t)], unique_terms ++ [t]).

Definition find_technical_terms (protocol_text : text) (glossary : list GlossaryEntry)
    : list TermMatch :=
  (* Sort glossary by term length (longest first) to avoid partial matches *)
  let sorted_glossary :=
    Py.sort (fun y x => length (clinical_term x) <? length (clinical_term y)) glossary in
  let technical_terms := flat_map (entry_matches protocol_text) sorted_glossary in
  (* Remove overlapping matches (keep first occurrence) *)
  let by_position := Py.sort (fun y x => position y <? position x) technical_terms in
  snd (fold_left keep_first by_position ([], [])).

(** The sort key the injector attaches to a match. *)
Definition priority_score (t : TermMatch) : float :=
  (Py.float_of_Z (1000 - Z.of_nat (position t)) * 0.4
   + Py.float_of_nat (length (definition t)) * 0.3
   + Py.float_of_Z (if Py.eqb (term_category t) (txt "neuroscience") then 100 else 50) * 0.3)%float.

(** The matches the injector renders, in the order it renders them: the
    best [max_tooltips] by priority, last position first. *)
Definition top_terms (protocol_text : text) (glossary : list GlossaryEntry)
    (max_tooltips : Z) : list TermMatch :=
  let terms := find_technical_terms protocol_text glossary in
  (* Sort by priority (descending) *)
  let terms :=
    Py.sort (fun y x => PrimFloat.ltb (priority_score x) (priority_score y)) terms in
  (* Limit to max_tooltips *)
  let top := Py.take max_tooltips terms in
  (* Sort by position (reverse) for injection *)
  Py.sort (fun y x => position x <? position y) top.

(** [{{term||definition}}]. *)
Definition tooltip (t : TermMatch) : text :=
  txt "{{" ++ term t ++ txt "||" ++ definition t ++ txt "}}".

(** The body of the injection loop on the text:
    [updated_text[:pos] + tooltip + updated_text[end_pos:]]. *)
Definition render_one (updated_text : text) (t : TermMatch) : text :=
  firstn (position t) updated_text ++ tooltip t ++ skipn (end_position t) updated_text.

(** One turn of the injection loop; the state is
    [(updated_text, terms_used)]. *)
Definition inject_one (st : text * dict) (t : TermMatch) : text * dict :=
  let '(updated_text, terms_used) := st in
  (render_one updated_text t, dict_set (term t) (definition t) terms_used).

Definition inject_tooltips (protocol_text : text) (glossary : list GlossaryEntry)
    (max_tooltips : Z) : text * dict :=
  match find_technical_terms protocol_text glossary with
  | [] => (protocol_text, [])
  | _ =>
      (* Inject tooltips from end to start *)
      fold_left inject_one (top_terms protocol_text glossary max_tooltips)
                (protocol_text, [])
  end.

(** *** Validator *)

Definition not_bar (c : ascii) : bool := negb (Ascii.eqb c "|").
Definition not_close (c : ascii) : bool := negb (Ascii.eqb c "}").

(** [s] contains [p]. *)
Fixpoint contains (p s : text) : bool :=
  Py.startswith p s || match s with [] => false | _ :: s' => contains p s' end.

(** [\{\{[^}]*\{\{]: an opening pair followed, before any closing brace,
    by another opening pair. *)
Definition nested_at (s : text) : bool :=
  Py.startswith (txt "{{") s
  && contains (txt "{{") (Py.take_while not_close (skipn 2 s)).

(** [re.search] of the pattern above. *)
Fixpoint nested (s : text) : bool :=
  nested_at s || match s with [] => false | _ :: s' => nested s' end.

(** [\{\{([^|]+)\|[^}]+\}\}], replaced by group 1.  The first class is
    followed by a bar and the second by a closing brace, so each run is the
    longest one; the second run starts at the second bar of the markup. *)
Definition markup_at (_ : option ascii) (s : text) : option (text * nat) :=
  match s with
  | "{"%char :: "{"%char :: s1 =>
      let g := Py.take_while not_bar s1 in
      match g, skipn (length g) s1 with
      | _ :: _, "|"%char :: s2 =>
          let d := Py.take_while not_close s2 in
          match d, skipn (length d) s2 with
          | _ :: _, "}"%char :: "}"%char :: _ => Some (g, length g + length d + 5)
          | _, _ => None
          end
      | _, _ => None
      end
  | _ => None
  end.

(** The text with each markup span replaced by its term. *)
Definition strip_markup (simplified : text) : text := Re.sub markup_at simplified.

Inductive validation_message :=
| Valid
| Nested_tooltips
| Unbalanced_tooltips (open_count close_count : nat)
| Original_content_altered
| Unbalanced_marker (marker : text).

(** The third check: the stripped text is the original, up to white space
    around the two. *)
Definition content_preserved (original simplified : text) : bool :=
  let stripped := strip_markup simplified in
  Py.eqb stripped original || Py.eqb (Py.strip stripped) (Py.strip original).

Definition validate_tooltip_injection (original simplified : text)
    : bool * validation_message :=
  (* Check for nested tooltips *)
  if nested simplified then (false, Nested_tooltips)
  else
    (* Check balanced delimiters *)
    let open_count := Py.count (txt "{{") simplified in
    let close_count := Py.count (txt "}}") simplified in
    if negb (open_count =? close_count)
    then (false, Unbalanced_tooltips open_count close_count)
    else
      (* Check content preservation (remove tooltip markup) *)
      if negb (content_preserved original simplified)
      then (false, Original_content_altered)
      else
        (* Ensure bold/italic markers are balanced *)
        match find (fun marker => negb (Nat.even (Py.count marker simplified)))
                   (map txt ["**"; "*"; "__"; "_"]%string) with
        | Some marker => (false, Unbalanced_marker marker)
        | None => (true, Valid)
        end.

(** The part of [UpdateResult] that [update_protocol] derives from the
    injection.  The readability import of the script may be absent, in
    which case both reading levels are 0.0; [readability] is the grade
    function when it is present. *)
Record UpdateResult := {
  original_length : nat;
  simplified_length : nat;
  tooltips_added : nat;
  reading_level_before : float;
  reading_level_after : float;
  reading_level_improvement : float;
  validation_status : bool;     (* 'valid' or 'error' *)
  validation_message_of : validation_message;
  glossary_terms : dict
}.

Definition update_protocol (readability : option (text -> float))
    (original_text : text) (glossary : list GlossaryEntry) (max_tooltips : Z)
    : UpdateResult :=
  let level t := match readability with Some f => f t | None => 0%float end in
  let before := level original_text in
  let '(simplified_text, terms_used) :=
    inject_tooltips original_text glossary max_tooltips in
  let '(is_valid, message) := validate_tooltip_injection original_text simplified_text in
  let after := level simplified_text in
  {| original_length := length original_text;
     simplified_length := length simplified_text;
     tooltips_added := length terms_used;
     reading_level_before := before;
     reading_level_after := after;
     reading_level_improvement := (before - after)%float;
     validation_status := is_valid;
     validation_message_of := message;
     glossary_terms := terms_used |}.

End Tooltips.

(** ** Degradation diagnosis and repair
    ([identify-degraded-protocols.py], [repair-degraded-protocols.py],
    [repair-degraded-protocols-v2.py]) *)
Module Repair.
Import Readability Tooltips.

(** The fields of a stored protocol row the scripts read; all but [id] are
    read with [.get] and a default. *)
Record Protocol := {
  id : text;
  chunk_summary : option text;
  chunk_text : option text;
  simplified_text : option text;
  stored_level_before : option float;
  stored_level_after : option float
}.

Definition get_text (o : option text) : text :=
  match o with Some t => t | None => [] end.

Definition get_level (o : option float) : float :=
  match o with Some x => x | None => 0%float end.

(** [\{\{([^|]+)\|\|([^}]+)\}\}]: the length of the match at the head of
    [s].  Each class run is followed by a character it excludes, so it is
    the longest run. *)
Definition tooltip_at (_ : option ascii) (s : text) : option nat :=
  match s with
  | "{"%char :: "{"%char :: s1 =>
      let g := Py.take_while not_bar s1 in
      match g, skipn (length g) s1 with
      | _ :: _, "|"%char :: "|"%char :: s2 =>
          let d := Py.take_while not_close s2 in
          match d, skipn (length d) s2 with
          | _ :: _, "}"%char :: "}"%char :: _ => Some (length g + length d + 6)
          | _, _ => None
          end
      | _, _ => None
      end
  | _ => None
  end.

(** Groups 1 and 2 of a text matched by the pattern above. *)
Definition tooltip_groups (matched : text) : text * text :=
  let s1 := skipn 2 matched in
  let g := Py.take_while not_bar s1 in
  (g, Py.take_while not_close (skipn (length g + 2) s1)).

(** [re.sub] of the tooltip pattern with a function of the two groups. *)
Definition sub_tooltips (f : text -> text -> text) (s : text) : text :=
  Re.sub (fun prev s =>
            match tooltip_at prev s with
            | Some n => let '(g1, g2) := tooltip_groups (firstn n s) in Some (f g1 g2, n)
            | None => None
            end) s.

Record Tooltip := {
  tip_term : text;
  tip_definition : text;
  tip_length : nat;
  tip_word_count : nat;
  tip_reading_level : float
}.

Definition extract_tooltips_from_text (t : text) : list Tooltip :=
  map (fun matched =>
         let '(term, definition) := tooltip_groups matched in
         (* Calculate definition complexity *)
         let '(word_count, sentence_count, syllable_count) :=
           analyze_text_complexity definition in
         {| tip_term := Py.strip term;
            tip_definition := Py.strip definition;
            tip_length := length definition;
            tip_word_count := word_count;
            tip_reading_level :=
              calculate_flesch_kincaid_grade definition word_count sentence_count
                                             syllable_count |})
      (Re.findall tooltip_at t).

(** [\{\{[^}]+\}\}]. *)
Definition span_at (_ : option ascii) (s : text) : option nat :=
  match s with
  | "{"%char :: "{"%char :: s1 =>
      let d := Py.take_while not_close s1 in
      match d, skipn (length d) s1 with
      | _ :: _, "}"%char :: "}"%char :: _ => Some (length d + 4)
      | _, _ => None
      end
  | _ => None
  end.

(** [analyze_sentence_tooltip_density]: the largest number of tooltips
    found in one sentence; the other entries of the script's result only
    feed its report. *)
Definition max_tooltips_per_sentence (t : text) : nat :=
  let sentences := Re.split is_terminator t in
  fold_left (fun best sentence =>
               if nonblank sentence
               then Nat.max best (length (Re.findall span_at sentence))
               else best)
            sentences 0.

Inductive strategy :=
| shorten_definitions
| simplify_language
| remove_tooltips
| manual_review
| revert_to_original.

Definition strategy_eqb (a b : strategy) : bool :=
  match a, b with
  | shorten_definitions, shorten_definitions
  | simplify_language, simplify_language
  | remove_tooltips, remove_tooltips
  | manual_review, manual_review
  | revert_to_original, revert_to_original => true
  | _, _ => false
  end.

(** [strategy in repair_strategies]. *)
Definition has (a : strategy) (l : list strategy) : bool := existsb (strategy_eqb a) l.

Inductive cause :=
| Long_tooltips (n : nat)        (* "n tooltips exceed 15 words" *)
| Complex_tooltips (n : nat)     (* "n tooltips exceed Grade 8 reading level" *)
| High_density (n : nat)         (* "High tooltip density (n in one sentence)" *)
| Unknown_cause.                 (* "Unknown cause - requires manual review" *)

(** The diagnosis of one document.  The two samples kept for the report
    ([tooltip_details], [high_density_sentences]) are left out; the causes,
    which the script formats as sentences, keep their numbers. *)
Record Diagnosis := {
  protocol_id : text;
  diag_summary : text;
  reading_level_before : float;
  reading_level_after : float;
  degradation : float;
  tooltip_count : nat;
  long_tooltips : nat;
  complex_tooltips : nat;
  diag_max_tooltips_per_sentence : nat;
  primary_causes : list cause;
  repair_strategies : list strategy
}.

Definition summary_of (p : Protocol) : text :=
  match chunk_summary p with Some t => t | None => txt "No summary" end.

Definition diagnose_degradation (protocol : Protocol) : Diagnosis :=
  let simplified := get_text (simplified_text protocol) in
  (* Extract tooltips *)
  let tooltips := extract_tooltips_from_text simplified in
  (* Analyze tooltip complexity *)
  let long := filter (fun t => 15 <? tip_word_count t) tooltips in
  let complex := filter (fun t => PrimFloat.ltb 8 (tip_reading_level t)) tooltips in
  (* Analyze sentence density *)
  let density := max_tooltips_per_sentence simplified in
  (* Determine primary cause *)
  let found :=
    (if 0 <? length long then [(Long_tooltips (length long), shorten_definitions)] else [])
    ++ (if 0 <? length complex
        then [(Complex_tooltips (length complex), simplify_language)] else [])
    ++ (if 3 <=? density then [(High_density density, remove_tooltips)] else []) in
  let found :=
    match found with [] => [(Unknown_cause, manual_review)] | _ => found end in
  {| protocol_id := id protocol;
     diag_summary := summary_of protocol;
     reading_level_before := get_level (stored_level_before protocol);
     reading_level_after := get_level (stored_level_after protocol);
     degradation :=
       (get_level (stored_level_after protocol)
        - get_level (stored_level_before protocol))%float;
     tooltip_count := length tooltips;
     long_tooltips := length long;
     complex_tooltips := length complex;
     diag_max_tooltips_per_sentence := density;
     primary_causes := map fst found;
     repair_strategies := map snd found |}.

(** The filter of the script's [main]: a row is degraded when both levels
    are stored and non-zero and the level after injection is the higher. *)
Definition truthy (o : option float) : bool :=
  match o with Some x => negb (PrimFloat.eqb x 0) | None => false end.

Definition is_degraded (p : Protocol) : bool :=
  truthy (stored_level_before p) && truthy (stored_level_after p)
  && PrimFloat.ltb (get_level (stored_level_before p)) (get_level (stored_level_after p)).

(** [simplify_tooltip_definition]: the first sentence, cut to 12 words. *)
Definition simplify_tooltip_definition (definition : text) : text :=
  (* Split into sentences *)
  let sentences := Re.split is_terminator definition in
  (* Keep only first sentence *)
  let first_sentence :=
    match sentences with s :: _ => Py.strip s | [] => definition end in
  (* Truncate to max 12 words *)
  let words := Py.split_ws first_sentence in
  if 12 <? length words
  then Py.join (txt " ") (firstn 12 words) ++ txt "..."
  else first_sentence.

Definition markup (term definition : text) : text :=
  txt "{{" ++ term ++ txt "||" ++ definition ++ txt "}}".

(** [extract_and_simplify_tooltips(text, simplify=True)]. *)
Definition extract_and_simplify_tooltips (t : text) : text :=
  sub_tooltips (fun g1 g2 =>
                  markup (Py.strip g1) (simplify_tooltip_definition (Py.strip g2))) t.

(** Whether [remove_complex_tooltips] drops a tooltip with this
    definition. *)
Definition too_complex (threshold : float) (g2 : text) : bool :=
  PrimFloat.ltb threshold (grade_level (Py.strip g2)).

(** [remove_complex_tooltips]: the cleaned text and the number of
    tooltips removed. *)
Definition remove_complex_tooltips (t : text) (threshold : float) : text * nat :=
  (sub_tooltips (fun g1 g2 =>
                   if too_complex threshold g2 then Py.strip g1 else markup g1 g2) t,
   length (filter (fun matched => too_complex threshold (snd (tooltip_groups matched)))
                  (Re.findall tooltip_at t))).

(** The result of a repair; [chunk_summary] and [degradation] are copied
    from the diagnosis by the scripts and left out here. *)
Record RepairResult := {
  result_protocol_id : text;
  result_level_before : float;
  result_level_after : float;
  reading_level_repaired : float;
  repair_improvement : float;
  net_change : float;
  strategy_applied : option strategy;
  tooltips_modified : nat;
  should_update : bool;
  repaired_text : text
}.

Definition repair_protocol (protocol : Protocol) (diagnosis : Diagnosis) : RepairResult :=
  let simplified := get_text (simplified_text protocol) in
  let strategies := repair_strategies diagnosis in
  (* Try repair strategies in order *)
  let '(repaired, applied, modified) :=
    if has simplify_language strategies then
      (extract_and_simplify_tooltips simplified, Some simplify_language, 0)
    else if has remove_tooltips strategies then
      let '(cleaned, removed) := remove_complex_tooltips simplified 8 in
      (cleaned, Some remove_tooltips, removed)
    else if has manual_review strategies then
      (simplified, Some manual_review, 0)
    else (simplified, None, 0) in
  (* Calculate new reading level *)
  let repaired_level := grade_level repaired in
  let before := reading_level_before diagnosis in
  let after := reading_level_after diagnosis in
  let improvement := (after - repaired_level)%float in
  {| result_protocol_id := id protocol;
     result_level_before := before;
     result_level_after := after;
     reading_level_repaired := repaired_level;
     repair_improvement := improvement;
     net_change := (repaired_level - before)%float;
     strategy_applied := applied;
     tooltips_modified := modified;
     should_update :=
       PrimFloat.ltb 0.1 improvement && PrimFloat.ltb repaired_level after;
     repaired_text := repaired |}.

(** What [main] does with a repair result. *)
Inductive action := Flag_for_manual_review | Update_store | No_update.

Definition persist (r : RepairResult) : action :=
  match strategy_applied r with
  | Some manual_review => Flag_for_manual_review
  | _ => if should_update r then Update_store else No_update
  end.

(** Version 2: revert to the original text. *)
Definition repair_protocol_revert (protocol : Protocol) (diagnosis : Diagnosis)
    : RepairResult :=
  let before := reading_level_before diagnosis in
  let after := reading_level_after diagnosis in
  (* Revert to original text *)
  let repaired := get_text (chunk_text protocol) in
  (* Recalculate reading level (should match reading_level_before) *)
  let repaired_level := grade_level repaired in
  let improvement := (after - repaired_level)%float in
  {| result_protocol_id := id protocol;
     result_level_before := before;
     result_level_after := after;
     reading_level_repaired := repaired_level;
     repair_improvement := improvement;
     net_change := (repaired_level - before)%float;
     strategy_applied := Some revert_to_original;
     tooltips_modified := 0;
     should_update := true;
     repaired_text := repaired |}.

End Repair.

(** ** Scenarios used by the statements below *)
Module Scenario.
Import Readability Tooltips Repair.

Definition entry (term definition : string) : GlossaryEntry :=
  {| clinical_term := txt term;
     user_friendly_term := Some (txt definition);
     explanation := None;
     category := None |}.

Definition simple_text : text :=
  txt "This is a simple test. The text is easy to read.".

Definition cortex_text : text := txt "the prefrontal cortex activates".

(** A protocol row as the pipeline stores it: the text, the text after
    injection, and the grade level of each. *)
Definition stored (original : text) (glossary : list GlossaryEntry) : Protocol :=
  let simplified := fst (inject_tooltips original glossary 5) in
  {| id := txt "protocol-1";
     chunk_summary := None;
     chunk_text := Some original;
     simplified_text := Some simplified;
     stored_level_before := Some (grade_level original);
     stored_level_after := Some (grade_level simplified) |}.

(** A definition of sixteen short words. *)
Definition long_simple_glossary : list GlossaryEntry :=
  [entry "vagus nerve"
         "the part of the body that helps you to feel safe and calm when you rest"].

Definition long_simple_protocol : Protocol :=
  stored (txt "The vagus nerve helps. It is good.") long_simple_glossary.

(** A definition of two sentences of long words. *)
Definition complex_glossary : list GlossaryEntry :=
  [entry "amygdala"
         "a neurological structure responsible for physiological threat evaluation. It communicates extensively with hippocampal and prefrontal regions"].

Definition complex_protocol : Protocol :=
  stored (txt "The amygdala reacts.") complex_glossary.

End Scenario.

(** ** Notions used by the statements *)
Module Spec.
Import Readability Tooltips.

(** The lower-cased, alphabetic-only form of a word. *)
Definition alphabetic_form (w : text) : text := filter Py.is_az (Py.lower w).

(** The number of maximal runs of vowels: the positions that hold a vowel
    and do not follow one.  [in_run] tells that the character before was a
    vowel. *)
Fixpoint vowel_runs_from (in_run : bool) (s : text) : nat :=
  match s with
  | [] => 0
  | c :: s' =>
      (if is_vowel c && negb in_run then 1 else 0) + vowel_runs_from (is_vowel c) s'
  end.

Definition vowel_runs (s : text) : nat := vowel_runs_from false s.

Definition ends_in_e (s : text) : bool :=
  match rev s with
  | c :: _ => Ascii.eqb c "e"
  | [] => false
  end.

(** Runs of vowels, minus one for a final 'e' when there is more than one
    run, floored at 1. *)
Definition syllable_rule (w : text) : nat :=
  let s := alphabetic_form w in
  let n := vowel_runs s in
  Nat.max 1 (if ends_in_e s && (1 <? n) then n - 1 else n).

(** The selected matches rendered into a text, one after the other. *)
Definition render (selected : list TermMatch) (t : text) : text :=
  fold_left render_one selected t.

(** The term mapping after the selected matches have been recorded. *)
Definition track (selected : list TermMatch) (used : dict) : dict :=
  fold_left (fun d t => dict_set (term t) (definition t) d) selected used.

(** A later match starts where an earlier one has ended. *)
Definition precedes (a b : TermMatch) : Prop := end_position a <= position b.

Definition range_of (t : TermMatch) : nat * nat := (position t, end_position t).

(** The conditions under which markup can be stripped again: the text has
    no opening pair of braces, and every glossary entry has a non-empty term
    without a bar and a definition without a closing brace. *)
Definition not_open (c : ascii) : bool := negb (Ascii.eqb c "{").

Definition plain_text (t : text) : bool := negb (contains (txt "{{") t).

Definition strippable_entry (e : GlossaryEntry) : bool :=
  match clinical_term e with [] => false | _ => true end
  && forallb not_bar (clinical_term e)
  && forallb not_close (entry_definition e).

Definition strippable_glossary (g : list GlossaryEntry) : bool :=
  forallb strippable_entry g.

(** What the matcher guarantees of a match [m] in the text [t]: it comes
    from an entry of the glossary, spans the length of the entry's term
    inside the text, and carries the text it spans. *)
Definition match_of (t : text) (g : list GlossaryEntry) (m : TermMatch) : Prop :=
  exists e,
    In e g
    /\ definition m = entry_definition e
    /\ term m = Py.slice t (position m) (end_position m)
    /\ end_position m = position m + length (clinical_term e)
    /\ end_position m <= length t
    /\ Re.prefix_ci (Py.lower (clinical_term e)) (skipn (position m) t) = true.

(** A match that can be stripped again from the text [t]: it carries the
    non-empty text it spans, without a bar, and a definition without a
    closing brace. *)
Definition strippable_match (t : text) (m : TermMatch) : Prop :=
  term m = Py.slice t (position m) (end_position m)
  /\ position m < end_position m <= length t
  /\ forallb not_bar (term m) = true
  /\ forallb not_close (definition m) = true.

(** Two matches share a character offset: some [x] lies in the range
    [[position, end_position)] of both. *)
Definition share_offset (a b : TermMatch) : Prop :=
  exists x, (position a <= x < end_position a) /\ (position b <= x < end_position b).

End Spec.

(** ** Jargon, reading category and update priority
    ([validation-framework.py]) *)
Module Triage.
Import Readability.

Definition neuroscience_terms : list text :=
  map txt ["vagus nerve"; "coherence"; "neuroplasticity"; "amygdala"; "cortisol";
           "dopamine"; "serotonin"; "prefrontal cortex"; "limbic system";
           "hippocampus"; "neural pathways"; "synaptic"; "neurotransmitter";
           "homeostasis"; "autonomic"; "parasympathetic"; "sympathetic";
           "neurological"; "cognitive"; "metacognition"; "executive function"]%string.

Definition technical_suffixes : list text :=
  map txt ["ology"; "ation"; "osis"; "ism"; "itis"; "ectomy";
           "plasia"; "pathy"; "trophy"; "genesis"; "lysis"]%string.

Definition technical_prefixes : list text :=
  map txt ["neuro"; "psycho"; "bio"; "physio"; "cardio"; "hemo"]%string.

(** What one word of the text appends to [technical_terms]. *)
Definition technical_word (word : text) : list text :=
  if length word <? 5 then []   (* Skip short words *)
  else
    let word_lower := Py.lower word in
    (* Check for technical suffixes *)
    (if existsb (fun suffix => Py.endswith suffix word_lower) technical_suffixes
     then [word] else [])
    (* Check for technical prefixes *)
    ++ (if existsb (fun prefix => Py.startswith prefix word_lower) technical_prefixes
        then [word] else []).

(** The list [technical_terms] before duplicates are removed. *)
Definition technical_candidates (t : text) : list text :=
  let text_lower := Py.lower t in
  (* Find multi-word technical terms *)
  filter (fun term => Tooltips.contains term text_lower) neuroscience_terms
  (* Find words with technical suffixes *)
  ++ flat_map technical_word (Re.findall word_at t).

(** [list(set(l))]: the distinct elements of [l].  Python leaves the order
    of a set open; the elements are kept here in the order of their first
    occurrence, and the callers only use the length. *)
Fixpoint distinct (l : list text) : list text :=
  match l with
  | [] => []
  | x :: l' => x :: filter (fun y => negb (Py.eqb x y)) (distinct l')
  end.

Definition find_technical_terms_simple (t : text) : list text :=
  distinct (technical_candidates t).

Definition calculate_jargon_density (t : text) (technical_terms : list text) : float :=
  let word_count := length (Re.findall word_at t) in
  if word_count =? 0 then 0%float
  else
    let density :=
      (Py.float_of_nat (length technical_terms) / Py.float_of_nat word_count * 100)%float in
    Py.round2 density.

Inductive reading_category := easy | moderate | difficult | very_difficult.

Definition categorize_reading_level (flesch_kincaid_grade flesch_reading_ease : float)
    : reading_category :=
  if PrimFloat.leb flesch_kincaid_grade 6 && PrimFloat.leb 80 flesch_reading_ease
  then easy
  else if PrimFloat.leb flesch_kincaid_grade 9 && PrimFloat.leb 60 flesch_reading_ease
  then moderate
  else if PrimFloat.leb flesch_kincaid_grade 12 && PrimFloat.leb 40 flesch_reading_ease
  then difficult
  else very_difficult.

(** The four summands of the priority score. *)
Definition reading_level_points (flesch_kincaid_grade : float) : nat :=
  if PrimFloat.ltb 12 flesch_kincaid_grade then 40
  else if PrimFloat.ltb 10 flesch_kincaid_grade then 30
  else if PrimFloat.ltb 8 flesch_kincaid_grade then 20
  else if PrimFloat.ltb 6 flesch_kincaid_grade then 10
  else 0.

Definition jargon_points (jargon_density : float) : nat :=
  if PrimFloat.ltb 10 jargon_density then 30
  else if PrimFloat.ltb 5 jargon_density then 20
  else if PrimFloat.ltb 2 jargon_density then 10
  else 0.

Definition difficulty_points (difficulty_level : text) : nat :=
  if Py.eqb difficulty_level (txt "advanced") then 15
  else if Py.eqb difficulty_level (txt "intermediate") then 10
  else if Py.eqb difficulty_level (txt "beginner") then 5
  else 0.

Definition category_points (category : text) : nat :=
  if Py.eqb category (txt "neural-rewiring") then 15
  else if existsb (Py.eqb category) (map txt ["research"; "clinical"]%string) then 10
  else if existsb (Py.eqb category) (map txt ["daily-deductible"; "traditional"]%string)
  then 5
  else 0.

Definition calculate_priority_score (flesch_kincaid_grade jargon_density : float)
    (difficulty_level category : text) : nat :=
  let score := 0 in
  (* Reading level (max 40 points) *)
  let score := score + reading_level_points flesch_kincaid_grade in
  (* Jargon density (max 30 points) *)
  let score := score + jargon_points jargon_density in
  (* Difficulty level (max 15 points) *)
  let score := score + difficulty_points difficulty_level in
  (* Category (max 15 points) *)
  let score := score + category_points category in
  Nat.min 100 score.   (* Cap at 100 *)

(** The fields of a protocol row that [validate_protocol_readability]
    computes with; the identifier, the source file and the summary are
    copied to the result and left out. *)
Record Chunk := {
  chunk_text : option text;
  difficulty_level : option text;
  category : option text
}.

Record ReadabilityMetrics := {
  flesch_kincaid_grade : float;
  flesch_reading_ease : float;
  word_count : nat;
  sentence_count : nat;
  syllable_count : nat;
  avg_words_per_sentence : float;
  avg_syllables_per_word : float;
  technical_term_count : nat;
  jargon_density : float;
  reading_level_category : reading_category;
  needs_simplification : bool;
  priority_score : nat
}.

Definition validate_protocol_readability (protocol : Chunk) : ReadabilityMetrics :=
  let text0 := match chunk_text protocol with Some t => t | None => [] end in
  let difficulty :=
    match difficulty_level protocol with Some d => d | None => txt "intermediate" end in
  let cat := match category protocol with Some c => c | None => txt "general" end in
  (* Analyze text complexity *)
  let '(words, sentences, syllables) := analyze_text_complexity text0 in
  (* Calculate Flesch-Kincaid metrics *)
  let grade := calculate_flesch_kincaid_grade text0 words sentences syllables in
  let ease := calculate_flesch_reading_ease text0 words sentences syllables in
  (* Analyze jargon *)
  let technical_terms := find_technical_terms_simple text0 in
  let density := calculate_jargon_density text0 technical_terms in
  (* Calculate derived metrics *)
  let words_per_sentence :=
    if 0 <? sentences
    then (Py.float_of_nat words / Py.float_of_nat sentences)%float else 0%float in
  let syllables_per_word :=
    if 0 <? words
    then (Py.float_of_nat syllables / Py.float_of_nat words)%float else 0%float in
  {| flesch_kincaid_grade := grade;
     flesch_reading_ease := ease;
     word_count := words;
     sentence_count := sentences;
     syllable_count := syllables;
     avg_words_per_sentence := Py.round2 words_per_sentence;
     avg_syllables_per_word := Py.round2 syllables_per_word;
     technical_term_count := length technical_terms;
     jargon_density := density;
     (* Categorize reading level *)
     reading_level_category := categorize_reading_level grade ease;
     (* Determine if needs simplification (target: 8th grade or below) *)
     needs_simplification := PrimFloat.ltb 8 grade || PrimFloat.ltb 5 density;
     (* Calculate priority score *)
     priority_score := calculate_priority_score grade density difficulty cat |}.

End Triage.

(** ** Production update ([execute-week-4-agent-2.py]) *)
Module Pipeline.
Import Readability Tooltips Repair.

Definition quote : ascii := ascii_of_nat 34.

(** The keys of [terms_used] in PostgreSQL array format. *)
Definition pg_array (terms_used : dict) : text :=
  match terms_used with
  | [] => txt "{}"
  | _ =>
      txt "{"
      ++ Py.join (txt ",") (map (fun kv => quote :: fst kv ++ [quote]) terms_used)
      ++ txt "}"
  end.

(** The columns [task_2_production_update] writes; [language_variant] is
    always 'simplified'. *)
Record UpdateData := {
  new_simplified_text : text;
  new_glossary_terms : text;
  new_level_before : float;
  new_level_after : float
}.

(** The body of the production loop for one row, up to the call of the
    store: [None] when the injection fails validation and the row is
    skipped. *)
Definition production_update (protocol : Protocol) (glossary : list GlossaryEntry)
    : option UpdateData :=
  let original_text := get_text (chunk_text protocol) in
  (* Calculate reading level before *)
  let level_before := grade_level original_text in
  (* Inject tooltips *)
  let '(simplified, terms_used) := inject_tooltips original_text glossary 5 in
  (* Validate injection *)
  let '(is_valid, _) := validate_tooltip_injection original_text simplified in
  if negb is_valid then None
  else
    (* Calculate reading level after *)
    let level_after := grade_level simplified in
    Some {| new_simplified_text := simplified;
            new_glossary_terms := pg_array terms_used;
            new_level_before := level_before;
            new_level_after := level_after |}.

(** The row after the store has applied the update. *)
Definition updated_row (protocol : Protocol) (u : UpdateData) : Protocol :=
  {| id := id protocol;
     chunk_summary := chunk_summary protocol;
     chunk_text := chunk_text protocol;
     simplified_text := Some (new_simplified_text u);
     stored_level_before := Some (new_level_before u);
     stored_level_after := Some (new_level_after u) |}.

End Pipeline.

(** ** Notions used by the further statements *)
Module Shape.
Import Readability Tooltips.

(** The characters [T[from:upto]] with the matches [ms], given in text
    order, replaced by their tooltips. *)
Fixpoint layout (T : text) (from : nat) (ms : list TermMatch) (upto : nat) : text :=
  match ms with
  | [] => Py.slice T from upto
  | m :: ms' =>
      Py.slice T from (position m) ++ tooltip m ++ layout T (end_position m) ms' upto
  end.

(** The character before offset [i] of [T], if there is one. *)
Definition char_before (T : text) (i : nat) : option ascii :=
  match i with O => None | S k => nth_error T k end.

Definition no_brace (c : ascii) : bool := Spec.not_open c && not_close c.

Definition brace_free (t : text) : bool := forallb no_brace t.

Definition nonempty_terms (g : list GlossaryEntry) : bool :=
  forallb (fun e => match clinical_term e with [] => false | _ => true end) g.

(** A glossary for the wire format: non-empty terms without a bar, and
    definitions without a brace. *)
Definition wire_safe (g : list GlossaryEntry) : bool :=
  Spec.strippable_glossary g
  && forallb (fun e => brace_free (entry_definition e)) g.

(** [a] wins over [b] in the sweep: it starts earlier, or at the same
    offset and is at least as long. *)
Definition wins_over (a b : TermMatch) : Prop :=
  position a < position b
  \/ (position a = position b /\ end_position b <= end_position a).

(** Two matches lie apart: the one that starts no later ends where or
    before the other starts. *)
Definition apart (a b : TermMatch) : Prop :=
  (position b <= position a -> end_position b <= position a)
  /\ (position a <= position b -> end_position a <= position b).

(** Text in the ASCII range, on which Python's case folding, word class
    and character offsets are the ones of this embedding. *)
Definition is_ascii (c : ascii) : bool := Py.code c <? 128.

Definition ascii_text (t : text) : bool := forallb is_ascii t.

Definition ascii_glossary (g : list GlossaryEntry) : bool :=
  forallb (fun e => ascii_text (clinical_term e)) g.

(** [a] spans at least as many characters as [b]. *)
Definition longer (a b : TermMatch) : Prop :=
  end_position b + position a <= end_position a + position b.

Definition not_star (c : ascii) : bool := negb (Ascii.eqb c "*").

(** Every entry of the glossary has a definition of one character or
    more. *)
Definition with_definitions (g : list GlossaryEntry) : bool :=
  forallb (fun e => match entry_definition e with [] => false | _ => true end) g.

(** The texts [re.findall] returns for a pattern without groups, read off
    the scan of [Re.finditer_from] without the offsets. *)
Fixpoint found_from (m : option ascii -> text -> option nat)
    (prev : option ascii) (skip : nat) (s : text) : list text :=
  match s with
  | [] =>
      match skip, m prev [] with
      | O, Some n => [firstn n []]
      | _, _ => []
      end
  | c :: s' =>
      match skip with
      | S k => found_from m (Some c) k s'
      | O =>
          match m prev s with
          | Some n => firstn n s :: found_from m (Some c) (pred n) s'
          | None => found_from m (Some c) 0 s'
          end
      end
  end.

End Shape.

(** * Properties *)

Import Readability Tooltips Repair Scenario Spec.

(** A fact about one character, checked on each of the 256. *)
Ltac each_char c := destruct c as [[] [] [] [] [] [] [] []].

(** ** The concrete scenarios *)

(** C9, as stated: the analyzer does not count 10 words in the sample text
    (it counts 11), so the scenario with [wordCount = 10] does not hold. *)
Lemma simple_text_not_ten_words :
  ~ (let '(word_count, sentence_count, _) := analyze_text_complexity simple_text in
     word_count = 10 /\ sentence_count = 2
     /\ PrimFloat.leb (grade_level simple_text) 2 = true).
Proof.
  intros H. vm_compute in H. destruct H as [H _]. discriminate H.
Qed.

(** C9, amended: for the sample text the analyzer returns 11 words, 2
    sentences and 12 syllables, and the grade level is -0.57, at most 2.0. *)
Theorem simple_text_complexity :
  analyze_text_complexity simple_text = (11, 2, 12)
  /\ grade_level simple_text = (-0.57)%float
  /\ PrimFloat.leb (grade_level simple_text) 2 = true.
Proof.
  repeat split; vm_compute; reflexivity.
Qed.

(** C4: with "cortex" and "prefrontal cortex" in the glossary, in either
    order and whatever their definitions and categories, the matcher returns
    for "the prefrontal cortex activates" the single match "prefrontal
    cortex" at offsets 4 to 21, and no match of the embedded "cortex". *)
Theorem longest_match_precedence :
  forall (u1 x1 c1 u2 x2 c2 : option text),
    let cortex :=
      {| clinical_term := txt "cortex"; user_friendly_term := u1;
         explanation := x1; category := c1 |} in
    let prefrontal :=
      {| clinical_term := txt "prefrontal cortex"; user_friendly_term := u2;
         explanation := x2; category := c2 |} in
    let spans l := map (fun m => (term m, position m, end_position m)) l in
    spans (find_technical_terms cortex_text [cortex; prefrontal])
      = [(txt "prefrontal cortex", 4, 21)]
    /\ spans (find_technical_terms cortex_text [prefrontal; cortex])
      = [(txt "prefrontal cortex", 4, 21)]
    /\ existsb (fun m => Py.eqb (term m) (txt "cortex"))
               (find_technical_terms cortex_text [cortex; prefrontal]
                ++ find_technical_terms cortex_text [prefrontal; cortex]) = false.
Proof.
  intros. repeat split; vm_compute; reflexivity.
Qed.

(** C7, the failing input: "i.e." inside one sentence makes it count as two.
    The substitution keeps the inner period of the abbreviation, on which
    the text is then split; the same holds for "e.g.".  The final period of
    an abbreviation, and "Dr." and its like, are protected. *)
Theorem inner_period_splits_sentence :
  Re.sub abbreviation_at (txt "It works, i.e. it runs.")
    = txt "It works, i.e<PERIOD> it runs."
  /\ count_sentences (txt "It works, i.e. it runs.") = 2
  /\ count_sentences (txt "It works, it runs.") = 1
  /\ count_sentences (txt "Use tools, e.g. a hammer!") = 2
  /\ count_sentences (txt "Dr. Smith and Mrs. Jones etc. are here.") = 1.
Proof.
  repeat split; vm_compute; reflexivity.
Qed.

(** C6, the failing input: a degraded document whose only finding is a long
    definition is diagnosed with the single candidate [shorten_definitions],
    for which [repair_protocol] has no branch: no strategy is applied and the
    text is left as it was. *)
Theorem long_tooltip_gets_no_strategy :
  let p := long_simple_protocol in
  let d := diagnose_degradation p in
  let r := repair_protocol p d in
  is_degraded p = true
  /\ (long_tooltips d, complex_tooltips d, diag_max_tooltips_per_sentence d) = (1, 0, 1)
  /\ repair_strategies d = [shorten_definitions]
  /\ strategy_applied r = None
  /\ repaired_text r = get_text (simplified_text p)
  /\ persist r = No_update.
Proof.
  repeat split; vm_compute; reflexivity.
Qed.

(** ** Syllables *)

Section Syllables.

Lemma sub_non_az (prev : option ascii) (s : text) :
  Re.sub_from non_az_at prev 0 s = filter Py.is_az s.
Proof.
  revert prev; induction s as [|c s IH]; intros prev; simpl; [reflexivity|].
  destruct (Py.is_az c); simpl; now rewrite IH.
Qed.

Lemma space_not_az (c : ascii) : Py.is_space c = true -> Py.is_az c = false.
Proof.
  each_char c; vm_compute; congruence.
Qed.

Lemma filter_drop_spaces (s : text) :
  filter Py.is_az (Py.drop_while Py.is_space s) = filter Py.is_az s.
Proof.
  induction s as [|c s IH]; simpl; [reflexivity|].
  destruct (Py.is_space c) eqn:E; simpl; [|reflexivity].
  now rewrite (space_not_az c E).
Qed.

Lemma filter_strip (s : text) : filter Py.is_az (Py.strip s) = filter Py.is_az s.
Proof.
  unfold Py.strip.
  rewrite filter_rev, filter_drop_spaces, filter_rev, rev_involutive.
  apply filter_drop_spaces.
Qed.

(** The scan for [[aeiouy]+] finds one match per run of vowels: inside a
    run (the characters still to be skipped are the rest of the run) and
    outside of one. *)
Lemma vowel_matches_runs (s : text) :
  forall prev i,
    length (Re.finditer_from vowels_at prev i (length (Py.take_while is_vowel s)) s)
      = vowel_runs_from true s
    /\ length (Re.finditer_from vowels_at prev i 0 s) = vowel_runs_from false s.
Proof.
  induction s as [|c s IH]; intros prev i.
  - split; reflexivity.
  - destruct (IH (Some c) (S i)) as [IHin IHout].
    simpl Py.take_while. unfold vowels_at. simpl.
    destruct (is_vowel c) eqn:E; simpl.
    + split; [exact IHin | f_equal; exact IHin].
    + split; exact IHout.
Qed.

Lemma endswith_e (s : text) : Py.endswith (txt "e") s = ends_in_e s.
Proof.
  unfold Py.endswith, ends_in_e.
  change (rev (txt "e")) with ["e"%char].
  destruct (rev s) as [|c r]; [reflexivity|].
  cbn [Py.startswith]. rewrite andb_true_r. apply Ascii.eqb_sym.
Qed.

End Syllables.

(** C8, as stated: for the empty word the rule gives 1 (the floor) and the
    code gives 0. *)
Lemma empty_word_breaks_rule :
  count_syllables (txt "") = 0
  /\ syllable_rule (txt "") = 1
  /\ count_syllables (txt "") <> syllable_rule (txt "").
Proof.
  repeat split; try reflexivity. discriminate.
Qed.

(** C8, amended: for a word with at least one letter, [count_syllables] is
    the number of maximal vowel runs of its lower-cased alphabetic form,
    minus one when that form ends in 'e' and has more than one run, floored
    at 1; for a word without letters it is 0. *)
Theorem count_syllables_rule (w : text) :
  count_syllables w =
    match alphabetic_form w with
    | [] => 0
    | _ => syllable_rule w
    end.
Proof.
  unfold count_syllables, syllable_rule, Re.sub.
  rewrite sub_non_az, filter_strip.
  fold (alphabetic_form w).
  destruct (alphabetic_form w) as [|c s] eqn:E; [reflexivity|].
  unfold Re.findall, Re.finditer. rewrite length_map.
  rewrite (proj2 (vowel_matches_runs (c :: s) None 0)).
  rewrite endswith_e. reflexivity.
Qed.

(** ** Sorting *)

Section SortFacts.
Variable A : Type.
Variable before : A -> A -> bool.

Lemma insert_perm (x : A) (l : list A) : Permutation (Py.insert before x l) (x :: l).
Proof.
  induction l as [|y l IH]; simpl; [reflexivity|].
  destruct (before y x); [|reflexivity].
  rewrite IH. apply perm_swap.
Qed.

Lemma sort_perm (l : list A) : Permutation (Py.sort before l) l.
Proof.
  induction l as [|x l IH]; simpl; [reflexivity|].
  rewrite insert_perm. now rewrite IH.
Qed.

Lemma sort_in (l : list A) (x : A) : In x (Py.sort before l) <-> In x l.
Proof.
  split; apply Permutation_in; [|symmetry]; apply sort_perm.
Qed.

Lemma sort_length (l : list A) : length (Py.sort before l) = length l.
Proof.
  apply Permutation_length, sort_perm.
Qed.

(** The result is sorted for any transitive order [R] that [before]
    decides: [before y x] puts [y] first, its failure puts [x] first. *)
Variable R : A -> A -> Prop.
Hypothesis R_trans : forall a b c, R a b -> R b c -> R a c.
Hypothesis before_true : forall y x, before y x = true -> R y x.
Hypothesis before_false : forall y x, before y x = false -> R x y.

Lemma insert_sorted (x : A) (l : list A) :
  StronglySorted R l -> StronglySorted R (Py.insert before x l).
Proof.
  induction 1 as [|y l Hs IH Hy]; simpl.
  - constructor; constructor.
  - destruct (before y x) eqn:E.
    + constructor; [exact IH|].
      apply Forall_forall. intros z Hz.
      apply (Permutation_in _ (insert_perm x l)) in Hz.
      destruct Hz as [<-|Hz]; [now apply before_true|].
      rewrite Forall_forall in Hy. now apply Hy.
    + constructor; [now constructor|].
      constructor; [now apply before_false|].
      apply Forall_forall. intros z Hz.
      apply R_trans with y; [now apply before_false|].
      rewrite Forall_forall in Hy. now apply Hy.
Qed.

Lemma sort_sorted (l : list A) : StronglySorted R (Py.sort before l).
Proof.
  induction l as [|x l IH]; simpl; [constructor|now apply insert_sorted].
Qed.

End SortFacts.

Section OrderedLists.
Variable A : Type.
Variable R : A -> A -> Prop.

Lemma sorted_snoc (l : list A) (x : A) :
  StronglySorted R l -> Forall (fun y => R y x) l -> StronglySorted R (l ++ [x]).
Proof.
  induction 1 as [|y l Hs IH Hy]; intros Hx; simpl.
  - constructor; constructor.
  - inversion Hx as [|? ? Hyx Hl]; subst.
    constructor; [now apply IH|].
    apply Forall_app; split; [exact Hy|]. now constructor.
Qed.

Lemma sorted_nth (l : list A) :
  StronglySorted R l ->
  forall i j a b, i < j -> nth_error l i = Some a -> nth_error l j = Some b -> R a b.
Proof.
  induction 1 as [|y l Hs IH Hy]; intros i j a b Hij Ha Hb.
  - destruct i; discriminate.
  - destruct j as [|j]; [lia|].
    destruct i as [|i]; simpl in Ha, Hb.
    + injection Ha as <-. rewrite Forall_forall in Hy.
      apply Hy. now apply nth_error_In with j.
    + apply (IH i j); [lia|assumption..].
Qed.

End OrderedLists.

(** ** The matcher keeps no two overlapping matches *)

Section Overlap.

Lemma no_overlap_precedes (uniq : list TermMatch) (t : TermMatch) :
  overlaps (map range_of uniq) t = false ->
  Forall (fun u => position u <= position t) uniq ->
  Forall (fun u => precedes u t) uniq.
Proof.
  unfold overlaps. induction uniq as [|u uniq IH]; intros Ho Hp; [constructor|].
  simpl in Ho. apply orb_false_iff in Ho. destruct Ho as [Hu Ho].
  inversion Hp as [|? ? Hut Hp']; subst.
  constructor; [|now apply IH].
  apply orb_false_iff in Hu. destruct Hu as [Hu _].
  unfold precedes.
  apply andb_false_iff in Hu. destruct Hu as [Hu|Hu].
  - apply Nat.leb_gt in Hu. lia.
  - apply Nat.ltb_ge in Hu. exact Hu.
Qed.

(** The loop, from a state whose kept matches are in order and start no
    later than the matches to come, ends with the kept matches in order. *)
Lemma keep_first_ordered (l : list TermMatch) :
  StronglySorted (fun a b => position a <= position b) l ->
  forall uniq,
    StronglySorted precedes uniq ->
    (forall u t, In u uniq -> In t l -> position u <= position t) ->
    StronglySorted precedes (snd (fold_left keep_first l (map range_of uniq, uniq))).
Proof.
  induction 1 as [|t l Hs IH Ht]; intros uniq Hu Hle; simpl; [exact Hu|].
  destruct (overlaps (map range_of uniq) t) eqn:Ho.
  - apply IH; [exact Hu|]. intros u t' Hin Hin'. apply Hle; [exact Hin|now right].
  - change (map range_of uniq ++ [(position t, end_position t)])
      with (map range_of uniq ++ map range_of [t]).
    rewrite <- map_app. apply IH.
    + apply sorted_snoc; [exact Hu|].
      apply no_overlap_precedes; [exact Ho|].
      apply Forall_forall. intros u Hin. apply Hle; [exact Hin|now left].
    + intros u t' Hin Hin'. apply in_app_or in Hin. destruct Hin as [Hin|[<-|[]]].
      * apply Hle; [exact Hin|now right].
      * rewrite Forall_forall in Ht. now apply Ht.
Qed.

Lemma keep_first_subset (l : list TermMatch) :
  forall seen uniq x,
    In x (snd (fold_left keep_first l (seen, uniq))) -> In x uniq \/ In x l.
Proof.
  induction l as [|t l IH]; intros seen uniq x Hx; simpl in Hx; [now left|].
  destruct (overlaps seen t).
  - destruct (IH _ _ _ Hx) as [H|H]; [now left|right; now right].
  - destruct (IH _ _ _ Hx) as [H|H]; [|right; now right].
    apply in_app_or in H. destruct H as [H|[<-|[]]]; [now left|right; now left].
Qed.

Lemma by_position_sorted (l : list TermMatch) :
  StronglySorted (fun a b => position a <= position b)
                 (Py.sort (fun y x => position y <? position x) l).
Proof.
  apply sort_sorted.
  - intros a b c. lia.
  - intros y x H. apply Nat.ltb_lt in H. lia.
  - intros y x H. apply Nat.ltb_ge in H. exact H.
Qed.

Lemma matches_ordered (T : text) (G : list GlossaryEntry) :
  StronglySorted precedes (find_technical_terms T G).
Proof.
  unfold find_technical_terms.
  apply (keep_first_ordered (by_position_sorted _) (uniq := [])).
  - constructor.
  - intros u t [].
Qed.

End Overlap.

(** C3: two distinct records of the list the matcher returns share no
    character offset: one of them ends where or before the other starts. *)
Theorem matches_do_not_overlap
    (T : text) (G : list GlossaryEntry) (i j : nat) (a b : TermMatch) :
  i <> j ->
  nth_error (find_technical_terms T G) i = Some a ->
  nth_error (find_technical_terms T G) j = Some b ->
  (end_position a <= position b \/ end_position b <= position a)
  /\ ~ share_offset a b.
Proof.
  intros Hij Ha Hb.
  assert (H : end_position a <= position b \/ end_position b <= position a).
  { destruct (Nat.lt_total i j) as [Hlt|[Heq|Hgt]]; [left|contradiction|right].
    - exact (sorted_nth (matches_ordered T G) Hlt Ha Hb).
    - exact (sorted_nth (matches_ordered T G) Hgt Hb Ha). }
  split; [exact H|].
  intros [x [Hxa Hxb]]. lia.
Qed.

(** Two matches of one text: "prefrontal cortex" at 4..21 and the later
    "cortex" at 36..42. *)
Lemma matches_do_not_overlap_witness :
  let T := txt "the prefrontal cortex activates the cortex" in
  let G := [entry "cortex" "outer layer"; entry "prefrontal cortex" "planning center"] in
  let a := {| term := txt "prefrontal cortex"; position := 4; end_position := 21;
              definition := txt "planning center"; term_category := txt "general" |} in
  let b := {| term := txt "cortex"; position := 36; end_position := 42;
              definition := txt "outer layer"; term_category := txt "general" |} in
  (end_position a <= position b \/ end_position b <= position a)
  /\ ~ share_offset a b.
Proof.
  intros T G a b.
  apply (@matches_do_not_overlap T G 0 1 a b).
  - discriminate.
  - vm_compute. reflexivity.
  - vm_compute. reflexivity.
Defined.

(** ** The injector: how many spans, and what it reports *)

Section Injection.

Lemma py_eqb_eq (s t : text) : Py.eqb s t = true <-> s = t.
Proof.
  revert t; induction s as [|c s IH]; intros [|d t]; simpl; split;
    try congruence; try reflexivity.
  - intros H. apply andb_true_iff in H. destruct H as [Hc Hs].
    apply Ascii.eqb_eq in Hc. apply IH in Hs. congruence.
  - intros H. injection H as -> ->. apply andb_true_iff. split.
    + apply Ascii.eqb_refl.
    + now apply IH.
Qed.

Lemma take_nat_length (A : Type) (n : nat) (l : list A) :
  length (Py.take (Z.of_nat n) l) <= n.
Proof.
  unfold Py.take.
  destruct (Z.ltb_spec (Z.of_nat n) 0) as [H|_]; [lia|].
  rewrite Nat2Z.id, length_firstn. lia.
Qed.

Lemma firstn_in (A : Type) (n : nat) (l : list A) (x : A) : In x (firstn n l) -> In x l.
Proof.
  revert l; induction n as [|n IH]; intros [|y l]; simpl; try tauto.
  intros [H|H]; [now left|right; now apply IH].
Qed.

Lemma take_in (A : Type) (n : Z) (l : list A) (x : A) : In x (Py.take n l) -> In x l.
Proof.
  unfold Py.take. destruct (n <? 0)%Z; apply firstn_in.
Qed.

Lemma take_nil (A : Type) (n : Z) : Py.take n (@nil A) = [].
Proof.
  unfold Py.take. destruct (n <? 0)%Z; apply firstn_nil.
Qed.

Lemma top_terms_in (T : text) (G : list GlossaryEntry) (n : Z) (t : TermMatch) :
  In t (top_terms T G n) -> In t (find_technical_terms T G).
Proof.
  unfold top_terms. intros H.
  apply sort_in, take_in, sort_in in H. exact H.
Qed.

Lemma inject_fold (ts : list TermMatch) :
  forall u d, fold_left inject_one ts (u, d) = (render ts u, track ts d).
Proof.
  induction ts as [|t ts IH]; intros u d; simpl; [reflexivity|]. apply IH.
Qed.

(** The injector returns the rendering of the selected matches and the
    mapping recorded from them, also when nothing was matched. *)
Lemma inject_tooltips_eq (T : text) (G : list GlossaryEntry) (n : Z) :
  inject_tooltips T G n = (render (top_terms T G n) T, track (top_terms T G n) []).
Proof.
  unfold inject_tooltips.
  destruct (find_technical_terms T G) as [|t ts] eqn:E.
  - unfold top_terms. rewrite E. simpl. rewrite take_nil. reflexivity.
  - apply inject_fold.
Qed.

Lemma dict_set_keys (k v : text) (d : dict) :
  map fst (dict_set k v d) =
    if existsb (Py.eqb k) (map fst d) then map fst d else map fst d ++ [k].
Proof.
  induction d as [|[k' v'] d IH]; simpl; [reflexivity|].
  destruct (Py.eqb k k'); simpl; [reflexivity|].
  rewrite IH. now destruct (existsb (Py.eqb k) (map fst d)).
Qed.

Lemma has_key_in (k : text) (l : list text) : existsb (Py.eqb k) l = true <-> In k l.
Proof.
  rewrite existsb_exists. split.
  - intros [x [Hx He]]. apply py_eqb_eq in He. now subst.
  - intros H. exists k. split; [exact H|]. now apply py_eqb_eq.
Qed.

Lemma dict_set_length (k v : text) (d : dict) :
  length (dict_set k v d) = if existsb (Py.eqb k) (map fst d) then length d else S (length d).
Proof.
  rewrite <- (length_map fst), dict_set_keys.
  destruct (existsb (Py.eqb k) (map fst d)).
  - apply length_map.
  - rewrite length_app, length_map. simpl. lia.
Qed.

Lemma dict_set_has (k v : text) (d : dict) : In k (map fst (dict_set k v d)).
Proof.
  rewrite dict_set_keys.
  destruct (existsb (Py.eqb k) (map fst d)) eqn:E.
  - now apply has_key_in.
  - apply in_or_app. right. now left.
Qed.

Lemma dict_set_keeps (k v k' : text) (d : dict) :
  In k' (map fst d) -> In k' (map fst (dict_set k v d)).
Proof.
  rewrite dict_set_keys.
  destruct (existsb (Py.eqb k) (map fst d)); [trivial|].
  intros H. apply in_or_app. now left.
Qed.

Lemma dict_set_nodup (k v : text) (d : dict) :
  NoDup (map fst d) -> NoDup (map fst (dict_set k v d)).
Proof.
  rewrite dict_set_keys.
  destruct (existsb (Py.eqb k) (map fst d)) eqn:E; [trivial|].
  intros H. apply NoDup_app; [exact H|repeat constructor; intros []|].
  intros x Hx [<-|[]].
  apply has_key_in in Hx. congruence.
Qed.

Lemma track_keeps (ts : list TermMatch) :
  forall d k, In k (map fst d) -> In k (map fst (track ts d)).
Proof.
  induction ts as [|t ts IH]; intros d k H; simpl; [exact H|].
  apply IH. now apply dict_set_keeps.
Qed.

Lemma track_nodup (ts : list TermMatch) :
  forall d, NoDup (map fst d) -> NoDup (map fst (track ts d)).
Proof.
  induction ts as [|t ts IH]; intros d H; simpl; [exact H|].
  apply IH. now apply dict_set_nodup.
Qed.

Lemma track_length_le (ts : list TermMatch) :
  forall d, length (track ts d) <= length d + length ts.
Proof.
  induction ts as [|t ts IH]; intros d; simpl; [lia|].
  specialize (IH (dict_set (term t) (definition t) d)).
  rewrite dict_set_length in IH.
  destruct (existsb (Py.eqb (term t)) (map fst d)); lia.
Qed.

(** A match whose term is already a key adds no entry. *)
Lemma track_known_key (ts : list TermMatch) :
  forall d j b,
    nth_error ts j = Some b -> In (term b) (map fst d) ->
    length (track ts d) < length d + length ts.
Proof.
  induction ts as [|t ts IH]; intros d j b Hb Hk; [destruct j; discriminate|].
  simpl. destruct j as [|j]; simpl in Hb.
  - injection Hb as ->.
    pose proof (track_length_le ts (dict_set (term b) (definition b) d)) as H.
    rewrite dict_set_length in H.
    apply has_key_in in Hk. rewrite Hk in H. lia.
  - pose proof (IH (dict_set (term t) (definition t) d) j b Hb
                   (dict_set_keeps _ _ _ _ Hk)) as H.
    rewrite dict_set_length in H.
    destruct (existsb (Py.eqb (term t)) (map fst d)); lia.
Qed.

(** Two matches with the same term add one entry between them. *)
Lemma track_repeated_term (ts : list TermMatch) :
  forall d i j a b,
    i < j -> nth_error ts i = Some a -> nth_error ts j = Some b -> term a = term b ->
    length (track ts d) < length d + length ts
    /\ In (term a) (map fst (track ts d)).
Proof.
  induction ts as [|t ts IH]; intros d i j a b Hij Ha Hb Hab; [destruct i; discriminate|].
  destruct j as [|j]; [lia|]. simpl in Hb. simpl track.
  destruct i as [|i]; simpl in Ha.
  - injection Ha as ->. split.
    + assert (Hk : In (term b) (map fst (dict_set (term a) (definition a) d))).
      { rewrite <- Hab. apply dict_set_has. }
      pose proof (track_known_key ts _ j Hb Hk) as H.
      rewrite dict_set_length in H. simpl.
      destruct (existsb (Py.eqb (term a)) (map fst d)); lia.
    + apply track_keeps, dict_set_has.
  - destruct (IH (dict_set (term t) (definition t) d) i j a b) as [H Hin];
      [lia|assumption..|].
    split; [|exact Hin].
    rewrite dict_set_length in H. simpl.
    destruct (existsb (Py.eqb (term t)) (map fst d)); lia.
Qed.

Lemma tooltips_added_eq (r : option (text -> float)) (T : text)
    (G : list GlossaryEntry) (n : Z) :
  tooltips_added (update_protocol r T G n) = length (snd (inject_tooltips T G n)).
Proof.
  unfold update_protocol.
  destruct (inject_tooltips T G n) as [simplified used].
  destruct (validate_tooltip_injection T simplified). reflexivity.
Qed.

End Injection.

(** C5: for a bound [n], the injector renders the matches it selected, at
    most [n] of them and all of them matches of the matcher, each replaced
    once by its markup; and when the matcher finds nothing it returns the
    text as it is, with an empty term mapping. *)
Theorem bounded_injection (T : text) (G : list GlossaryEntry) (n : nat) :
  let selected := top_terms T G (Z.of_nat n) in
  length selected <= n
  /\ incl selected (find_technical_terms T G)
  /\ fst (inject_tooltips T G (Z.of_nat n)) = render selected T
  /\ (find_technical_terms T G = [] -> inject_tooltips T G (Z.of_nat n) = (T, [])).
Proof.
  intros selected. repeat split.
  - unfold selected, top_terms. rewrite sort_length. apply take_nat_length.
  - intros t. apply top_terms_in.
  - now rewrite inject_tooltips_eq.
  - intros E. unfold inject_tooltips. now rewrite E.
Qed.

(** The bound is a Python slice bound: a negative one counts from the end,
    so that with three matches [-1] selects two of them. *)
Lemma negative_bound_counts_from_end :
  let T := txt "The amygdala reacts; the amygdala calms. Amygdala!" in
  let G := [entry "amygdala" "alarm"] in
  length (find_technical_terms T G) = 3 /\ length (top_terms T G (-1)) = 2.
Proof.
  split; vm_compute; reflexivity.
Qed.

(** ** Repair *)

Section RepairFacts.

Lemma repair_protocol_fields (p : Protocol) (d : Diagnosis) :
  let r := repair_protocol p d in
  reading_level_repaired r = grade_level (repaired_text r)
  /\ should_update r =
       PrimFloat.ltb 0.1 (reading_level_after d - reading_level_repaired r)
       && PrimFloat.ltb (reading_level_repaired r) (reading_level_after d).
Proof.
  unfold repair_protocol.
  destruct (has simplify_language (repair_strategies d)); [split; reflexivity|].
  destruct (has remove_tooltips (repair_strategies d)).
  - destruct (remove_complex_tooltips (get_text (simplified_text p)) 8).
    split; reflexivity.
  - destruct (has manual_review (repair_strategies d)); split; reflexivity.
Qed.

Lemma persist_should_update (r : RepairResult) :
  persist r = Update_store -> should_update r = true.
Proof.
  unfold persist.
  destruct (strategy_applied r) as [[]|]; destruct (should_update r);
    congruence.
Qed.

(** Which strategy the repair step applies to a diagnosed document: the
    first of [simplify_language], [remove_tooltips] and [manual_review]
    among the candidates, and none when the only candidate is
    [shorten_definitions]. *)
Lemma repair_strategy_choice (p : Protocol) :
  let d := diagnose_degradation p in
  strategy_applied (repair_protocol p d) =
    if 0 <? complex_tooltips d then Some simplify_language
    else if 3 <=? diag_max_tooltips_per_sentence d then Some remove_tooltips
    else if 0 <? long_tooltips d then None
    else Some manual_review.
Proof.
  unfold repair_protocol, diagnose_degradation.
  cbn [repair_strategies complex_tooltips long_tooltips diag_max_tooltips_per_sentence].
  destruct (0 <? length (filter (fun t => 15 <? tip_word_count t)
                                (extract_tooltips_from_text (get_text (simplified_text p)))));
    destruct (0 <? length (filter (fun t => PrimFloat.ltb 8 (tip_reading_level t))
                                  (extract_tooltips_from_text (get_text (simplified_text p)))));
    destruct (3 <=? max_tooltips_per_sentence (get_text (simplified_text p)));
    cbn [app map snd has existsb strategy_eqb orb];
    try reflexivity;
    destruct (remove_complex_tooltips (get_text (simplified_text p)) 8);
    reflexivity.
Qed.

End RepairFacts.

(** C2: a repaired text is marked for persistence ([should_update], the
    only mark under which the store is updated) only when its grade level is
    strictly below the stored post-injection level; and the revert policy
    yields the original text, so that the grade level of the repaired text
    is that of the original text, the level before injection, and marks it
    for persistence. *)
Theorem monotonic_repair (p : Protocol) (d : Diagnosis) :
  let r := repair_protocol p d in
  let v := repair_protocol_revert p d in
  (should_update r = true ->
     PrimFloat.ltb (grade_level (repaired_text r)) (reading_level_after d) = true)
  /\ (persist r = Update_store -> should_update r = true)
  /\ reading_level_repaired r = grade_level (repaired_text r)
  /\ repaired_text v = get_text (chunk_text p)
  /\ reading_level_repaired v = grade_level (get_text (chunk_text p))
  /\ (reading_level_before d = grade_level (get_text (chunk_text p)) ->
      reading_level_repaired v = reading_level_before d)
  /\ persist v = Update_store.
Proof.
  intros r v.
  destruct (repair_protocol_fields p d) as [Hl Hs]. fold r in Hl, Hs.
  repeat split.
  - intros H. rewrite Hs in H. apply andb_true_iff in H.
    rewrite <- Hl. apply H.
  - apply persist_should_update.
  - exact Hl.
  - intros H. now rewrite H.
Qed.

(** The degraded scenario with a complex definition: the repair is marked
    and persisted at a level below the one after injection, and the revert
    restores the stored level before injection. *)
Lemma monotonic_repair_witness :
  let p := complex_protocol in
  let d := diagnose_degradation p in
  let r := repair_protocol p d in
  (is_degraded p = true /\ persist r = Update_store)
  /\ PrimFloat.ltb (grade_level (repaired_text r)) (reading_level_after d) = true
  /\ reading_level_repaired (repair_protocol_revert p d) = reading_level_before d.
Proof.
  intros p d r.
  assert (Hp : persist r = Update_store) by (vm_compute; reflexivity).
  destruct (monotonic_repair p d) as [Hlt [Hmark [_ [_ [_ [Hrevert _]]]]]].
  split; [split; [vm_compute; reflexivity|exact Hp]|].
  split.
  - exact (Hlt (Hmark Hp)).
  - apply Hrevert. vm_compute. reflexivity.
Defined.

(** ** What a match is *)

Section Matches.

Lemma finditer_from_spec (m : option ascii -> text -> option nat) (s : text) :
  forall prev i skip a b,
    In (a, b) (Re.finditer_from m prev i skip s) ->
    exists k prev',
      a = i + k /\ k <= length s /\ m prev' (skipn k s) = Some (b - a) /\ a <= b.
Proof.
  induction s as [|c s IH]; intros prev i skip a b H; simpl in H.
  - destruct skip; [|contradiction].
    destruct (m prev []) as [n|] eqn:E; [|contradiction].
    destruct H as [H|[]]. injection H as <- <-.
    exists 0, prev. simpl. repeat split; try lia.
    rewrite E. f_equal. lia.
  - assert (Hrec : forall skip',
               In (a, b) (Re.finditer_from m (Some c) (S i) skip' s) ->
               exists k prev',
                 a = i + k /\ k <= length (c :: s)
                 /\ m prev' (skipn k (c :: s)) = Some (b - a) /\ a <= b).
    { intros skip' H'. destruct (IH _ _ _ _ _ H') as [k [prev' [Ha [Hk [Hm Hab]]]]].
      exists (S k), prev'. simpl. repeat split; try lia. exact Hm. }
    destruct skip as [|skip]; [|now apply Hrec with skip].
    destruct (m prev (c :: s)) as [n|] eqn:E; [|now apply Hrec with 0].
    destruct H as [H|H]; [|now apply Hrec with (pred n)].
    injection H as <- <-. exists 0, prev. simpl. repeat split; try lia.
    rewrite E. f_equal. lia.
Qed.

Lemma term_at_some (cl : text) (prev : option ascii) (s : text) (n : nat) :
  term_at cl prev s = Some n -> n = length cl /\ Re.prefix_ci cl s = true.
Proof.
  unfold term_at.
  destruct (Re.boundary prev (hd_error s)); [|discriminate].
  destruct (Re.prefix_ci cl s); [|discriminate].
  simpl. destruct (Re.boundary _ _); [|discriminate].
  intros H. injection H as <-. now split.
Qed.

Lemma prefix_ci_length (pat s : text) : Re.prefix_ci pat s = true -> length pat <= length s.
Proof.
  revert s; induction pat as [|a pat IH]; intros [|c s] H; simpl in *;
    try lia; try discriminate.
  apply andb_true_iff in H. destruct H as [_ H]. apply IH in H. lia.
Qed.

Lemma entry_matches_spec (T : text) (G : list GlossaryEntry) (e : GlossaryEntry)
    (m : TermMatch) :
  In e G -> In m (entry_matches T e) -> match_of T G m.
Proof.
  intros He Hm. unfold entry_matches in Hm.
  apply in_map_iff in Hm. destruct Hm as [[a b] [<- Hspan]].
  unfold Re.finditer in Hspan.
  destruct (finditer_from_spec _ _ _ _ _ _ _ Hspan) as [k [prev' [Ha [Hk [Hm Hab]]]]].
  simpl in Ha. subst a.
  apply term_at_some in Hm. destruct Hm as [Hn Hp].
  unfold Py.lower in Hn. rewrite length_map in Hn.
  pose proof (prefix_ci_length _ _ Hp) as Hl.
  unfold Py.lower in Hl. rewrite length_map, length_skipn in Hl.
  exists e. simpl. repeat split; try assumption; try reflexivity; lia.
Qed.

Lemma matches_spec (T : text) (G : list GlossaryEntry) (m : TermMatch) :
  In m (find_technical_terms T G) -> match_of T G m.
Proof.
  unfold find_technical_terms. intros H.
  apply keep_first_subset in H. destruct H as [[]|H].
  apply sort_in in H. apply in_flat_map in H. destruct H as [e [He Hm]].
  apply sort_in in He. now apply entry_matches_spec with e.
Qed.

End Matches.

(** ** Stripping markup *)

Section Substitution.
Variable m : option ascii -> text -> option (text * nat).
Hypothesis m_prev : forall p p' s, m p s = m p' s.

Lemma sub_from_prev (s : text) :
  forall p p' k, Re.sub_from m p k s = Re.sub_from m p' k s.
Proof.
  induction s as [|c s IH]; intros p p' k; simpl; [reflexivity|].
  destruct k; [|reflexivity].
  rewrite (m_prev p p'). reflexivity.
Qed.

(** Passing over [k] characters is resuming after them. *)
Lemma sub_from_skip (s : text) :
  forall p k, Re.sub_from m p k s = Re.sub_from m None 0 (skipn k s).
Proof.
  induction s as [|c s IH]; intros p k.
  - now destruct k.
  - destruct k as [|k]; [apply sub_from_prev|].
    simpl. apply IH.
Qed.

(** A match is replaced, and the scan resumes after it. *)
Lemma sub_from_match (s r : text) (n : nat) :
  m None s = Some (r, n) -> 0 < n -> s <> [] ->
  Re.sub_from m None 0 s = r ++ Re.sub_from m None 0 (skipn n s).
Proof.
  intros Hm Hn Hs. destruct s as [|c s]; [contradiction|].
  simpl Re.sub_from. rewrite Hm. f_equal.
  rewrite sub_from_skip. destruct n; [lia|reflexivity].
Qed.

End Substitution.

Section Strip.

Lemma take_while_stop (p : ascii -> bool) (l r : text) (c : ascii) :
  forallb p l = true -> p c = false -> Py.take_while p (l ++ c :: r) = l.
Proof.
  intros Hl Hc. induction l as [|a l IH]; simpl.
  - now rewrite Hc.
  - simpl in Hl. apply andb_true_iff in Hl. destruct Hl as [Ha Hl].
    rewrite Ha. f_equal. now apply IH.
Qed.

Lemma skipn_length_app (A : Type) (l r : list A) : skipn (length l) (l ++ r) = r.
Proof.
  induction l as [|a l IH]; simpl; [reflexivity|exact IH].
Qed.

Lemma markup_at_plain (c : ascii) (r : text) (p : option ascii) :
  not_open c = true -> markup_at p (c :: r) = None.
Proof.
  each_char c; simpl; try reflexivity.
  discriminate.
Qed.

Lemma tooltip_shape (t : TermMatch) (rest : text) :
  tooltip t ++ rest =
    "{"%char :: "{"%char :: term t
      ++ "|"%char :: "|"%char :: definition t ++ "}"%char :: "}"%char :: rest.
Proof.
  unfold tooltip.
  change (txt "{{") with ["{"%char; "{"%char].
  change (txt "||") with ["|"%char; "|"%char].
  change (txt "}}") with ["}"%char; "}"%char].
  cbn [app]. f_equal. f_equal.
  rewrite <- app_assoc. f_equal. cbn [app]. f_equal. f_equal.
  rewrite <- app_assoc. reflexivity.
Qed.

Lemma markup_at_shape (g d rest : text) (p : option ascii) :
  g <> [] ->
  forallb not_bar g = true ->
  forallb not_close d = true ->
  markup_at p ("{"%char :: "{"%char :: g
                 ++ "|"%char :: "|"%char :: d ++ "}"%char :: "}"%char :: rest)
    = Some (g, length g + length d + 6).
Proof.
  intros Hne Hbar Hclose.
  set (s2 := "|"%char :: d ++ "}"%char :: "}"%char :: rest).
  assert (Hg : Py.take_while not_bar (g ++ "|"%char :: s2) = g)
    by (apply take_while_stop; [assumption|reflexivity]).
  assert (Hs1 : skipn (length g) (g ++ "|"%char :: s2) = "|"%char :: s2)
    by apply skipn_length_app.
  assert (Hd : Py.take_while not_close s2 = "|"%char :: d)
    by (apply (take_while_stop not_close ("|"%char :: d));
        [assumption|reflexivity]).
  assert (Hs2 : skipn (length ("|"%char :: d)) s2 = "}"%char :: "}"%char :: rest)
    by apply (skipn_length_app ("|"%char :: d)).
  unfold markup_at. cbv beta iota zeta.
  rewrite Hg. destruct g as [|a g]; [contradiction|].
  rewrite Hs1. cbv beta iota zeta.
  rewrite Hd, Hs2. cbv beta iota zeta.
  f_equal. f_equal. cbn [length]. lia.
Qed.

(** The pattern matches a whole tooltip whose term is non-empty and has no
    bar and whose definition has no closing brace, with the term as
    group 1. *)
Lemma markup_at_tooltip (t : TermMatch) (rest : text) (p : option ascii) :
  term t <> [] ->
  forallb not_bar (term t) = true ->
  forallb not_close (definition t) = true ->
  markup_at p (tooltip t ++ rest) = Some (term t, length (tooltip t)).
Proof.
  intros Hne Hbar Hclose.
  rewrite tooltip_shape, markup_at_shape by assumption.
  f_equal. f_equal.
  rewrite <- (app_nil_r (tooltip t)) at 1. rewrite tooltip_shape.
  cbn [length]. repeat (rewrite length_app; cbn [length]). lia.
Qed.

Lemma markup_at_single (c : ascii) (r : text) (p : option ascii) :
  not_open c = true -> markup_at p ("{"%char :: c :: r) = None.
Proof.
  each_char c; simpl; try reflexivity.
  discriminate.
Qed.

Lemma not_open_false (c : ascii) : not_open c = false -> c = "{"%char.
Proof.
  unfold not_open. intros H. apply negb_false_iff in H. now apply Ascii.eqb_eq.
Qed.

Lemma contains_cons (p : text) (c : ascii) (s : text) :
  contains p (c :: s) = Py.startswith p (c :: s) || contains p s.
Proof. reflexivity. Qed.

Lemma plain_cons (c : ascii) (s : text) :
  plain_text (c :: s) = true <->
  Py.startswith (txt "{{") (c :: s) = false /\ plain_text s = true.
Proof.
  unfold plain_text. rewrite contains_cons, negb_orb, andb_true_iff.
  now rewrite !negb_true_iff.
Qed.

Lemma plain_tail (c : ascii) (s : text) : plain_text (c :: s) = true -> plain_text s = true.
Proof.
  intros H. now apply plain_cons in H.
Qed.

Lemma plain_second (c : ascii) (s : text) :
  plain_text ("{"%char :: c :: s) = true -> not_open c = true.
Proof.
  intros H. apply plain_cons in H. destruct H as [H _].
  change (txt "{{") with ["{"%char; "{"%char] in H. cbn [Py.startswith] in H.
  rewrite andb_true_r in H. change (("{" =? "{")%char) with true in H.
  rewrite andb_true_l in H. unfold not_open. rewrite Ascii.eqb_sym. now rewrite H.
Qed.

Lemma plain_app_r (a b : text) : plain_text (a ++ b) = true -> plain_text b = true.
Proof.
  induction a as [|c a IH]; [trivial|].
  intros H. apply IH. now apply plain_tail with c.
Qed.

Lemma startswith_app (p a b : text) :
  Py.startswith p a = true -> Py.startswith p (a ++ b) = true.
Proof.
  revert a; induction p as [|x p IH]; intros [|c a]; simpl; try congruence.
  intros H. apply andb_true_iff in H. destruct H as [Hx Hp].
  rewrite Hx. now apply IH.
Qed.

Lemma plain_app_l (a b : text) : plain_text (a ++ b) = true -> plain_text a = true.
Proof.
  induction a as [|c a IH]; [reflexivity|].
  rewrite <- app_comm_cons. intros H. apply plain_cons in H. destruct H as [Hs Hc].
  apply plain_cons. split; [|now apply IH].
  destruct (Py.startswith (txt "{{") (c :: a)) eqn:E; [|reflexivity].
  apply (startswith_app _ _ b) in E. rewrite <- app_comm_cons in E. congruence.
Qed.

Lemma sub_markup_step (c : ascii) (s : text) :
  markup_at None (c :: s) = None ->
  strip_markup (c :: s) = c :: strip_markup s.
Proof.
  intros H. unfold strip_markup, Re.sub. cbn [Re.sub_from]. rewrite H. f_equal.
  now apply sub_from_prev.
Qed.

(** A text without an opening pair is copied as it is. *)
Lemma strip_plain (seg : text) : plain_text seg = true -> strip_markup seg = seg.
Proof.
  induction seg as [|c seg IH]; intros H; [reflexivity|].
  rewrite sub_markup_step, IH; [reflexivity|now apply plain_tail with c|].
  destruct (not_open c) eqn:E; [now apply markup_at_plain|].
  apply not_open_false in E. subst c.
  destruct seg as [|c' seg]; [reflexivity|].
  apply markup_at_single. now apply plain_second with seg.
Qed.

Lemma strip_tooltip (t : TermMatch) (rest : text) :
  term t <> [] ->
  forallb not_bar (term t) = true ->
  forallb not_close (definition t) = true ->
  strip_markup (tooltip t ++ rest) = term t ++ strip_markup rest.
Proof.
  intros Hne Hbar Hclose. unfold strip_markup, Re.sub.
  rewrite (@sub_from_match markup_at (fun _ _ _ => eq_refl) _ (term t) (length (tooltip t))).
  - now rewrite skipn_length_app.
  - now apply markup_at_tooltip.
  - unfold tooltip. simpl. lia.
  - unfold tooltip. simpl. discriminate.
Qed.

(** A brace right before a tooltip opens the match one character early; the
    match then takes the brace into group 1 and ends with the tooltip. *)
Lemma strip_brace_tooltip (t : TermMatch) (rest : text) :
  forallb not_bar (term t) = true ->
  forallb not_close (definition t) = true ->
  strip_markup ("{"%char :: tooltip t ++ rest) = "{"%char :: term t ++ strip_markup rest.
Proof.
  intros Hbar Hclose. unfold strip_markup, Re.sub.
  rewrite (@sub_from_match markup_at (fun _ _ _ => eq_refl) _
             ("{"%char :: term t) (S (length (tooltip t)))).
  - simpl skipn. now rewrite skipn_length_app.
  - rewrite tooltip_shape.
    transitivity (Some ("{"%char :: term t,
                        length ("{"%char :: term t) + length (definition t) + 6)).
    + apply (@markup_at_shape ("{"%char :: term t) (definition t) rest None);
        [discriminate|assumption..].
    + f_equal. f_equal.
      rewrite <- (app_nil_r (tooltip t)) at 1. rewrite tooltip_shape.
      cbn [length]. repeat (rewrite length_app; cbn [length]). lia.
  - lia.
  - discriminate.
Qed.

(** A text without an opening pair, followed by a tooltip: the text is
    copied and the tooltip replaced by its term. *)
Lemma strip_before_tooltip (seg : text) (t : TermMatch) (rest : text) :
  plain_text seg = true ->
  term t <> [] ->
  forallb not_bar (term t) = true ->
  forallb not_close (definition t) = true ->
  strip_markup (seg ++ tooltip t ++ rest) = seg ++ term t ++ strip_markup rest.
Proof.
  intros Hseg Hne Hbar Hclose.
  induction seg as [|c seg IH]; [now apply strip_tooltip|].
  rewrite <- !app_comm_cons.
  destruct (not_open c) eqn:E.
  - rewrite sub_markup_step by now apply markup_at_plain.
    rewrite IH; [reflexivity|now apply plain_tail with c].
  - apply not_open_false in E. subst c.
    destruct seg as [|c' seg]; [now apply strip_brace_tooltip|].
    rewrite sub_markup_step.
    + rewrite IH; [reflexivity|now apply plain_tail with "{"%char].
    + rewrite <- app_comm_cons. apply markup_at_single.
      now apply plain_second with seg.
Qed.

End Strip.

(** ** The round trip *)

Section RoundTrip.

Lemma slice_join (T : text) (p e q : nat) :
  p <= e -> e <= q ->
  Py.slice T p e ++ Py.slice T e q ++ skipn q T = skipn p T.
Proof.
  intros Hpe Heq. unfold Py.slice.
  assert (Hq : skipn q T = skipn (q - e) (skipn e T))
    by (rewrite skipn_skipn; f_equal; lia).
  rewrite Hq, firstn_skipn.
  assert (He : skipn e T = skipn (e - p) (skipn p T))
    by (rewrite skipn_skipn; f_equal; lia).
  rewrite He. apply firstn_skipn.
Qed.

(** Rendering a match that ends within the first [q] characters of the
    text leaves the characters after them alone. *)
Lemma render_one_prefix (T S : text) (q : nat) (m : TermMatch) :
  position m <= end_position m -> end_position m <= q -> q <= length T ->
  render_one (firstn q T ++ S) m =
    firstn (position m) T ++ tooltip m ++ Py.slice T (end_position m) q ++ S.
Proof.
  intros Hpe Heq Hq. unfold render_one.
  assert (Hl : length (firstn q T) = q) by (rewrite length_firstn; lia).
  rewrite firstn_app, skipn_app, Hl, firstn_firstn, skipn_firstn_comm.
  replace (position m - q) with 0 by lia.
  replace (end_position m - q) with 0 by lia.
  replace (Nat.min (position m) q) with (position m) by lia.
  simpl. rewrite app_nil_r. unfold Py.slice.
  now rewrite <- !app_assoc.
Qed.

(** Rendering from the end keeps the text strippable: after each turn the
    text is an untouched prefix of the original followed by a part that,
    after any text that opens no markup, strips to the rest of the
    original. *)
Lemma render_strips (T : text) (ts : list TermMatch) :
  plain_text T = true ->
  StronglySorted (fun a b => precedes b a) ts ->
  Forall (strippable_match T) ts ->
  forall q S,
    q <= length T ->
    Forall (fun m => end_position m <= q) ts ->
    (forall seg, plain_text (seg ++ skipn q T) = true ->
                 strip_markup (seg ++ S) = seg ++ skipn q T) ->
    strip_markup (render ts (firstn q T ++ S)) = T.
Proof.
  intros Hplain Hsorted. induction Hsorted as [|m ts Hs IH Hm]; intros Hok q S Hq Hend HS.
  - simpl. rewrite HS by now rewrite firstn_skipn. apply firstn_skipn.
  - inversion Hok as [|? ? [Hterm [[Hlt Hlen] [Hbar Hclose]]] Hok']; subst.
    inversion Hend as [|? ? Hmq Hend']; subst.
    unfold render. simpl fold_left. fold (render ts).
    rewrite render_one_prefix by lia.
    apply IH; [exact Hok'|lia|exact Hm|].
    intros seg Hseg.
    assert (Hjoin : Py.slice T (end_position m) q ++ skipn q T = skipn (end_position m) T).
    { unfold Py.slice.
      replace (skipn q T) with (skipn (q - end_position m) (skipn (end_position m) T))
        by (rewrite skipn_skipn; f_equal; lia).
      apply firstn_skipn. }
    rewrite strip_before_tooltip;
      [|now apply plain_app_l with (skipn (position m) T)
       |intros E; rewrite Hterm in E;
        apply (f_equal (@length ascii)) in E; unfold Py.slice in E;
        rewrite length_firstn, length_skipn in E; simpl in E; lia
       |assumption..].
    rewrite HS.
    + rewrite Hterm. f_equal. apply slice_join; lia.
    + rewrite Hjoin. apply plain_app_r with (firstn (end_position m) T).
      now rewrite firstn_skipn.
Qed.

Lemma sorted_irreflexive_nodup (A : Type) (R : A -> A -> Prop) (l : list A) :
  StronglySorted R l -> (forall x, In x l -> ~ R x x) -> NoDup l.
Proof.
  induction 1 as [|x l Hs IH Hx]; intros Hirr; constructor.
  - intros Hin. rewrite Forall_forall in Hx.
    apply (Hirr x); [now left|now apply Hx].
  - apply IH. intros y Hy. apply Hirr. now right.
Qed.

Lemma nodup_firstn (A : Type) (n : nat) (l : list A) : NoDup l -> NoDup (firstn n l).
Proof.
  intros H. revert n. induction H as [|x l Hx Hl IH]; intros [|n]; simpl;
    try constructor.
  - intros Hin. apply Hx. now apply firstn_in with n.
  - apply IH.
Qed.

Lemma sorted_either (A : Type) (R : A -> A -> Prop) (l : list A) (a b : A) :
  StronglySorted R l -> In a l -> In b l -> a <> b -> R a b \/ R b a.
Proof.
  intros Hs Ha Hb Hab.
  apply In_nth_error in Ha. destruct Ha as [i Ha].
  apply In_nth_error in Hb. destruct Hb as [j Hb].
  destruct (Nat.lt_total i j) as [Hlt|[Heq|Hgt]].
  - left. exact (sorted_nth Hs Hlt Ha Hb).
  - subst j. congruence.
  - right. exact (sorted_nth Hs Hgt Hb Ha).
Qed.

Lemma lower_bar (c : ascii) : Py.lower_char c = "|"%char -> c = "|"%char.
Proof.
  each_char c; vm_compute; congruence.
Qed.

(** Text matched without regard to case by a pattern without a bar has no
    bar. *)
Lemma prefix_ci_no_bar (pat s : text) :
  Re.prefix_ci (Py.lower pat) s = true ->
  forallb not_bar pat = true ->
  forallb not_bar (firstn (length pat) s) = true.
Proof.
  revert s; induction pat as [|a pat IH]; intros [|c s] Hp Hb; simpl in *;
    try reflexivity; try discriminate.
  apply andb_true_iff in Hp. destruct Hp as [Hc Hp].
  apply andb_true_iff in Hb. destruct Hb as [Ha Hb].
  rewrite (IH s Hp Hb), andb_true_r.
  unfold not_bar in *. apply Ascii.eqb_eq in Hc.
  destruct (Ascii.eqb_spec c "|") as [->|]; [|reflexivity].
  symmetry in Hc. apply lower_bar, lower_bar in Hc. subst a. discriminate Ha.
Qed.

Lemma match_strippable (T : text) (G : list GlossaryEntry) (m : TermMatch) :
  strippable_glossary G = true -> match_of T G m -> strippable_match T m.
Proof.
  intros HG [e [He [Hdef [Hterm [Hend [Hlen Hp]]]]]].
  unfold strippable_glossary in HG. rewrite forallb_forall in HG.
  specialize (HG e He). unfold strippable_entry in HG.
  apply andb_true_iff in HG. destruct HG as [HG Hclose].
  apply andb_true_iff in HG. destruct HG as [Hne Hbar].
  assert (Hpos : 0 < length (clinical_term e))
    by (destruct (clinical_term e); [discriminate|simpl; lia]).
  repeat split; try assumption; try lia.
  - rewrite Hterm. unfold Py.slice.
    replace (end_position m - position m) with (length (clinical_term e)) by lia.
    now apply prefix_ci_no_bar.
  - now rewrite Hdef.
Qed.

(** The selected matches, last position first, each ending where or before
    the one rendered before it starts. *)
Lemma top_terms_chain (T : text) (G : list GlossaryEntry) (n : Z) :
  strippable_glossary G = true ->
  Forall (strippable_match T) (top_terms T G n)
  /\ StronglySorted (fun a b => precedes b a) (top_terms T G n).
Proof.
  intros HG.
  assert (Hall : forall m, In m (find_technical_terms T G) -> strippable_match T m)
    by (intros m Hm; apply match_strippable with G; [exact HG|now apply matches_spec]).
  assert (Hok : Forall (strippable_match T) (top_terms T G n))
    by (apply Forall_forall; intros m Hm; now apply Hall, top_terms_in with n).
  split; [exact Hok|].
  assert (Hnd : NoDup (top_terms T G n)).
  { unfold top_terms.
    apply (Permutation_NoDup (Permutation_sym (sort_perm _ _))).
    unfold Py.take. destruct (n <? 0)%Z; apply nodup_firstn;
      apply (Permutation_NoDup (Permutation_sym (sort_perm _ _)));
      apply (sorted_irreflexive_nodup (matches_ordered T G));
      intros x Hx; destruct (Hall x Hx) as [_ [[Hlt _] _]];
      unfold precedes; lia. }
  assert (Hdesc : StronglySorted (fun a b => position b <= position a) (top_terms T G n)).
  { unfold top_terms. apply sort_sorted.
    - intros a b c. lia.
    - intros y x H. apply Nat.ltb_lt in H. lia.
    - intros y x H. apply Nat.ltb_ge in H. exact H. }
  assert (Hin : forall m, In m (top_terms T G n) -> In m (find_technical_terms T G))
    by (intros m; apply top_terms_in).
  revert Hok Hnd Hin. induction Hdesc as [|a l Hs IH Ha]; intros Hok Hnd Hin;
    constructor.
  - inversion Hok; inversion Hnd; subst. apply IH; try assumption.
    intros m Hm. apply Hin. now right.
  - inversion Hnd as [|? ? Hna Hnd']; subst.
    inversion Hok as [|? ? [_ [[Hlt _] _]] _]; subst.
    apply Forall_forall. intros b Hb.
    rewrite Forall_forall in Ha. specialize (Ha b Hb).
    assert (Hab : a <> b) by (intros ->; contradiction).
    destruct (sorted_either (matches_ordered T G)
                (Hin a (or_introl eq_refl)) (Hin b (or_intror Hb)) Hab) as [H|H].
    + unfold precedes in H. lia.
    + exact H.
Qed.

End RoundTrip.

(** C1, as stated: a definition with a closing brace in it makes markup
    that the stripping pattern does not recognise; the stripped text is the
    annotated text, not the original, with or without the white space
    around it, and the validator rejects the injection. *)
Lemma brace_in_definition_breaks_round_trip :
  let T := txt "The amygdala reacts." in
  let G := [entry "amygdala" "alarm {fear} center"] in
  let annotated := fst (inject_tooltips T G 5) in
  annotated = txt "The {{amygdala||alarm {fear} center}} reacts."
  /\ strip_markup annotated = annotated
  /\ Py.eqb (Py.strip (strip_markup annotated)) (Py.strip T) = false
  /\ validate_tooltip_injection T annotated = (false, Original_content_altered).
Proof.
  repeat split; vm_compute; reflexivity.
Qed.

(** C1, amended: when the text has no opening brace and every glossary
    entry has a non-empty term without a bar and a definition without a
    closing brace, replacing each markup span of the injected text by its
    term gives back the text exactly, for every bound on the number of
    tooltips; the validator's third check passes. *)
Theorem round_trip (T : text) (G : list GlossaryEntry) (n : Z) :
  plain_text T = true ->
  strippable_glossary G = true ->
  strip_markup (fst (inject_tooltips T G n)) = T
  /\ content_preserved T (fst (inject_tooltips T G n)) = true.
Proof.
  intros HT HG.
  assert (H : strip_markup (fst (inject_tooltips T G n)) = T).
  { rewrite inject_tooltips_eq. simpl.
    destruct (@top_terms_chain T G n HG) as [Hok Hsorted].
    replace (render (top_terms T G n) T)
      with (render (top_terms T G n) (firstn (length T) T ++ []))
      by now rewrite app_nil_r, firstn_all.
    apply render_strips; try assumption.
    - lia.
    - apply Forall_forall. intros m Hm. rewrite Forall_forall in Hok.
      destruct (Hok m Hm) as [_ [[_ Hlen] _]]. exact Hlen.
    - intros seg Hseg. rewrite skipn_all, app_nil_r in *. now apply strip_plain. }
  split; [exact H|].
  unfold content_preserved. rewrite H.
  apply orb_true_iff. left. now apply py_eqb_eq.
Qed.

(** A text with single braces and bars, and definitions with an opening
    brace and a bar. *)
Lemma round_trip_witness :
  let T := txt "Call f{x} or the amygdala | cortex." in
  let G := [entry "amygdala" "alarm {a"; entry "cortex" "outer | layer"] in
  strip_markup (fst (inject_tooltips T G 5)) = T
  /\ content_preserved T (fst (inject_tooltips T G 5)) = true.
Proof.
  intros T G.
  apply (@round_trip T G 5); vm_compute; reflexivity.
Defined.

(** The other conditions of the amended round trip are needed as well: an
    opening pair already in the text, a bar in a term and an empty term
    each make the stripped text differ from the original. *)
Lemma round_trip_conditions_needed :
  strip_markup (fst (inject_tooltips (txt "See {{x}} and the amygdala.")
                                     [entry "amygdala" "alarm"] 5))
    = txt "See x}} and the {{amygdala."
  /\ strip_markup (fst (inject_tooltips (txt "The fight|flight response.")
                                        [entry "fight|flight" "stress reaction"] 5))
    = txt "The fight response."
  /\ strip_markup (fst (inject_tooltips (txt "The amygdala.") [entry "" "nothing"] 5))
    = txt "{{||nothing}}The{{||nothing}} {{||nothing}}amygdala{{||nothing}}.".
Proof.
  repeat split; vm_compute; reflexivity.
Qed.

(** * Further properties of the code *)

Import Shape.

(** ** The analyzer: what it counts *)

Section Analyzer.

Lemma take_while_prefix (p : ascii -> bool) (s : text) :
  firstn (length (Py.take_while p s)) s = Py.take_while p s.
Proof.
  induction s as [|c s IH]; simpl; [reflexivity|].
  destruct (p c); simpl; [now rewrite IH|reflexivity].
Qed.

Lemma take_while_all (p : ascii -> bool) (s : text) :
  forallb p (Py.take_while p s) = true.
Proof.
  induction s as [|c s IH]; simpl; [reflexivity|].
  destruct (p c) eqn:E; simpl; [now rewrite E|reflexivity].
Qed.

Lemma take_while_length (p : ascii -> bool) (s : text) :
  length (Py.take_while p s) <= length s.
Proof.
  induction s as [|c s IH]; simpl; [lia|].
  destruct (p c); simpl; lia.
Qed.

(** A match of the word pattern is a non-empty run of letters. *)
Lemma word_at_some (prev : option ascii) (s : text) (n : nat) :
  word_at prev s = Some n ->
  firstn n s <> [] /\ forallb Py.is_letter (firstn n s) = true.
Proof.
  unfold word_at.
  pose proof (take_while_prefix Py.is_letter s) as Hp.
  pose proof (take_while_all Py.is_letter s) as Ha.
  destruct (Py.take_while Py.is_letter s) as [|c g] eqn:E; [discriminate|].
  destruct (_ && _); [|discriminate].
  intros H. injection H as <-.
  change (S (length g)) with (length (c :: g)).
  rewrite Hp. split; [discriminate|exact Ha].
Qed.

Lemma findall_word (t w : text) :
  In w (Re.findall word_at t) -> w <> [] /\ forallb Py.is_letter w = true.
Proof.
  unfold Re.findall, Re.finditer. intros H.
  apply in_map_iff in H. destruct H as [[a b] [<- H]].
  destruct (finditer_from_spec _ _ _ _ _ _ _ H) as [k [prev' [Ha [_ [Hm _]]]]].
  simpl in Ha. subst a. simpl. unfold Py.slice.
  now apply word_at_some with prev'.
Qed.

Lemma letter_lower_az (c : ascii) : Py.is_letter c = true -> Py.is_az (Py.lower_char c) = true.
Proof.
  each_char c; vm_compute; congruence.
Qed.

(** A word that starts with a letter has at least one syllable. *)
Lemma count_syllables_positive (w : text) :
  w <> [] -> forallb Py.is_letter w = true -> 1 <= count_syllables w.
Proof.
  intros Hne Hl. unfold count_syllables, Re.sub.
  rewrite sub_non_az, filter_strip.
  destruct w as [|c w]; [contradiction|].
  simpl in Hl. apply andb_true_iff in Hl. destruct Hl as [Hc _].
  destruct (filter Py.is_az (Py.lower (c :: w))) as [|a r] eqn:E; [|lia].
  unfold Py.lower in E. cbn [map filter] in E.
  rewrite (letter_lower_az c Hc) in E. discriminate E.
Qed.

Lemma syllables_at_least_words (ws : list text) :
  (forall w, In w ws -> 1 <= count_syllables w) ->
  length ws <= list_sum (map count_syllables ws).
Proof.
  induction ws as [|w ws IH]; intros H; simpl; [lia|].
  pose proof (H w (or_introl eq_refl)).
  assert (length ws <= list_sum (map count_syllables ws))
    by (apply IH; intros; apply H; now right).
  lia.
Qed.

Lemma sub_italic (s : text) :
  forall p, Re.sub_from italic_at p 0 s = filter not_star s.
Proof.
  induction s as [|c s IH]; intros p; [reflexivity|].
  cbn [Re.sub_from]. unfold italic_at at 1.
  change (txt "*") with ["*"%char]. cbn [Py.startswith]. rewrite andb_true_r.
  cbn [filter]. unfold not_star at 1. rewrite (Ascii.eqb_sym "*" c).
  destruct (Ascii.eqb c "*"); simpl; now rewrite IH.
Qed.

(** Removing the pairs of asterisks first does not matter to what is
    left once every asterisk is removed. *)
Lemma sub_bold_filter (s : text) :
  forall p,
    filter not_star (Re.sub_from bold_at p 0 s) = filter not_star s
    /\ filter not_star (Re.sub_from bold_at p 1 s) = filter not_star (tl s).
Proof.
  induction s as [|c s IH]; intros p; [split; reflexivity|].
  split; [|apply (IH (Some c))].
  cbn [Re.sub_from]. unfold bold_at at 1.
  change (txt "**") with ["*"%char; "*"%char].
  destruct (Py.startswith ["*"%char; "*"%char] (c :: s)) eqn:E.
  - destruct s as [|d s]; [simpl in E; now rewrite andb_false_r in E|].
    cbn [Py.startswith] in E. rewrite andb_true_r in E.
    apply andb_true_iff in E. destruct E as [Ec Ed].
    apply Ascii.eqb_eq in Ec, Ed. subst c d.
    cbn [pred app]. rewrite (proj2 (IH (Some "*"%char))). reflexivity.
  - cbn [filter]. rewrite (proj1 (IH (Some c))). reflexivity.
Qed.

Lemma strip_emphasis (t : text) :
  Re.sub italic_at (Re.sub bold_at t) = filter not_star t.
Proof.
  unfold Re.sub at 1. rewrite sub_italic. apply (sub_bold_filter t None).
Qed.

Lemma filter_twice (p : ascii -> bool) (t : text) : filter p (filter p t) = filter p t.
Proof.
  induction t as [|c t IH]; simpl; [reflexivity|].
  destruct (p c) eqn:E; simpl; [rewrite E; now f_equal|exact IH].
Qed.

Lemma analyze_without_asterisks (t : text) :
  analyze_text_complexity t = analyze_text_complexity (filter not_star t).
Proof.
  unfold analyze_text_complexity. cbv zeta.
  now rewrite !strip_emphasis, filter_twice.
Qed.

End Analyzer.

(** X1: in every result of the analyzer the sentence count is at least 1
    and the syllable count is at least the word count: each word the word
    pattern finds starts with a letter and is counted with one syllable or
    more. *)
Theorem analyzer_counts (t : text) :
  let '(word_count, sentence_count, syllable_count) := analyze_text_complexity t in
  1 <= sentence_count /\ word_count <= syllable_count.
Proof.
  unfold analyze_text_complexity. cbv zeta. split.
  - unfold count_sentences. lia.
  - apply syllables_at_least_words. intros w Hw.
    apply findall_word in Hw. now apply count_syllables_positive.
Qed.

(** X2: asterisks never count: the analyzer returns for a text what it
    returns for the text with every asterisk deleted (the pairs of bold
    markers and the single ones alike), and so does the grade level. *)
Theorem asterisks_are_ignored (t : text) :
  analyze_text_complexity t = analyze_text_complexity (filter not_star t)
  /\ grade_level t = grade_level (filter not_star t).
Proof.
  split; [apply analyze_without_asterisks|].
  unfold grade_level. rewrite <- analyze_without_asterisks.
  destruct (analyze_text_complexity t) as [[w s] y]. reflexivity.
Qed.

(** ** The matcher: what a match is, and which candidate is kept *)

Section Matcher.

(** The scan hands the pattern the character before each position. *)
Lemma finditer_from_prev (m : option ascii -> text -> option nat) (s : text) :
  forall prev i skip a b,
    In (a, b) (Re.finditer_from m prev i skip s) ->
    exists k,
      a = i + k /\ k <= length s /\ a <= b
      /\ m (match k with O => prev | S j => nth_error s j end) (skipn k s) = Some (b - a).
Proof.
  induction s as [|c s IH]; intros prev i skip a b H; simpl in H.
  - destruct skip; [|contradiction].
    destruct (m prev []) as [n|] eqn:E; [|contradiction].
    destruct H as [H|[]]. injection H as <- <-.
    exists 0. simpl. repeat split; try lia.
    rewrite E. f_equal. lia.
  - assert (Hrec : forall skip',
               In (a, b) (Re.finditer_from m (Some c) (S i) skip' s) ->
               exists k,
                 a = i + k /\ k <= length (c :: s) /\ a <= b
                 /\ m (match k with O => prev | S j => nth_error (c :: s) j end)
                      (skipn k (c :: s)) = Some (b - a)).
    { intros skip' H'. destruct (IH _ _ _ _ _ H') as [k [Ha [Hk [Hab Hm]]]].
      exists (S k). simpl. repeat split; try lia.
      destruct k; exact Hm. }
    destruct skip as [|skip]; [|now apply Hrec with skip].
    destruct (m prev (c :: s)) as [n|] eqn:E; [|now apply Hrec with 0].
    destruct H as [H|H]; [|now apply Hrec with (pred n)].
    injection H as <- <-. exists 0. simpl. repeat split; try lia.
    rewrite E. f_equal. lia.
Qed.

Lemma hd_skipn (T : text) (a : nat) : hd_error (skipn a T) = nth_error T a.
Proof.
  revert a; induction T as [|c T IH]; intros [|a]; simpl; try reflexivity. apply IH.
Qed.

Lemma nth_skipn (T : text) (a k : nat) : nth_error (skipn a T) k = nth_error T (a + k).
Proof.
  revert a; induction T as [|c T IH]; intros [|a]; simpl; try reflexivity.
  - now destruct k.
  - apply IH.
Qed.

Lemma lower_char_twice (c : ascii) : Py.lower_char (Py.lower_char c) = Py.lower_char c.
Proof.
  each_char c; vm_compute; reflexivity.
Qed.

(** Text matched without regard to case is the pattern up to case. *)
Lemma prefix_ci_lower (pat s : text) :
  Re.prefix_ci (Py.lower pat) s = true ->
  Py.lower (firstn (length pat) s) = Py.lower pat.
Proof.
  revert s; induction pat as [|a pat IH]; intros [|c s] H; simpl in *;
    try reflexivity; try discriminate.
  apply andb_true_iff in H. destruct H as [Hc H].
  apply Ascii.eqb_eq in Hc. rewrite lower_char_twice in Hc.
  rewrite Hc. f_equal. now apply IH.
Qed.

(** What the pattern of a term guarantees at a position of the text. *)
Lemma term_at_boundaries (cl : text) (T : text) (a n : nat) :
  term_at cl (char_before T a) (skipn a T) = Some n ->
  n = length cl
  /\ Re.prefix_ci cl (skipn a T) = true
  /\ Re.boundary (char_before T a) (nth_error T a) = true
  /\ Re.boundary (char_before T (a + n)) (nth_error T (a + n)) = true.
Proof.
  unfold term_at. rewrite hd_skipn.
  destruct (Re.boundary (char_before T a) (nth_error T a)) eqn:B1; [|discriminate].
  destruct (Re.prefix_ci cl (skipn a T)); [|discriminate].
  cbn [andb].
  destruct (Re.boundary _ (nth_error (skipn a T) (length cl))) eqn:B2; [|discriminate].
  intros H. injection H as <-. repeat split.
  rewrite nth_skipn in B2.
  destruct (length cl) as [|k].
  - now rewrite Nat.add_0_r in *.
  - rewrite nth_skipn in B2.
    replace (char_before T (a + S k)) with (nth_error T (a + k)); [exact B2|].
    now replace (a + S k) with (S (a + k)) by lia.
Qed.

Lemma entry_match_sound (T : text) (e : GlossaryEntry) (m : TermMatch) :
  In m (entry_matches T e) ->
  definition m = entry_definition e
  /\ term_category m = entry_category e
  /\ term m = Py.slice T (position m) (end_position m)
  /\ end_position m = position m + length (clinical_term e)
  /\ end_position m <= length T
  /\ Py.lower (term m) = Py.lower (clinical_term e)
  /\ Re.boundary (char_before T (position m)) (nth_error T (position m)) = true
  /\ Re.boundary (char_before T (end_position m)) (nth_error T (end_position m)) = true.
Proof.
  intros Hm. unfold entry_matches in Hm.
  apply in_map_iff in Hm. destruct Hm as [[a b] [<- Hspan]].
  unfold Re.finditer in Hspan.
  destruct (finditer_from_prev _ _ _ _ _ _ _ Hspan) as [k [Ha [Hk [Hab Hm]]]].
  simpl in Ha. subst a. cbn [term position end_position definition term_category fst snd].
  change (match k with O => None | S j => nth_error T j end) with (char_before T k) in Hm.
  apply term_at_boundaries in Hm. destruct Hm as [Hn [Hp [B1 B2]]].
  unfold Py.lower in Hn. rewrite length_map in Hn.
  pose proof (prefix_ci_length _ _ Hp) as Hl.
  unfold Py.lower in Hl. rewrite length_map, length_skipn in Hl.
  assert (Hb : b = k + length (clinical_term e)) by lia.
  repeat split; try reflexivity; try lia.
  - unfold Py.slice. replace (b - k) with (length (clinical_term e)) by lia.
    now apply prefix_ci_lower.
  - exact B1.
  - now replace b with (k + (b - k)) by lia.
Qed.

Lemma candidate_of (T : text) (G : list GlossaryEntry) (m : TermMatch) :
  In m (find_technical_terms T G) -> exists e, In e G /\ In m (entry_matches T e).
Proof.
  unfold find_technical_terms. intros H.
  apply keep_first_subset in H. destruct H as [[]|H].
  apply sort_in in H. apply in_flat_map in H. destruct H as [e [He Hm]].
  apply sort_in in He. now exists e.
Qed.

(** *** Which candidate is kept *)

Lemma sorted_app (A : Type) (R : A -> A -> Prop) (l1 l2 : list A) :
  StronglySorted R l1 -> StronglySorted R l2 ->
  (forall a b, In a l1 -> In b l2 -> R a b) ->
  StronglySorted R (l1 ++ l2).
Proof.
  induction 1 as [|x l1 Hs IH Hx]; intros H2 Hc; simpl; [exact H2|].
  constructor.
  - apply IH; [exact H2|]. intros a b Ha Hb. apply Hc; [now right|exact Hb].
  - apply Forall_app. split; [exact Hx|].
    apply Forall_forall. intros b Hb. apply Hc; [now left|exact Hb].
Qed.

Lemma sorted_all_related (A : Type) (R : A -> A -> Prop) (l : list A) :
  (forall a b, In a l -> In b l -> R a b) -> StronglySorted R l.
Proof.
  induction l as [|x l IH]; intros H; constructor.
  - apply IH. intros a b Ha Hb. apply H; now right.
  - apply Forall_forall. intros b Hb. apply H; [now left|now right].
Qed.

Lemma flat_map_sorted (A B : Type) (Rg : A -> A -> Prop) (R : B -> B -> Prop)
    (f : A -> list B) (l : list A) :
  StronglySorted Rg l ->
  (forall e, StronglySorted R (f e)) ->
  (forall e1 e2 a b, Rg e1 e2 -> In a (f e1) -> In b (f e2) -> R a b) ->
  StronglySorted R (flat_map f l).
Proof.
  intros Hl Hf Hc. induction Hl as [|e l Hs IH He]; simpl; [constructor|].
  apply sorted_app; [apply Hf|exact IH|].
  intros a b Ha Hb. apply in_flat_map in Hb. destruct Hb as [e2 [He2 Hb]].
  rewrite Forall_forall in He. apply (Hc e e2); auto.
Qed.

(** The candidates, as the loop over the sorted glossary collects them:
    longer ones first. *)
Lemma candidates_longest_first (T : text) (G : list GlossaryEntry) :
  StronglySorted longer
    (flat_map (entry_matches T)
       (Py.sort (fun y x => length (clinical_term x) <? length (clinical_term y)) G)).
Proof.
  apply flat_map_sorted
    with (Rg := fun a b => length (clinical_term b) <= length (clinical_term a)).
  - apply sort_sorted.
    + intros a b c. lia.
    + intros y x H. apply Nat.ltb_lt in H. lia.
    + intros y x H. apply Nat.ltb_ge in H. exact H.
  - intros e. apply sorted_all_related. intros a b Ha Hb.
    apply entry_match_sound in Ha, Hb. unfold longer. lia.
  - intros e1 e2 a b He Ha Hb.
    apply entry_match_sound in Ha, Hb. unfold longer. lia.
Qed.

Lemma wins_over_trans (a b c : TermMatch) : wins_over a b -> wins_over b c -> wins_over a c.
Proof.
  unfold wins_over. lia.
Qed.

(** The sort by position is stable: among candidates that start at the
    same offset the longer ones stay first. *)
Lemma insert_by_position (x : TermMatch) (l : list TermMatch) :
  StronglySorted wins_over l ->
  Forall (longer x) l ->
  StronglySorted wins_over (Py.insert (fun y x => position y <? position x) x l).
Proof.
  induction 1 as [|y l Hs IH Hy]; intros Hx; simpl.
  - constructor; constructor.
  - inversion Hx as [|? ? Hxy Hxl]; subst.
    destruct (position y <? position x) eqn:E.
    + apply Nat.ltb_lt in E. constructor; [now apply IH|].
      apply Forall_forall. intros z Hz.
      apply (Permutation_in _ (insert_perm _ x l)) in Hz.
      destruct Hz as [<-|Hz]; [left; exact E|].
      rewrite Forall_forall in Hy. now apply Hy.
    + apply Nat.ltb_ge in E.
      assert (Hw : wins_over x y) by (unfold wins_over, longer in *; lia).
      constructor; [now constructor|].
      constructor; [exact Hw|].
      apply Forall_forall. intros z Hz.
      apply wins_over_trans with y; [exact Hw|].
      rewrite Forall_forall in Hy. now apply Hy.
Qed.

Lemma sort_by_position (l : list TermMatch) :
  StronglySorted longer l ->
  StronglySorted wins_over (Py.sort (fun y x => position y <? position x) l).
Proof.
  induction 1 as [|x l Hs IH Hx]; simpl; [constructor|].
  apply insert_by_position; [exact IH|].
  apply Forall_forall. intros y Hy. apply sort_in in Hy.
  rewrite Forall_forall in Hx. now apply Hx.
Qed.

Lemma keep_first_mono (l : list TermMatch) :
  forall seen uniq x,
    In x uniq -> In x (snd (fold_left keep_first l (seen, uniq))).
Proof.
  induction l as [|t l IH]; intros seen uniq x Hx; simpl; [exact Hx|].
  destruct (overlaps seen t); apply IH; [exact Hx|].
  apply in_or_app. now left.
Qed.

(** A candidate is kept, or it fails the overlap test against a kept
    match that was swept before it. *)
Lemma keep_first_priority (l : list TermMatch) :
  StronglySorted wins_over l ->
  forall uniq,
    (forall u t, In u uniq -> In t l -> wins_over u t) ->
    forall c, In c l ->
      In c (snd (fold_left keep_first l (map range_of uniq, uniq)))
      \/ exists k,
           In k (snd (fold_left keep_first l (map range_of uniq, uniq)))
           /\ overlaps [range_of k] c = true /\ wins_over k c.
Proof.
  induction 1 as [|t l Hs IH Ht]; intros uniq Hw c Hc; [contradiction|].
  simpl fold_left. unfold keep_first at 2.
  destruct (overlaps (map range_of uniq) t) eqn:Ho.
  - destruct Hc as [<-|Hc].
    + right. unfold overlaps in Ho. apply existsb_exists in Ho.
      destruct Ho as [r [Hr Htest]].
      apply in_map_iff in Hr. destruct Hr as [k [<- Hk]].
      exists k. repeat split.
      * now apply keep_first_mono.
      * unfold overlaps. cbn [existsb]. now rewrite orb_false_r.
      * apply Hw; [exact Hk|now left].
    + apply IH; [|exact Hc]. intros u t' Hu Ht'. apply Hw; [exact Hu|now right].
  - change (map range_of uniq ++ [(position t, end_position t)])
      with (map range_of uniq ++ map range_of [t]).
    rewrite <- map_app.
    destruct Hc as [<-|Hc].
    + left. apply keep_first_mono. apply in_or_app. right. now left.
    + apply IH; [|exact Hc]. intros u t' Hu Ht'.
      apply in_app_or in Hu. destruct Hu as [Hu|[<-|[]]].
      * apply Hw; [exact Hu|now right].
      * rewrite Forall_forall in Ht. now apply Ht.
Qed.

Lemma overlap_shares (k c : TermMatch) :
  position c < end_position c ->
  overlaps [range_of k] c = true -> share_offset k c.
Proof.
  unfold overlaps, range_of, share_offset. cbn [existsb]. rewrite orb_false_r.
  intros Hc H. apply orb_true_iff in H.
  destruct H as [H|H]; apply andb_true_iff in H; destruct H as [H1 H2].
  - apply Nat.leb_le in H1. apply Nat.ltb_lt in H2. exists (position c). lia.
  - apply Nat.ltb_lt in H1. apply Nat.leb_le in H2. exists (end_position c - 1). lia.
Qed.

End Matcher.

(** X3: for a text and glossary terms in the ASCII range, every match the
    matcher returns is an occurrence of a glossary term between two word
    boundaries, found without regard to case: it lies inside the text and
    spans the length of the entry's term, carries the text it spans (equal
    to the entry's term up to case), the definition and the category of the
    entry, and has a word boundary at both of its ends.  So a match that
    starts with a word character is not preceded by one, and a match that
    ends with a word character is not followed by one; a term that ends
    with another character, like "c++", can be matched in front of a
    letter. *)
Theorem matches_are_whole_word_occurrences
    (T : text) (G : list GlossaryEntry) (m : TermMatch) :
  ascii_text T = true ->
  ascii_glossary G = true ->
  In m (find_technical_terms T G) ->
  exists e,
    In e G
    /\ definition m = entry_definition e
    /\ term_category m = entry_category e
    /\ term m = Py.slice T (position m) (end_position m)
    /\ end_position m = position m + length (clinical_term e)
    /\ end_position m <= length T
    /\ Py.lower (term m) = Py.lower (clinical_term e)
    /\ Re.boundary (char_before T (position m)) (nth_error T (position m)) = true
    /\ Re.boundary (char_before T (end_position m)) (nth_error T (end_position m)) = true
    /\ (Re.wordb (nth_error T (position m)) = true ->
        Re.wordb (char_before T (position m)) = false)
    /\ (Re.wordb (char_before T (end_position m)) = true ->
        Re.wordb (nth_error T (end_position m)) = false).
Proof.
  intros _ _ H. apply candidate_of in H. destruct H as [e [He Hm]].
  exists e. split; [exact He|].
  destruct (entry_match_sound _ _ _ Hm) as [H1 [H2 [H3 [H4 [H5 [H6 [B1 B2]]]]]]].
  repeat split; try assumption.
  - unfold Re.boundary in B1. intros Hw. rewrite Hw in B1.
    now destruct (Re.wordb (char_before T (position m))).
  - unfold Re.boundary in B2. intros Hw. rewrite Hw in B2.
    now destruct (Re.wordb (nth_error T (end_position m))).
Qed.

(** "Cortex" at the start of a sentence is matched by the entry "cortex",
    the "cortex" inside "neocortex" is not; and "c++" is matched in front
    of the letter of "c++x". *)
Lemma matches_are_whole_word_occurrences_witness :
  let T := txt "Cortex and neocortex." in
  let G := [entry "cortex" "outer layer"] in
  let m := {| term := txt "Cortex"; position := 0; end_position := 6;
              definition := txt "outer layer"; term_category := txt "general" |} in
  find_technical_terms T G = [m]
  /\ map (fun k => (position k, end_position k))
         (find_technical_terms (txt "we wrote in c++x") [entry "c++" "a language"])
     = [(12, 15)]
  /\ exists e,
       In e G
       /\ definition m = entry_definition e
       /\ term_category m = entry_category e
       /\ term m = Py.slice T (position m) (end_position m)
       /\ end_position m = position m + length (clinical_term e)
       /\ end_position m <= length T
       /\ Py.lower (term m) = Py.lower (clinical_term e)
       /\ Re.boundary (char_before T (position m)) (nth_error T (position m)) = true
       /\ Re.boundary (char_before T (end_position m)) (nth_error T (end_position m)) = true
       /\ (Re.wordb (nth_error T (position m)) = true ->
           Re.wordb (char_before T (position m)) = false)
       /\ (Re.wordb (char_before T (end_position m)) = true ->
           Re.wordb (nth_error T (end_position m)) = false).
Proof.
  intros T G m. split; [vm_compute; reflexivity|]. split; [vm_compute; reflexivity|].
  apply (@matches_are_whole_word_occurrences T G m).
  - vm_compute. reflexivity.
  - vm_compute. reflexivity.
  - vm_compute. left. reflexivity.
Defined.

(** X4: which candidate wins.  For a text and glossary terms in the ASCII
    range, every candidate of a non-empty glossary term, that is every
    match [re.finditer] yields for it (the occurrences of the term found
    left to right, each search resuming where the last match ended), is
    either returned, or shares a character offset with a returned match
    that starts at an earlier offset or, starting at the same one, is at
    least as long.  An occurrence that [re.finditer] passes over, because
    it overlaps the occurrence of the same term found before it, is no
    candidate. *)
Theorem earlier_then_longer_match_wins
    (T : text) (G : list GlossaryEntry) (e : GlossaryEntry) (c : TermMatch) :
  ascii_text T = true ->
  ascii_glossary G = true ->
  In e G ->
  clinical_term e <> [] ->
  In c (entry_matches T e) ->
  In c (find_technical_terms T G)
  \/ exists k,
       In k (find_technical_terms T G) /\ share_offset k c /\ wins_over k c.
Proof.
  intros _ _ He Hne Hc.
  assert (Hlen : position c < end_position c).
  { pose proof (entry_match_sound _ _ _ Hc) as [_ [_ [_ [H _]]]].
    destruct (clinical_term e); [contradiction|simpl in H; lia]. }
  assert (Hin : In c (Py.sort (fun y x => position y <? position x)
                        (flat_map (entry_matches T)
                           (Py.sort (fun y x => length (clinical_term x)
                                                <? length (clinical_term y)) G)))).
  { apply sort_in, in_flat_map. exists e. split; [now apply sort_in|exact Hc]. }
  unfold find_technical_terms.
  destruct (@keep_first_priority _ (sort_by_position (candidates_longest_first T G))
              [] (fun u t (F : In u []) _ => match F with end) c Hin)
    as [H|[k [Hk [Ho Hw]]]].
  - now left.
  - right. exists k. repeat split; try assumption. now apply overlap_shares.
Qed.

(** "cortex" inside "prefrontal cortex" loses to the longer term that
    starts earlier.  In "q x y x y x" the term "x y x" has the single
    candidate 2..7, which loses to "q x" at 0..3; its occurrence at 6..11
    is passed over by the search and is not returned either. *)
Lemma earlier_then_longer_match_wins_witness :
  let T := cortex_text in
  let G := [entry "cortex" "outer layer"; entry "prefrontal cortex" "planning center"] in
  let c := {| term := txt "cortex"; position := 15; end_position := 21;
              definition := txt "outer layer"; term_category := txt "general" |} in
  (map (fun k => (position k, end_position k))
       (entry_matches (txt "q x y x y x") (entry "x y x" "pattern")) = [(2, 7)]
   /\ map (fun k => (position k, end_position k))
          (find_technical_terms (txt "q x y x y x")
             [entry "q x" "start"; entry "x y x" "pattern"]) = [(0, 3)])
  /\ (In c (find_technical_terms T G)
      \/ exists k,
           In k (find_technical_terms T G) /\ share_offset k c /\ wins_over k c).
Proof.
  intros T G c. split; [split; vm_compute; reflexivity|].
  apply (@earlier_then_longer_match_wins T G (entry "cortex" "outer layer") c).
  - vm_compute. reflexivity.
  - vm_compute. reflexivity.
  - left. reflexivity.
  - discriminate.
  - vm_compute. left. reflexivity.
Defined.

(** ** The injector: the text it builds *)

Section Layout.

Lemma layout_snoc (T : text) (ms : list TermMatch) (m : TermMatch) (upto : nat) :
  forall from,
    layout T from (ms ++ [m]) upto =
      layout T from ms (position m) ++ tooltip m ++ Py.slice T (end_position m) upto.
Proof.
  induction ms as [|a ms IH]; intros from; cbn [layout app]; [reflexivity|].
  rewrite IH. now rewrite <- !app_assoc.
Qed.

(** Splicing from the last match to the first, at the offsets of the
    original text, builds the text left to right. *)
Lemma render_layout (T : text) (ts : list TermMatch) :
  StronglySorted (fun a b => precedes b a) ts ->
  Forall (fun m => position m <= end_position m) ts ->
  forall q S,
    q <= length T ->
    Forall (fun m => end_position m <= q) ts ->
    render ts (firstn q T ++ S) = layout T 0 (rev ts) q ++ S.
Proof.
  induction 1 as [|m ts Hs IH Hm]; intros Hpe q S Hq Hend.
  - simpl. unfold Py.slice. now rewrite Nat.sub_0_r.
  - inversion Hpe as [|? ? Hm1 Hpe']; subst.
    inversion Hend as [|? ? Hm2 Hend']; subst.
    unfold render. simpl fold_left. fold (render ts).
    rewrite render_one_prefix by lia.
    rewrite IH; [|exact Hpe'|lia|exact Hm].
    simpl rev. rewrite layout_snoc. now rewrite <- !app_assoc.
Qed.

Lemma sorted_rev (A : Type) (R : A -> A -> Prop) (l : list A) :
  StronglySorted (fun a b => R b a) l -> StronglySorted R (rev l).
Proof.
  induction 1 as [|x l Hs IH Hx]; simpl; [constructor|].
  apply sorted_snoc; [exact IH|].
  apply Forall_forall. intros y Hy. apply in_rev in Hy.
  rewrite Forall_forall in Hx. now apply Hx.
Qed.

Lemma nonempty_match (T : text) (G : list GlossaryEntry) (m : TermMatch) :
  nonempty_terms G = true -> In m (find_technical_terms T G) ->
  position m < end_position m.
Proof.
  intros HG Hm. apply candidate_of in Hm. destruct Hm as [e [He Hm]].
  apply entry_match_sound in Hm. destruct Hm as [_ [_ [_ [H _]]]].
  unfold nonempty_terms in HG. rewrite forallb_forall in HG. specialize (HG e He).
  destruct (clinical_term e); [discriminate|simpl in H; lia].
Qed.

(** The selected matches, last position first: each ends where or before
    the one rendered before it starts. *)
Lemma selection_chain (T : text) (G : list GlossaryEntry) (n : Z) :
  (forall m, In m (find_technical_terms T G) -> position m < end_position m) ->
  StronglySorted (fun a b => precedes b a) (top_terms T G n).
Proof.
  intros Hall.
  assert (Hnd : NoDup (top_terms T G n)).
  { unfold top_terms.
    apply (Permutation_NoDup (Permutation_sym (sort_perm _ _))).
    unfold Py.take. destruct (n <? 0)%Z; apply nodup_firstn;
      apply (Permutation_NoDup (Permutation_sym (sort_perm _ _)));
      apply (sorted_irreflexive_nodup (matches_ordered T G));
      intros x Hx; specialize (Hall x Hx); unfold precedes; lia. }
  assert (Hdesc : StronglySorted (fun a b => position b <= position a) (top_terms T G n)).
  { unfold top_terms. apply sort_sorted.
    - intros a b c. lia.
    - intros y x H. apply Nat.ltb_lt in H. lia.
    - intros y x H. apply Nat.ltb_ge in H. exact H. }
  assert (Hin : forall m, In m (top_terms T G n) -> In m (find_technical_terms T G))
    by (intros m; apply top_terms_in).
  revert Hnd Hin. induction Hdesc as [|a l Hs IH Ha]; intros Hnd Hin; constructor.
  - inversion Hnd; subst. apply IH; try assumption.
    intros m Hm. apply Hin. now right.
  - inversion Hnd as [|? ? Hna Hnd']; subst.
    pose proof (Hall a (Hin a (or_introl eq_refl))) as Hlt.
    apply Forall_forall. intros b Hb.
    rewrite Forall_forall in Ha. specialize (Ha b Hb).
    assert (Hab : a <> b) by (intros ->; contradiction).
    destruct (sorted_either (matches_ordered T G)
                (Hin a (or_introl eq_refl)) (Hin b (or_intror Hb)) Hab) as [H|H].
    + unfold precedes in H. lia.
    + exact H.
Qed.

Lemma selected_within (T : text) (G : list GlossaryEntry) (n : Z) (m : TermMatch) :
  In m (top_terms T G n) ->
  term m = Py.slice T (position m) (end_position m)
  /\ position m <= end_position m <= length T.
Proof.
  intros Hm. apply top_terms_in, candidate_of in Hm. destruct Hm as [e [_ Hm]].
  apply entry_match_sound in Hm. destruct Hm as [_ [_ [Ht [He [Hl _]]]]].
  split; [exact Ht|lia].
Qed.

Lemma injected_layout (T : text) (G : list GlossaryEntry) (n : Z) :
  nonempty_terms G = true ->
  fst (inject_tooltips T G n) = layout T 0 (rev (top_terms T G n)) (length T).
Proof.
  intros HG. rewrite inject_tooltips_eq. cbn [fst].
  replace (render (top_terms T G n) T)
    with (render (top_terms T G n) (firstn (length T) T ++ []))
    by now rewrite app_nil_r, firstn_all.
  rewrite render_layout; [apply app_nil_r| | |lia|].
  - apply selection_chain. intros m Hm. now apply nonempty_match with T G.
  - apply Forall_forall. intros m Hm. apply selected_within in Hm. lia.
  - apply Forall_forall. intros m Hm. apply selected_within in Hm. lia.
Qed.

(** *** Lengths *)

Lemma tooltip_length (t : TermMatch) :
  length (tooltip t) = length (term t) + length (definition t) + 6.
Proof.
  unfold tooltip. repeat (rewrite length_app; cbn [length txt list_ascii_of_string]). lia.
Qed.

Lemma slice_length (T : text) (a b : nat) :
  a <= b <= length T -> length (Py.slice T a b) = b - a.
Proof.
  intros H. unfold Py.slice. rewrite length_firstn, length_skipn. lia.
Qed.

Lemma render_length (T : text) (ts : list TermMatch) :
  Forall (fun m => term m = Py.slice T (position m) (end_position m)
                   /\ position m <= end_position m <= length T) ts ->
  forall x,
    length T <= length x ->
    length (render ts x)
      = length x + list_sum (map (fun m => length (definition m) + 6) ts).
Proof.
  induction 1 as [|m ts [Ht Hb] Hts IH]; intros x Hx; simpl; [lia|].
  fold (render ts (render_one x m)).
  assert (Hone : length (render_one x m) = length x + (length (definition m) + 6)).
  { unfold render_one.
    rewrite !length_app, length_firstn, length_skipn, tooltip_length, Ht, slice_length
      by exact Hb.
    lia. }
  rewrite IH by lia. lia.
Qed.

Lemma simplified_length_eq (r : option (text -> float)) (T : text)
    (G : list GlossaryEntry) (n : Z) :
  simplified_length (update_protocol r T G n) = length (fst (inject_tooltips T G n))
  /\ original_length (update_protocol r T G n) = length T.
Proof.
  unfold update_protocol.
  destruct (inject_tooltips T G n) as [simplified used].
  destruct (validate_tooltip_injection T simplified). split; reflexivity.
Qed.

End Layout.

(** X5: the text the injector returns, for a glossary without empty terms:
    the selected matches, taken in text order, end each where or before the
    next starts, and the result is the original text with each of them
    replaced by its tooltip and every other character kept in place.
    Splicing from the end at offsets of the original text is sound. *)
Theorem injected_text_layout (T : text) (G : list GlossaryEntry) (n : Z) :
  nonempty_terms G = true ->
  let selected := rev (top_terms T G n) in
  StronglySorted precedes selected
  /\ fst (inject_tooltips T G n) = layout T 0 selected (length T).
Proof.
  intros HG selected. split.
  - apply sorted_rev, selection_chain. intros m Hm. now apply nonempty_match with T G.
  - now apply injected_layout.
Qed.

(** Two tooltips in one sentence. *)
Lemma injected_text_layout_witness :
  let T := txt "The amygdala and the cortex react." in
  let G := [entry "cortex" "outer layer"; entry "amygdala" "alarm"] in
  let selected := rev (top_terms T G 5) in
  fst (inject_tooltips T G 5)
    = txt "The {{amygdala||alarm}} and the {{cortex||outer layer}} react."
  /\ StronglySorted precedes selected
  /\ fst (inject_tooltips T G 5) = layout T 0 selected (length T).
Proof.
  intros T G selected. split; [vm_compute; reflexivity|].
  apply (@injected_text_layout T G 5). vm_compute. reflexivity.
Defined.

(** X6: the injected text is longer than the original by the definition
    and six markup characters for each selected match, whatever the
    glossary and the bound; [update_protocol] reports the two lengths, so
    [simplified_length] is never below [original_length]. *)
Theorem injection_length (r : option (text -> float)) (T : text)
    (G : list GlossaryEntry) (n : Z) :
  let result := update_protocol r T G n in
  simplified_length result
    = original_length result
      + list_sum (map (fun m => length (definition m) + 6) (top_terms T G n))
  /\ original_length result <= simplified_length result.
Proof.
  intros result.
  destruct (simplified_length_eq r T G n) as [Hs Ho]. fold result in Hs, Ho.
  assert (H : length (fst (inject_tooltips T G n))
              = length T
                + list_sum (map (fun m => length (definition m) + 6) (top_terms T G n))).
  { rewrite inject_tooltips_eq. cbn [fst]. apply (@render_length T); [|lia].
    apply Forall_forall. intros m Hm. now apply selected_within with G n. }
  rewrite Hs, Ho, H. split; lia.
Qed.

(** ** The injector against the validator *)

Section Structure.

Lemma forallb_firstn (A : Type) (p : A -> bool) (n : nat) (l : list A) :
  forallb p l = true -> forallb p (firstn n l) = true.
Proof.
  revert l; induction n as [|n IH]; intros [|x l] H; simpl in *; try reflexivity.
  apply andb_true_iff in H. destruct H as [Hx H]. rewrite Hx. now apply IH.
Qed.

Lemma forallb_skipn (A : Type) (p : A -> bool) (n : nat) (l : list A) :
  forallb p l = true -> forallb p (skipn n l) = true.
Proof.
  revert l; induction n as [|n IH]; intros [|x l] H; simpl in *; try reflexivity;
    try exact H.
  apply andb_true_iff in H. destruct H as [_ H]. now apply IH.
Qed.

Lemma brace_free_slice (T : text) (a b : nat) :
  brace_free T = true -> brace_free (Py.slice T a b) = true.
Proof.
  intros H. unfold brace_free, Py.slice. now apply forallb_firstn, forallb_skipn.
Qed.

Lemma brace_free_open (t : text) : brace_free t = true -> forallb not_open t = true.
Proof.
  unfold brace_free. induction t as [|c t IH]; simpl; [reflexivity|].
  intros H. apply andb_true_iff in H. destruct H as [Hc H].
  unfold no_brace in Hc. apply andb_true_iff in Hc. destruct Hc as [Hc _].
  rewrite Hc. now apply IH.
Qed.

Lemma brace_free_close (t : text) : brace_free t = true -> forallb not_close t = true.
Proof.
  unfold brace_free. induction t as [|c t IH]; simpl; [reflexivity|].
  intros H. apply andb_true_iff in H. destruct H as [Hc H].
  unfold no_brace in Hc. apply andb_true_iff in Hc. destruct Hc as [_ Hc].
  rewrite Hc. now apply IH.
Qed.

Lemma open_free_plain (t : text) : forallb not_open t = true -> plain_text t = true.
Proof.
  induction t as [|c t IH]; intros H; [reflexivity|].
  simpl in H. apply andb_true_iff in H. destruct H as [Hc H].
  apply plain_cons. split; [|now apply IH].
  change (txt "{{") with ["{"%char; "{"%char]. cbn [Py.startswith].
  unfold not_open in Hc. apply negb_true_iff in Hc.
  rewrite (Ascii.eqb_sym "{" c), Hc. reflexivity.
Qed.

(** *** Counting the delimiters *)

Lemma count_skip (x : ascii) (seg r : text) :
  forallb (fun c => negb (Ascii.eqb c x)) seg = true ->
  Py.count_from [x; x] 0 (seg ++ r) = Py.count_from [x; x] 0 r.
Proof.
  induction seg as [|c seg IH]; intros H; [reflexivity|].
  simpl in H. apply andb_true_iff in H. destruct H as [Hc H].
  apply negb_true_iff in Hc.
  rewrite <- app_comm_cons. cbn [Py.count_from Py.startswith].
  rewrite (Ascii.eqb_sym x c), Hc. cbn [andb]. now apply IH.
Qed.

Lemma count_hit (x : ascii) (r : text) :
  Py.count_from [x; x] 0 (x :: x :: r) = S (Py.count_from [x; x] 0 r).
Proof.
  cbn [Py.count_from Py.startswith length pred]. now rewrite Ascii.eqb_refl.
Qed.

Lemma reassoc_open (g d rest : text) :
  g ++ "|"%char :: "|"%char :: d ++ "}"%char :: "}"%char :: rest
    = (g ++ "|"%char :: "|"%char :: d ++ ["}"%char; "}"%char]) ++ rest.
Proof.
  rewrite <- app_assoc. cbn [app]. now rewrite <- app_assoc.
Qed.

Lemma reassoc_close (seg g d rest : text) :
  seg ++ "{"%char :: "{"%char :: g ++ "|"%char :: "|"%char :: d
      ++ "}"%char :: "}"%char :: rest
    = (seg ++ "{"%char :: "{"%char :: g ++ "|"%char :: "|"%char :: d)
      ++ "}"%char :: "}"%char :: rest.
Proof.
  rewrite <- app_assoc. cbn [app]. now rewrite <- app_assoc.
Qed.

(** A stretch of text without braces, then a tooltip whose term and
    definition have none: one more opening pair and one more closing pair
    than in the rest. *)
Lemma count_open_step (seg : text) (t : TermMatch) (rest : text) :
  brace_free seg = true -> brace_free (term t) = true ->
  brace_free (definition t) = true ->
  Py.count (txt "{{") (seg ++ tooltip t ++ rest) = S (Py.count (txt "{{") rest).
Proof.
  intros Hs Ht Hd. unfold Py.count.
  change (txt "{{") with ["{"%char; "{"%char].
  rewrite count_skip by now apply brace_free_open.
  rewrite tooltip_shape, count_hit, reassoc_open, count_skip; [reflexivity|].
  change (fun c : ascii => negb (Ascii.eqb c "{")) with not_open.
  rewrite forallb_app. apply andb_true_iff. split; [now apply brace_free_open|].
  cbn [forallb]. rewrite forallb_app, (brace_free_open _ Hd). reflexivity.
Qed.

Lemma count_close_step (seg : text) (t : TermMatch) (rest : text) :
  brace_free seg = true -> brace_free (term t) = true ->
  brace_free (definition t) = true ->
  Py.count (txt "}}") (seg ++ tooltip t ++ rest) = S (Py.count (txt "}}") rest).
Proof.
  intros Hs Ht Hd. unfold Py.count.
  change (txt "}}") with ["}"%char; "}"%char].
  rewrite tooltip_shape, reassoc_close, count_skip; [apply count_hit|].
  change (fun c : ascii => negb (Ascii.eqb c "}")) with not_close.
  rewrite forallb_app. apply andb_true_iff. split; [now apply brace_free_close|].
  cbn [forallb]. rewrite forallb_app, (brace_free_close _ Ht).
  cbn [forallb andb]. now apply brace_free_close.
Qed.

(** *** Nesting *)

Lemma nested_cons (c : ascii) (s : text) :
  nested (c :: s) = nested_at (c :: s) || nested s.
Proof. reflexivity. Qed.

Lemma nested_skip (seg r : text) :
  forallb not_open seg = true -> nested (seg ++ r) = nested r.
Proof.
  induction seg as [|c seg IH]; intros H; [reflexivity|].
  simpl in H. apply andb_true_iff in H. destruct H as [Hc H].
  unfold not_open in Hc. apply negb_true_iff in Hc.
  rewrite <- app_comm_cons, nested_cons. unfold nested_at.
  change (txt "{{") with ["{"%char; "{"%char]. cbn [Py.startswith].
  rewrite (Ascii.eqb_sym "{" c), Hc. cbn [andb orb]. now apply IH.
Qed.

(** A tooltip whose inside has no brace is not nested, and nothing inside
    it opens another one. *)
Lemma nested_tip (inside rest : text) :
  inside <> [] ->
  forallb not_open inside = true -> forallb not_close inside = true ->
  nested ("{"%char :: "{"%char :: inside ++ "}"%char :: "}"%char :: rest) = nested rest.
Proof.
  intros Hne Ho Hc.
  rewrite nested_cons. unfold nested_at at 1.
  change (txt "{{") with ["{"%char; "{"%char].
  cbn [Py.startswith skipn]. rewrite !Ascii.eqb_refl. cbn [andb].
  rewrite take_while_stop by (assumption || reflexivity).
  pose proof (open_free_plain _ Ho) as Hp. unfold plain_text in Hp.
  apply negb_true_iff in Hp.
  change (txt "{{") with ["{"%char; "{"%char] in Hp. rewrite Hp. cbn [orb].
  rewrite nested_cons. unfold nested_at at 1.
  change (txt "{{") with ["{"%char; "{"%char].
  destruct inside as [|c inside]; [contradiction|].
  rewrite <- app_comm_cons. cbn [Py.startswith].
  cbn [forallb] in Ho. apply andb_true_iff in Ho. destruct Ho as [Hc0 Ho].
  unfold not_open in Hc0. apply negb_true_iff in Hc0.
  rewrite (Ascii.eqb_sym "{" c), Hc0, andb_false_r. cbn [andb orb].
  rewrite app_comm_cons.
  rewrite nested_skip by (cbn [forallb]; unfold not_open at 1; now rewrite Hc0, Ho).
  apply (nested_skip ["}"%char; "}"%char]). reflexivity.
Qed.

Lemma nested_step (seg : text) (t : TermMatch) (rest : text) :
  brace_free seg = true -> brace_free (term t) = true ->
  brace_free (definition t) = true ->
  nested (seg ++ tooltip t ++ rest) = nested rest.
Proof.
  intros Hs Ht Hd.
  rewrite nested_skip by now apply brace_free_open.
  rewrite tooltip_shape.
  replace (term t ++ "|"%char :: "|"%char :: definition t ++ "}"%char :: "}"%char :: rest)
    with ((term t ++ "|"%char :: "|"%char :: definition t) ++ "}"%char :: "}"%char :: rest)
    by (rewrite <- app_assoc; reflexivity).
  apply nested_tip.
  - destruct (term t); discriminate.
  - rewrite forallb_app, (brace_free_open _ Ht). cbn [forallb andb].
    now apply brace_free_open.
  - rewrite forallb_app, (brace_free_close _ Ht). cbn [forallb andb].
    now apply brace_free_close.
Qed.

Lemma layout_structure (T : text) (ms : list TermMatch) :
  brace_free T = true ->
  Forall (fun m => brace_free (term m) = true /\ brace_free (definition m) = true) ms ->
  forall from upto,
    nested (layout T from ms upto) = false
    /\ Py.count (txt "{{") (layout T from ms upto) = length ms
    /\ Py.count (txt "}}") (layout T from ms upto) = length ms.
Proof.
  intros HT. induction 1 as [|m ms [Ht Hd] Hms IH]; intros from upto.
  - cbn [layout length].
    pose proof (brace_free_slice T from upto HT) as Hs.
    rewrite <- (app_nil_r (Py.slice T from upto)).
    repeat split.
    + now rewrite nested_skip by now apply brace_free_open.
    + unfold Py.count. change (txt "{{") with ["{"%char; "{"%char].
      now rewrite count_skip by now apply brace_free_open.
    + unfold Py.count. change (txt "}}") with ["}"%char; "}"%char].
      now rewrite count_skip by now apply brace_free_close.
  - cbn [layout length].
    pose proof (brace_free_slice T from (position m) HT) as Hs.
    destruct (IH (end_position m) upto) as [Hn [Hopen Hclose]].
    repeat split.
    + now rewrite nested_step.
    + now rewrite count_open_step, Hopen.
    + now rewrite count_close_step, Hclose.
Qed.

Lemma wire_safe_parts (G : list GlossaryEntry) :
  wire_safe G = true ->
  strippable_glossary G = true
  /\ nonempty_terms G = true
  /\ forall e, In e G -> brace_free (entry_definition e) = true.
Proof.
  unfold wire_safe. intros H. apply andb_true_iff in H. destruct H as [Hs Hb].
  split; [exact Hs|]. split; [|now apply forallb_forall].
  unfold nonempty_terms. apply forallb_forall. intros e He.
  unfold strippable_glossary in Hs. rewrite forallb_forall in Hs.
  specialize (Hs e He). unfold strippable_entry in Hs.
  apply andb_true_iff in Hs. destruct Hs as [Hs _].
  apply andb_true_iff in Hs. now destruct Hs as [Hs _].
Qed.

(** Stripping the markup of an injected text gives the original back. *)
Lemma strip_injected (T : text) (G : list GlossaryEntry) (n : Z) :
  plain_text T = true -> strippable_glossary G = true ->
  strip_markup (fst (inject_tooltips T G n)) = T.
Proof.
  intros HT HG. rewrite inject_tooltips_eq. cbn [fst].
  destruct (@top_terms_chain T G n HG) as [Hok Hsorted].
  replace (render (top_terms T G n) T)
    with (render (top_terms T G n) (firstn (length T) T ++ []))
    by now rewrite app_nil_r, firstn_all.
  apply render_strips; try assumption.
  - lia.
  - apply Forall_forall. intros m Hm. rewrite Forall_forall in Hok.
    destruct (Hok m Hm) as [_ [[_ Hlen] _]]. exact Hlen.
  - intros seg Hseg. rewrite skipn_all, app_nil_r in *. now apply strip_plain.
Qed.

Lemma selected_brace_free (T : text) (G : list GlossaryEntry) (n : Z) :
  brace_free T = true ->
  (forall e, In e G -> brace_free (entry_definition e) = true) ->
  Forall (fun m => brace_free (term m) = true /\ brace_free (definition m) = true)
         (rev (top_terms T G n)).
Proof.
  intros HT HG. apply Forall_forall. intros m Hm. apply in_rev in Hm.
  apply top_terms_in, candidate_of in Hm. destruct Hm as [e [He Hm]].
  apply entry_match_sound in Hm. destruct Hm as [Hd [_ [Ht _]]].
  rewrite Ht, Hd. split; [now apply brace_free_slice|now apply HG].
Qed.

End Structure.

(** X7: the injector against the validator.  For a text without braces and
    a glossary whose terms are non-empty and have no bar and whose
    definitions have no brace, the injected text passes the first three
    checks of the validator for every bound: no tooltip is nested, there
    are as many opening pairs as closing pairs, one of each for every
    selected match, and the content is preserved.  The verdict is that of
    the fourth check alone, the parity of the emphasis markers. *)
Theorem injection_is_well_formed (T : text) (G : list GlossaryEntry) (n : Z) :
  brace_free T = true ->
  wire_safe G = true ->
  let s := fst (inject_tooltips T G n) in
  nested s = false
  /\ Py.count (txt "{{") s = length (top_terms T G n)
  /\ Py.count (txt "}}") s = length (top_terms T G n)
  /\ content_preserved T s = true
  /\ validate_tooltip_injection T s =
       match find (fun marker => negb (Nat.even (Py.count marker s)))
                  (map txt ["**"; "*"; "__"; "_"]%string) with
       | Some marker => (false, Unbalanced_marker marker)
       | None => (true, Valid)
       end.
Proof.
  intros HT HG s.
  destruct (wire_safe_parts G HG) as [Hstrip [Hne Hdef]].
  destruct (@layout_structure T (rev (top_terms T G n)) HT
              (selected_brace_free T G n HT Hdef) 0 (length T)) as [Hn [Ho Hc]].
  rewrite <- (injected_layout T G n Hne) in Hn, Ho, Hc. fold s in Hn, Ho, Hc.
  rewrite length_rev in Ho, Hc.
  assert (Hp : content_preserved T s = true).
  { unfold content_preserved, s.
    rewrite strip_injected;
      [|now apply open_free_plain, brace_free_open|exact Hstrip].
    apply orb_true_iff. left. now apply py_eqb_eq. }
  repeat split; try assumption.
  unfold validate_tooltip_injection.
  now rewrite Hn, Ho, Hc, Nat.eqb_refl, Hp.
Qed.

(** A text with an odd number of underscores is annotated well and still
    rejected, by the fourth check. *)
Lemma injection_is_well_formed_witness :
  let T := txt "The amygdala sets fight_or flight." in
  let G := [entry "amygdala" "alarm"] in
  let s := fst (inject_tooltips T G 5) in
  validate_tooltip_injection T s = (false, Unbalanced_marker (txt "_"))
  /\ nested s = false
  /\ Py.count (txt "{{") s = length (top_terms T G 5)
  /\ Py.count (txt "}}") s = length (top_terms T G 5)
  /\ content_preserved T s = true
  /\ validate_tooltip_injection T s =
       match find (fun marker => negb (Nat.even (Py.count marker s)))
                  (map txt ["**"; "*"; "__"; "_"]%string) with
       | Some marker => (false, Unbalanced_marker marker)
       | None => (true, Valid)
       end.
Proof.
  intros T G s. split; [vm_compute; reflexivity|].
  apply (@injection_is_well_formed T G 5); vm_compute; reflexivity.
Defined.

(** ** The term mapping the injector reports *)

Section UsedTerms.

Lemma dict_set_in (k v : text) (d : dict) (x : text * text) :
  In x (dict_set k v d) -> In x d \/ x = (k, v).
Proof.
  induction d as [|[k' v'] d IH]; simpl.
  - intros [<-|[]]. now right.
  - destruct (Py.eqb k k') eqn:E.
    + apply py_eqb_eq in E. subst k'.
      intros [<-|H]; [now right|left; now right].
    + intros [<-|H]; [left; now left|].
      destruct (IH H) as [H'|H']; [left; now right|now right].
Qed.

Lemma track_keys (ts : list TermMatch) :
  forall d k,
    In k (map fst (track ts d)) <-> In k (map fst d) \/ In k (map term ts).
Proof.
  induction ts as [|t ts IH]; intros d k; simpl.
  - split; [now left|intros [H|[]]; exact H].
  - change (fold_left (fun d0 t0 => dict_set (term t0) (definition t0) d0) ts
              (dict_set (term t) (definition t) d))
      with (track ts (dict_set (term t) (definition t) d)).
    rewrite IH, dict_set_keys.
    destruct (existsb (Py.eqb (term t)) (map fst d)) eqn:E.
    + apply has_key_in in E. split.
      * intros [H|H]; [now left|right; now right].
      * intros [H|[<-|H]]; [now left|now left|now right].
    + rewrite in_app_iff. simpl. tauto.
Qed.

Lemma track_values (ts : list TermMatch) :
  forall d k v,
    In (k, v) (track ts d) ->
    In (k, v) d \/ exists m, In m ts /\ term m = k /\ definition m = v.
Proof.
  induction ts as [|t ts IH]; intros d k v H; simpl in H; [now left|].
  apply IH in H. destruct H as [H|[m [Hm Hkv]]].
  - apply dict_set_in in H. destruct H as [H|H]; [now left|].
    injection H as -> ->. right. exists t. repeat split. now left.
  - right. exists m. split; [now right|exact Hkv].
Qed.

Lemma track_length_distinct (ts : list TermMatch) :
  NoDup (map term ts) ->
  forall d,
    (forall m, In m ts -> ~ In (term m) (map fst d)) ->
    length (track ts d) = length d + length ts.
Proof.
  induction ts as [|t ts IH]; intros Hnd d Hd; simpl; [lia|].
  inversion Hnd as [|? ? Ht Hnd']; subst.
  change (fold_left (fun d0 t0 => dict_set (term t0) (definition t0) d0) ts
            (dict_set (term t) (definition t) d))
    with (track ts (dict_set (term t) (definition t) d)).
  assert (E : existsb (Py.eqb (term t)) (map fst d) = false).
  { destruct (existsb (Py.eqb (term t)) (map fst d)) eqn:E; [|reflexivity].
    apply has_key_in in E. exfalso. apply (Hd t); [now left|exact E]. }
  rewrite IH; [rewrite dict_set_length, E; lia|exact Hnd'|].
  intros m Hm Hin. rewrite dict_set_keys, E in Hin.
  apply in_app_or in Hin. destruct Hin as [Hin|[Heq|[]]].
  - apply (Hd m); [now right|exact Hin].
  - apply Ht. rewrite Heq. now apply in_map.
Qed.

End UsedTerms.

(** X8: the term mapping the injector returns, and [update_protocol]
    reports as [glossary_terms]: its keys are exactly the texts of the
    selected matches, with the casing of the text; each key is mapped to the
    definition of a selected match with that text; it has at most as many
    entries as spans were rendered, and as many when the selected matches
    have pairwise different texts. *)
Theorem reported_terms_are_the_rendered_ones (T : text) (G : list GlossaryEntry) (n : Z) :
  let selected := top_terms T G n in
  let used := snd (inject_tooltips T G n) in
  (forall k, In k (map fst used) <-> In k (map term selected))
  /\ (forall k v, In (k, v) used ->
        exists m, In m selected /\ term m = k /\ definition m = v)
  /\ length used <= length selected
  /\ (NoDup (map term selected) -> length used = length selected)
  /\ forall r, glossary_terms (update_protocol r T G n) = used.
Proof.
  intros selected used. unfold used, selected.
  rewrite inject_tooltips_eq. cbn [snd]. repeat split.
  - intros H. apply track_keys in H. destruct H as [[]|H]. exact H.
  - intros H. apply track_keys. now right.
  - intros k v H. apply track_values in H. destruct H as [[]|H]. exact H.
  - apply (track_length_le (top_terms T G n) []).
  - intros H. apply (@track_length_distinct (top_terms T G n) H []).
    intros m _ [].
  - intros r. unfold update_protocol. rewrite inject_tooltips_eq.
    destruct (validate_tooltip_injection T (render (top_terms T G n) T)). reflexivity.
Qed.

(** ** Diagnosis and the choice of a repair *)

Section Diagnose.

Lemma filter_none (A : Type) (p : A -> bool) (l : list A) :
  length (filter p l) = 0 -> forall x, In x l -> p x = false.
Proof.
  induction l as [|y l IH]; intros H x Hx; [contradiction|].
  simpl in H. destruct (p y) eqn:E; [discriminate|].
  destruct Hx as [<-|Hx]; [exact E|now apply IH].
Qed.

Lemma filter_le (A : Type) (p : A -> bool) (l : list A) :
  length (filter p l) <= length l.
Proof.
  induction l as [|y l IH]; simpl; [lia|]. destruct (p y); simpl; lia.
Qed.

End Diagnose.

(** X9: the diagnosis of a document.  The candidate strategies are decided
    by the three findings: [shorten_definitions] iff a definition has more
    than 15 words, [simplify_language] iff a definition is above grade 8,
    [remove_tooltips] iff a sentence holds 3 tooltips or more, and
    [manual_review] iff none of the three.  So there is always a candidate,
    none is listed twice, a cause is listed for each, [manual_review] never
    comes with another one, and the two counts are bounded by the number of
    tooltips. *)
Theorem diagnosis_candidates (p : Protocol) :
  let d := diagnose_degradation p in
  has shorten_definitions (repair_strategies d) = (0 <? long_tooltips d)
  /\ has simplify_language (repair_strategies d) = (0 <? complex_tooltips d)
  /\ has remove_tooltips (repair_strategies d) = (3 <=? diag_max_tooltips_per_sentence d)
  /\ has manual_review (repair_strategies d)
       = negb ((0 <? long_tooltips d) || (0 <? complex_tooltips d)
               || (3 <=? diag_max_tooltips_per_sentence d))
  /\ has revert_to_original (repair_strategies d) = false
  /\ repair_strategies d <> []
  /\ NoDup (repair_strategies d)
  /\ length (primary_causes d) = length (repair_strategies d)
  /\ (has manual_review (repair_strategies d) = true ->
      repair_strategies d = [manual_review])
  /\ long_tooltips d <= tooltip_count d
  /\ complex_tooltips d <= tooltip_count d.
Proof.
  intros d. unfold d, diagnose_degradation.
  cbn [repair_strategies primary_causes long_tooltips complex_tooltips
       diag_max_tooltips_per_sentence tooltip_count].
  rewrite !length_map.
  assert (Hl := filter_le (fun t => 15 <? tip_word_count t)
                          (extract_tooltips_from_text (get_text (simplified_text p)))).
  assert (Hc := filter_le (fun t => PrimFloat.ltb 8 (tip_reading_level t))
                          (extract_tooltips_from_text (get_text (simplified_text p)))).
  destruct (0 <? length (filter (fun t => 15 <? tip_word_count t)
                                (extract_tooltips_from_text (get_text (simplified_text p)))));
    destruct (0 <? length (filter (fun t => PrimFloat.ltb 8 (tip_reading_level t))
                                  (extract_tooltips_from_text (get_text (simplified_text p)))));
    destruct (3 <=? max_tooltips_per_sentence (get_text (simplified_text p)));
    cbn [app map snd fst has existsb strategy_eqb orb negb length];
    repeat split; try assumption; try reflexivity; try discriminate;
    repeat constructor; cbn [In]; intuition discriminate.
Qed.

(** X10: what the repair step does with a diagnosed document.  It applies
    [simplify_language] iff a definition is above grade 8; otherwise
    [remove_tooltips] iff a sentence holds 3 tooltips or more; otherwise
    nothing at all when a definition has more than 15 words, and
    [manual_review] when there is no finding.  Unless one of the first two
    is applied the text is returned as it was, with no tooltip modified,
    and a document under [manual_review] is flagged, never stored. *)
Theorem repair_follows_the_findings (p : Protocol) :
  let d := diagnose_degradation p in
  let r := repair_protocol p d in
  strategy_applied r =
    (if 0 <? complex_tooltips d then Some simplify_language
     else if 3 <=? diag_max_tooltips_per_sentence d then Some remove_tooltips
     else if 0 <? long_tooltips d then None
     else Some manual_review)
  /\ (strategy_applied r = Some simplify_language ->
      repaired_text r = extract_and_simplify_tooltips (get_text (simplified_text p))
      /\ tooltips_modified r = 0)
  /\ (strategy_applied r = Some remove_tooltips ->
      (repaired_text r, tooltips_modified r)
        = remove_complex_tooltips (get_text (simplified_text p)) 8)
  /\ (strategy_applied r = None \/ strategy_applied r = Some manual_review ->
      repaired_text r = get_text (simplified_text p) /\ tooltips_modified r = 0)
  /\ (strategy_applied r = Some manual_review -> persist r = Flag_for_manual_review).
Proof.
  intros d r. split; [apply repair_strategy_choice|].
  unfold r, repair_protocol, persist.
  destruct (has simplify_language (repair_strategies d));
    [|destruct (has remove_tooltips (repair_strategies d));
      [destruct (remove_complex_tooltips (get_text (simplified_text p)) 8) as [c k]
      |destruct (has manual_review (repair_strategies d))]];
    cbn [strategy_applied repaired_text tooltips_modified];
    repeat split; try discriminate; try reflexivity;
    match goal with
    | H : _ \/ _ |- _ => destruct H as [H|H]; discriminate H
    end.
Qed.

(** ** Repairs on the text *)

Section RepairText.

(** What the tooltip pattern matches: an opening pair, a non-empty term
    without a bar, two bars, a non-empty definition without a closing
    brace, and a closing pair. *)
Lemma tooltip_at_some (p : option ascii) (s : text) (n : nat) :
  tooltip_at p s = Some n ->
  exists g d rest,
    s = markup g d ++ rest
    /\ g <> [] /\ d <> []
    /\ forallb not_bar g = true /\ forallb not_close d = true
    /\ n = length g + length d + 6.
Proof.
  unfold tooltip_at. intros H.
  destruct s as [|c1 [|c2 s1]]; [discriminate| |].
  { each_char c1; discriminate H. }
  assert (H1 : c1 = "{"%char) by (each_char c1; try reflexivity; discriminate H).
  subst c1.
  assert (H2 : c2 = "{"%char) by (each_char c2; try reflexivity; discriminate H).
  subst c2. cbv beta iota zeta in H.
  pose proof (take_while_all not_bar s1) as Hg.
  pose proof (take_while_prefix not_bar s1) as Hgp.
  pose proof (firstn_skipn (length (Py.take_while not_bar s1)) s1) as Hs1.
  rewrite Hgp in Hs1.
  destruct (Py.take_while not_bar s1) as [|a g] eqn:Eg; [discriminate|].
  destruct (skipn (length (a :: g)) s1) as [|b1 [|b2 s2]] eqn:Es; [discriminate| |].
  { each_char b1; discriminate H. }
  assert (H3 : b1 = "|"%char) by (each_char b1; try reflexivity; discriminate H).
  subst b1.
  assert (H4 : b2 = "|"%char) by (each_char b2; try reflexivity; discriminate H).
  subst b2. cbv beta iota zeta in H.
  pose proof (take_while_all not_close s2) as Hd.
  pose proof (take_while_prefix not_close s2) as Hdp.
  pose proof (firstn_skipn (length (Py.take_while not_close s2)) s2) as Hs2.
  rewrite Hdp in Hs2.
  destruct (Py.take_while not_close s2) as [|a' d] eqn:Ed; [discriminate|].
  destruct (skipn (length (a' :: d)) s2) as [|e1 [|e2 rest]] eqn:Es2; [discriminate| |].
  { each_char e1; discriminate H. }
  assert (H5 : e1 = "}"%char) by (each_char e1; try reflexivity; discriminate H).
  subst e1.
  assert (H6 : e2 = "}"%char) by (each_char e2; try reflexivity; discriminate H).
  subst e2. cbv beta iota zeta in H. injection H as <-.
  exists (a :: g), (a' :: d), rest. repeat split; try assumption; try discriminate.
  rewrite <- Hs1, <- Hs2. unfold markup.
  change (txt "{{") with ["{"%char; "{"%char].
  change (txt "||") with ["|"%char; "|"%char].
  change (txt "}}") with ["}"%char; "}"%char].
  cbn [app]. rewrite <- !app_assoc. cbn [app]. rewrite <- !app_assoc. reflexivity.
Qed.


Lemma markup_shape (g d rest : text) :
  markup g d ++ rest
    = "{"%char :: "{"%char :: g ++ "|"%char :: "|"%char :: d ++ "}"%char :: "}"%char :: rest.
Proof.
  unfold markup.
  change (txt "{{") with ["{"%char; "{"%char].
  change (txt "||") with ["|"%char; "|"%char].
  change (txt "}}") with ["}"%char; "}"%char].
  cbn [app]. rewrite <- !app_assoc. cbn [app]. rewrite <- !app_assoc. reflexivity.
Qed.

Lemma markup_length (g d : text) : length (markup g d) = length g + length d + 6.
Proof.
  rewrite <- (app_nil_r (markup g d)), markup_shape.
  cbn [length]. repeat (rewrite length_app; cbn [length]). lia.
Qed.

Lemma tooltip_groups_markup (g d : text) :
  forallb not_bar g = true -> forallb not_close d = true ->
  tooltip_groups (markup g d) = (g, d).
Proof.
  intros Hg Hd. unfold tooltip_groups.
  rewrite <- (app_nil_r (markup g d)), markup_shape. cbn [skipn].
  rewrite take_while_stop by (assumption || reflexivity).
  f_equal. rewrite Nat.add_comm, <- skipn_skipn, skipn_length_app. cbn [skipn].
  apply take_while_stop; [assumption|reflexivity].
Qed.

Lemma firstn_length_app (A : Type) (l r : list A) : firstn (length l) (l ++ r) = l.
Proof.
  induction l as [|a l IH]; simpl; [reflexivity|now rewrite IH].
Qed.

(** The text a match of the tooltip pattern covers, and its two groups. *)
Lemma tooltip_match (p : option ascii) (s : text) (n : nat) :
  tooltip_at p s = Some n ->
  exists g d,
    firstn n s = markup g d
    /\ tooltip_groups (firstn n s) = (g, d)
    /\ d <> []
    /\ n = length g + length d + 6
    /\ 0 < n <= length s.
Proof.
  intros H. apply tooltip_at_some in H.
  destruct H as [g [d [rest [-> [Hg [Hd [Hbar [Hclose ->]]]]]]]].
  exists g, d.
  assert (E : firstn (length g + length d + 6) (markup g d ++ rest) = markup g d)
    by (rewrite <- markup_length; apply firstn_length_app).
  rewrite E. repeat split; try assumption; try lia.
  - now apply tooltip_groups_markup.
  - rewrite length_app, markup_length. lia.
Qed.

Lemma drop_while_length (p : ascii -> bool) (s : text) :
  length (Py.drop_while p s) <= length s.
Proof.
  induction s as [|c s IH]; simpl; [lia|]. destruct (p c); simpl; lia.
Qed.

Lemma strip_length (s : text) : length (Py.strip s) <= length s.
Proof.
  unfold Py.strip. rewrite length_rev.
  pose proof (drop_while_length Py.is_space (rev (Py.drop_while Py.is_space s))) as H.
  rewrite length_rev in H.
  pose proof (drop_while_length Py.is_space s). lia.
Qed.

End RepairText.

(** [re.sub] and [re.finditer] with the same pattern visit the same
    matches: the substitution against the spans. *)
Section SubAndFinditer.
Variable m : option ascii -> text -> option nat.
Variable m' : option ascii -> text -> option (text * nat).
Variable repl : text -> text.
Hypothesis m'_eq :
  forall p s,
    m' p s = match m p s with
             | Some n => Some (repl (firstn n s), n)
             | None => None
             end.
Hypothesis m_pos : forall p s n, m p s = Some n -> 0 < n <= length s.
Variable T : text.

Lemma skipn_next (i : nat) (c : ascii) (s : text) :
  skipn i T = c :: s -> skipn (S i) T = s.
Proof.
  intros H. change (S i) with (1 + i). rewrite <- skipn_skipn, H. reflexivity.
Qed.

Lemma span_text (i n : nat) (s : text) :
  skipn i T = s -> Py.slice T i (i + n) = firstn n s.
Proof.
  intros <-. unfold Py.slice. f_equal. lia.
Qed.

(** When every match is replaced by itself the text is unchanged. *)
Lemma sub_keeps (s : text) :
  forall p i k,
    skipn i T = s ->
    (forall a b, In (a, b) (Re.finditer_from m p i k s) ->
                 repl (Py.slice T a b) = Py.slice T a b) ->
    Re.sub_from m' p k s = skipn k s.
Proof.
  induction s as [|c s IH]; intros p i k Hs H; [now destruct k|].
  cbn [Re.sub_from Re.finditer_from] in *. destruct k as [|k].
  - rewrite m'_eq. destruct (m p (c :: s)) as [n|] eqn:E.
    + destruct (@m_pos _ _ _ E) as [Hn Hl].
      rewrite (IH (Some c) (S i) (pred n));
        [|now apply skipn_next with c|intros a b Hab; apply H; now right].
      specialize (H i (i + n) (or_introl eq_refl)).
      rewrite (@span_text _ n _ Hs) in H. rewrite H.
      destruct n as [|n]; [lia|]. cbn [pred firstn skipn app].
      now rewrite firstn_skipn.
    + cbn [skipn]. f_equal.
      now apply (IH (Some c) (S i) 0); [apply skipn_next with c|].
  - cbn [skipn]. now apply (IH (Some c) (S i) k); [apply skipn_next with c|].
Qed.

Variable w : text -> nat.
Hypothesis repl_short :
  forall p s n, m p s = Some n -> length (repl (firstn n s)) + w (firstn n s) <= n.

(** The substitution shortens the text by the weight of each match. *)
Lemma sub_shrinks (s : text) :
  forall p i k,
    skipn i T = s -> k <= length s ->
    length (Re.sub_from m' p k s)
    + list_sum (map (fun ab => w (Py.slice T (fst ab) (snd ab)))
                    (Re.finditer_from m p i k s))
      <= length s - k.
Proof.
  induction s as [|c s IH]; intros p i k Hs Hk.
  - cbn [Re.sub_from Re.finditer_from length]. destruct k; [|simpl; lia].
    destruct (m p []) as [n|] eqn:E; [|simpl; lia].
    apply m_pos in E. simpl in E. lia.
  - cbn [Re.sub_from Re.finditer_from]. destruct k as [|k].
    + rewrite m'_eq. destruct (m p (c :: s)) as [n|] eqn:E.
      * destruct (@m_pos _ _ _ E) as [Hn Hl]. cbn [length] in Hl.
        pose proof (IH (Some c) (S i) (pred n) (@skipn_next _ _ _ Hs)) as IH'.
        assert (Hp : pred n <= length s) by lia. specialize (IH' Hp).
        pose proof (@repl_short _ _ _ E) as Hr.
        unfold list_sum in *. cbn [map fold_right fst snd].
        rewrite (@span_text _ n _ Hs), length_app.
        cbn [length]. lia.
      * pose proof (IH (Some c) (S i) 0 (@skipn_next _ _ _ Hs)) as IH'.
        assert (Hp : 0 <= length s) by lia. specialize (IH' Hp).
        cbn [length]. lia.
    + pose proof (IH (Some c) (S i) k (@skipn_next _ _ _ Hs)) as IH'.
      cbn [length] in *.
      assert (Hp : k <= length s) by lia. specialize (IH' Hp). lia.
Qed.

End SubAndFinditer.

Section Removal.

Lemma weights_count (A : Type) (p : A -> bool) (l : list A) :
  list_sum (map (fun x => if p x then 7 else 0) l) = 7 * length (filter p l).
Proof.
  unfold list_sum. induction l as [|a l IH]; simpl; [reflexivity|].
  destruct (p a); simpl; lia.
Qed.

End Removal.

(** X11: [remove_complex_tooltips] and its counter.  Every tooltip it
    counts as removed makes the text at least 7 characters shorter (the six
    markup characters and a definition of one character or more), so the
    cleaned text is never longer than the input; the counter is 0 exactly
    when the text comes back unchanged, and it never exceeds the number of
    tooltips in the text. *)
Theorem removal_is_counted (t : text) (threshold : float) :
  let '(cleaned, removed) := remove_complex_tooltips t threshold in
  length cleaned + 7 * removed <= length t
  /\ (removed = 0 <-> cleaned = t)
  /\ removed <= length (extract_tooltips_from_text t).
Proof.
  unfold remove_complex_tooltips, sub_tooltips, Re.sub.
  set (bad := fun matched => too_complex threshold (snd (tooltip_groups matched))).
  set (repl := fun matched =>
                 let '(g1, g2) := tooltip_groups matched in
                 if too_complex threshold g2 then Py.strip g1 else markup g1 g2).
  set (m' := fun (prev : option ascii) (s : text) =>
               match tooltip_at prev s with
               | Some n =>
                   let '(g1, g2) := tooltip_groups (firstn n s) in
                   Some (if too_complex threshold g2 then Py.strip g1 else markup g1 g2, n)
               | None => None
               end).
  assert (Hm' : forall p s,
             m' p s = match tooltip_at p s with
                      | Some n => Some (repl (firstn n s), n)
                      | None => None
                      end).
  { intros p s. unfold m', repl. destruct (tooltip_at p s); [|reflexivity].
    now destruct (tooltip_groups _). }
  assert (Hpos : forall p s n, tooltip_at p s = Some n -> 0 < n <= length s).
  { intros p s n H. apply tooltip_match in H.
    destruct H as [g [d [_ [_ [_ [_ H]]]]]]. exact H. }
  assert (Hshort : forall p s n,
             tooltip_at p s = Some n ->
             length (repl (firstn n s)) + (if bad (firstn n s) then 7 else 0) <= n).
  { intros p s n H. apply tooltip_match in H.
    destruct H as [g [d [Hf [Hg [Hd [Hn _]]]]]].
    unfold repl, bad. rewrite Hg. cbn [snd]. destruct (too_complex threshold d).
    - pose proof (strip_length g). destruct d; [contradiction|]. simpl in Hn. lia.
    - rewrite markup_length. lia. }
  pose proof (@sub_shrinks tooltip_at m' repl Hm' Hpos t
                (fun x => if bad x then 7 else 0) Hshort t None 0 0 eq_refl
                (Nat.le_0_l _)) as Hlen.
  rewrite <- (map_map (fun ab => Py.slice t (fst ab) (snd ab))
                      (fun x => if bad x then 7 else 0)) in Hlen.
  rewrite weights_count, Nat.sub_0_r in Hlen.
  fold (Re.finditer tooltip_at t) in Hlen. fold (Re.findall tooltip_at t) in Hlen.
  split; [exact Hlen|]. split; [split|].
  - intros H0.
    apply (@sub_keeps tooltip_at m' repl Hm' Hpos t t None 0 0 eq_refl).
    intros a b Hab.
    assert (Hin : In (Py.slice t a b) (Re.findall tooltip_at t)).
    { unfold Re.findall. apply in_map_iff. exists (a, b). split; [reflexivity|exact Hab]. }
    pose proof (filter_none bad _ H0 _ Hin) as Hbad.
    destruct (finditer_from_spec _ _ _ _ _ _ _ Hab) as [k [prev' [Ha [_ [Hm _]]]]].
    simpl in Ha. subst k. apply tooltip_match in Hm.
    destruct Hm as [g [d [Hf [Hg _]]]].
    unfold bad in Hbad. unfold repl. unfold Py.slice in *.
    rewrite Hg in *. cbn [snd] in Hbad. now rewrite Hbad.
  - intros E. rewrite E in Hlen. lia.
  - unfold extract_tooltips_from_text. rewrite length_map. apply filter_le.
Qed.

(** ** Shortening a definition *)

Section Simplify.

Lemma forallb_rev (A : Type) (p : A -> bool) (l : list A) :
  forallb p l = true -> forallb p (rev l) = true.
Proof.
  rewrite !forallb_forall. intros H x Hx. apply H. now apply in_rev.
Qed.

Lemma forallb_drop_while (p q : ascii -> bool) (s : text) :
  forallb p s = true -> forallb p (Py.drop_while q s) = true.
Proof.
  induction s as [|c s IH]; simpl; [reflexivity|].
  intros H. destruct (q c); [|exact H].
  apply andb_true_iff in H. now apply IH.
Qed.

Lemma forallb_strip (p : ascii -> bool) (s : text) :
  forallb p s = true -> forallb p (Py.strip s) = true.
Proof.
  intros H. unfold Py.strip.
  now apply forallb_rev, forallb_drop_while, forallb_rev, forallb_drop_while.
Qed.

(** The pieces of a split hold no separator. *)
Lemma split_from_pieces (p : ascii -> bool) (s : text) :
  forall cur in_sep,
    forallb (fun c => negb (p c)) cur = true ->
    Forall (fun piece => forallb (fun c => negb (p c)) piece = true)
           (Re.split_from p cur in_sep s).
Proof.
  induction s as [|c s IH]; intros cur in_sep Hc; simpl.
  - constructor; [now apply forallb_rev|constructor].
  - destruct (p c) eqn:E.
    + destruct in_sep; [now apply IH|].
      constructor; [now apply forallb_rev|now apply IH].
    + apply IH. simpl. now rewrite E.
Qed.

Lemma split_from_nonempty (p : ascii -> bool) (s : text) :
  forall cur in_sep, Re.split_from p cur in_sep s <> [].
Proof.
  induction s as [|c s IH]; intros cur in_sep; simpl; [discriminate|].
  destruct (p c); [destruct in_sep; [apply IH|discriminate]|apply IH].
Qed.

(** The runs of [p] are non-empty, made of characters of [p], and of
    characters of the text. *)
Lemma runs_from_words (p q : ascii -> bool) (s : text) :
  forall cur,
    forallb p cur = true -> forallb q cur = true -> forallb q s = true ->
    Forall (fun w => w <> [] /\ forallb p w = true /\ forallb q w = true)
           (Py.runs_from p cur s).
Proof.
  induction s as [|c s IH]; intros cur Hp Hq Hs; simpl.
  - destruct cur as [|a cur]; constructor; [|constructor].
    repeat split; try now apply forallb_rev.
    simpl. intros E. now apply app_eq_nil in E.
  - simpl in Hs. apply andb_true_iff in Hs. destruct Hs as [Hc Hs].
    destruct (p c) eqn:E.
    + apply IH; simpl; try assumption; [now rewrite E|now rewrite Hc].
    + destruct cur as [|a cur]; [now apply IH|].
      constructor; [|now apply IH].
      repeat split; try now apply forallb_rev.
      simpl. intros E'. now apply app_eq_nil in E'.
Qed.

Lemma runs_from_word (p : ascii -> bool) (w : text) :
  forall cur s,
    forallb p w = true ->
    Py.runs_from p cur (w ++ s) = Py.runs_from p (rev w ++ cur) s.
Proof.
  induction w as [|a w IH]; intros cur s H; simpl; [reflexivity|].
  simpl in H. apply andb_true_iff in H. destruct H as [Ha H].
  rewrite Ha, IH by exact H. now rewrite <- app_assoc.
Qed.

(** Words joined by a separator and followed by a tail without one are
    read back as that many words. *)
Lemma join_runs (p : ascii -> bool) (sep : ascii) (tail : text) (ws : list text) :
  p sep = false -> forallb p tail = true ->
  ws <> [] ->
  Forall (fun w => w <> [] /\ forallb p w = true) ws ->
  forall cur,
    length (Py.runs_from p cur (Py.join [sep] ws ++ tail)) = length ws.
Proof.
  intros Hsep Htail Hne Hws. induction Hws as [|w ws [Hw Hpw] Hws IH]; intros cur;
    [contradiction|].
  assert (Hcur : rev w ++ cur <> []).
  { intros E. apply app_eq_nil in E. destruct E as [E _].
    apply (f_equal (@rev ascii)) in E. rewrite rev_involutive in E. contradiction. }
  destruct ws as [|w' ws].
  - cbn [Py.join length]. rewrite runs_from_word by exact Hpw.
    rewrite <- (app_nil_r tail), runs_from_word by exact Htail.
    cbn [Py.runs_from].
    destruct (rev tail ++ rev w ++ cur) eqn:E; [|reflexivity].
    apply app_eq_nil in E. destruct E as [_ E]. contradiction.
  - cbn [Py.join]. rewrite <- !app_assoc. rewrite runs_from_word by exact Hpw.
    cbn [app Py.runs_from]. rewrite Hsep.
    destruct (rev w ++ cur) eqn:E; [contradiction|].
    cbn [length]. f_equal. apply IH. discriminate.
Qed.

Lemma firstn_forall (A : Type) (P : A -> Prop) (n : nat) (l : list A) :
  Forall P l -> Forall P (firstn n l).
Proof.
  intros H. apply Forall_forall. intros x Hx.
  rewrite Forall_forall in H. apply H. now apply firstn_in with n.
Qed.

Lemma join_forallb (q : ascii -> bool) (sep : ascii) (ws : list text) :
  q sep = true ->
  Forall (fun w => forallb q w = true) ws ->
  forallb q (Py.join [sep] ws) = true.
Proof.
  intros Hsep. induction 1 as [|w ws Hw Hws IH]; [reflexivity|].
  destruct ws as [|w' ws]; [exact Hw|].
  change (Py.join [sep] (w :: w' :: ws)) with (w ++ [sep] ++ Py.join [sep] (w' :: ws)).
  rewrite !forallb_app, Hw, IH. cbn [forallb]. now rewrite Hsep.
Qed.

End Simplify.

(** X12: [simplify_tooltip_definition] returns at most 12 words, counted
    as [str.split] counts them, and a single sentence fragment: its text
    has no period, question mark or exclamation mark, apart from the
    ellipsis that is appended when words were cut. *)
Theorem simplified_definition_is_short (definition : text) :
  let result := simplify_tooltip_definition definition in
  length (Py.split_ws result) <= 12
  /\ exists body,
       forallb (fun c => negb (is_terminator c)) body = true
       /\ (result = body \/ result = body ++ txt "...").
Proof.
  intros result. unfold result, simplify_tooltip_definition.
  pose proof (@split_from_pieces is_terminator definition [] false eq_refl) as Hp.
  fold (Re.split is_terminator definition) in Hp.
  destruct (Re.split is_terminator definition) as [|s0 rest] eqn:Es.
  { exfalso. now apply (@split_from_nonempty is_terminator definition [] false). }
  inversion Hp as [|? ? Hs0 _]; subst.
  pose proof (forallb_strip _ _ Hs0) as Hfirst.
  set (first_sentence := Py.strip s0) in *.
  pose proof (@runs_from_words (fun c => negb (Py.is_space c))
                (fun c => negb (is_terminator c)) first_sentence []
                eq_refl eq_refl Hfirst) as Hwords.
  fold (Py.runs (fun c => negb (Py.is_space c)) first_sentence) in Hwords.
  fold (Py.split_ws first_sentence) in Hwords.
  destruct (12 <? length (Py.split_ws first_sentence)) eqn:E.
  - apply Nat.ltb_lt in E. split.
    + unfold Py.split_ws at 1. unfold Py.runs.
      change (txt " ") with [" "%char].
      rewrite join_runs; try reflexivity.
      * rewrite length_firstn. lia.
      * destruct (Py.split_ws first_sentence); [simpl in E; lia|discriminate].
      * apply firstn_forall. revert Hwords. apply Forall_impl. tauto.
    + exists (Py.join (txt " ") (firstn 12 (Py.split_ws first_sentence))).
      split; [|now right].
      apply join_forallb; [reflexivity|].
      apply firstn_forall. revert Hwords. apply Forall_impl. tauto.
  - apply Nat.ltb_ge in E. split; [exact E|].
    exists first_sentence. split; [exact Hfirst|now left].
Qed.

(** ** Reading category, flag and priority *)

Section FloatOrder.

Ltac order_cases :=
  repeat match goal with
         | |- context [Z.compare ?a ?b] => destruct (Z.compare_spec a b)
         | |- context [Pos.compare_cont Eq ?a ?b] =>
             change (Pos.compare_cont Eq a b) with (Pos.compare a b);
             destruct (Pos.compare_spec a b)
         end.

(** The order of the comparisons is transitive on what is not NaN. *)
Lemma sf_lt_le_trans (a b c : spec_float) :
  SFltb a b = true -> SFleb b c = true -> SFltb a c = true.
Proof.
  unfold SFltb, SFleb.
  destruct a as [sa|sa| |sa ma ea], b as [sb|sb| |sb mb eb], c as [sc|sc| |sc mc ec];
    cbn [SFcompare];
    repeat match goal with s : bool |- _ => destruct s end;
    try (intros; discriminate); try (intros; reflexivity);
    order_cases; cbn [CompOpp];
    try (intros; discriminate); try (intros; reflexivity); lia.
Qed.

Lemma sf_lt_lt_trans (a b c : spec_float) :
  SFltb a b = true -> SFltb b c = true -> SFltb a c = true.
Proof.
  unfold SFltb.
  destruct a as [sa|sa| |sa ma ea], b as [sb|sb| |sb mb eb], c as [sc|sc| |sc mc ec];
    cbn [SFcompare];
    repeat match goal with s : bool |- _ => destruct s end;
    try (intros; discriminate); try (intros; reflexivity);
    order_cases; cbn [CompOpp];
    try (intros; discriminate); try (intros; reflexivity); lia.
Qed.

Lemma ltb_leb_trans (c x y : float) :
  PrimFloat.ltb c x = true -> PrimFloat.leb x y = true -> PrimFloat.ltb c y = true.
Proof.
  rewrite !ltb_spec, leb_spec. apply sf_lt_le_trans.
Qed.

Lemma ltb_ltb_trans (c x y : float) :
  PrimFloat.ltb c x = true -> PrimFloat.ltb x y = true -> PrimFloat.ltb c y = true.
Proof.
  rewrite !ltb_spec. apply sf_lt_lt_trans.
Qed.

End FloatOrder.

Section Priority.

Lemma reading_points_monotone (g1 g2 : float) :
  PrimFloat.leb g1 g2 = true ->
  Triage.reading_level_points g1 <= Triage.reading_level_points g2.
Proof.
  intros H. unfold Triage.reading_level_points.
  pose proof (fun c => @ltb_leb_trans c g1 g2) as Ht.
  destruct (PrimFloat.ltb 12 g1) eqn:E12; [rewrite (Ht _ E12 H); lia|].
  destruct (PrimFloat.ltb 10 g1) eqn:E10;
    [rewrite (Ht _ E10 H); destruct (PrimFloat.ltb 12 g2); lia|].
  destruct (PrimFloat.ltb 8 g1) eqn:E8;
    [rewrite (Ht _ E8 H); destruct (PrimFloat.ltb 12 g2), (PrimFloat.ltb 10 g2); lia|].
  destruct (PrimFloat.ltb 6 g1) eqn:E6;
    [rewrite (Ht _ E6 H)|];
    destruct (PrimFloat.ltb 12 g2), (PrimFloat.ltb 10 g2), (PrimFloat.ltb 8 g2);
    try lia; destruct (PrimFloat.ltb 6 g2); lia.
Qed.

Lemma jargon_points_monotone (j1 j2 : float) :
  PrimFloat.leb j1 j2 = true ->
  Triage.jargon_points j1 <= Triage.jargon_points j2.
Proof.
  intros H. unfold Triage.jargon_points.
  pose proof (fun c => @ltb_leb_trans c j1 j2) as Ht.
  destruct (PrimFloat.ltb 10 j1) eqn:E10; [rewrite (Ht _ E10 H); lia|].
  destruct (PrimFloat.ltb 5 j1) eqn:E5;
    [rewrite (Ht _ E5 H); destruct (PrimFloat.ltb 10 j2); lia|].
  destruct (PrimFloat.ltb 2 j1) eqn:E2;
    [rewrite (Ht _ E2 H)|];
    destruct (PrimFloat.ltb 10 j2), (PrimFloat.ltb 5 j2);
    try lia; destruct (PrimFloat.ltb 2 j2); lia.
Qed.

Lemma points_bounds (g j : float) (d c : text) :
  Triage.reading_level_points g <= 40
  /\ Triage.jargon_points j <= 30
  /\ Triage.difficulty_points d <= 15
  /\ Triage.category_points c <= 15.
Proof.
  unfold Triage.reading_level_points, Triage.jargon_points,
    Triage.difficulty_points, Triage.category_points.
  repeat split;
    repeat match goal with |- context [if ?b then _ else _] => destruct b end; lia.
Qed.

Lemma uncapped (g j : float) (d c : text) :
  Triage.calculate_priority_score g j d c
    = Triage.reading_level_points g + Triage.jargon_points j
      + Triage.difficulty_points d + Triage.category_points c.
Proof.
  unfold Triage.calculate_priority_score.
  pose proof (points_bounds g j d c). lia.
Qed.

(** Above grade 8 the reading level brings 20 points or more; at grade 8
    or below, 10 at most. *)
Lemma reading_points_flag (g : float) :
  if PrimFloat.ltb 8 g then 20 <= Triage.reading_level_points g
  else Triage.reading_level_points g <= 10.
Proof.
  unfold Triage.reading_level_points.
  destruct (PrimFloat.ltb 8 g) eqn:E8.
  - destruct (PrimFloat.ltb 12 g), (PrimFloat.ltb 10 g); lia.
  - destruct (PrimFloat.ltb 12 g) eqn:E12.
    + rewrite (@ltb_ltb_trans 8 12 g eq_refl E12) in E8. discriminate.
    + destruct (PrimFloat.ltb 10 g) eqn:E10.
      * rewrite (@ltb_ltb_trans 8 10 g eq_refl E10) in E8. discriminate.
      * destruct (PrimFloat.ltb 6 g); lia.
Qed.

Lemma jargon_points_flag (j : float) :
  if PrimFloat.ltb 5 j then 20 <= Triage.jargon_points j
  else Triage.jargon_points j <= 10.
Proof.
  unfold Triage.jargon_points.
  destruct (PrimFloat.ltb 5 j) eqn:E5.
  - destruct (PrimFloat.ltb 10 j); lia.
  - destruct (PrimFloat.ltb 10 j) eqn:E10.
    + rewrite (@ltb_ltb_trans 5 10 j eq_refl E10) in E5. discriminate.
    + destruct (PrimFloat.ltb 2 j); lia.
Qed.

End Priority.

(** X13: the priority score is the sum of its four parts, a multiple of 5
    between 0 and 100: the parts are bounded by 40, 30, 15 and 15, so that
    the cap at 100 never changes the sum. *)
Theorem priority_score_range (g j : float) (d c : text) :
  let score := Triage.calculate_priority_score g j d c in
  score <= 100
  /\ Nat.modulo score 5 = 0
  /\ score = Triage.reading_level_points g + Triage.jargon_points j
             + Triage.difficulty_points d + Triage.category_points c.
Proof.
  intros score. unfold score. rewrite uncapped.
  pose proof (points_bounds g j d c) as Hb.
  split; [lia|]. split; [|reflexivity].
  unfold Triage.reading_level_points, Triage.jargon_points,
    Triage.difficulty_points, Triage.category_points.
  repeat match goal with |- context [if ?b then _ else _] => destruct b end;
    reflexivity.
Qed.

(** X14: the priority score is monotone in the grade level and in the
    jargon density: a text that is no easier and no less dense than another
    one of the same difficulty level and category never gets a lower
    score. *)
Theorem priority_score_is_monotone (g1 g2 j1 j2 : float) (d c : text) :
  PrimFloat.leb g1 g2 = true ->
  PrimFloat.leb j1 j2 = true ->
  Triage.calculate_priority_score g1 j1 d c <= Triage.calculate_priority_score g2 j2 d c.
Proof.
  intros Hg Hj. rewrite !uncapped.
  pose proof (@reading_points_monotone g1 g2 Hg).
  pose proof (@jargon_points_monotone j1 j2 Hj). lia.
Qed.

Lemma priority_score_is_monotone_witness :
  Triage.calculate_priority_score 7.5 1.2 (txt "beginner") (txt "research") = 25
  /\ Triage.calculate_priority_score 10.4 6 (txt "beginner") (txt "research") = 65
  /\ Triage.calculate_priority_score 7.5 1.2 (txt "beginner") (txt "research")
     <= Triage.calculate_priority_score 10.4 6 (txt "beginner") (txt "research").
Proof.
  split; [vm_compute; reflexivity|]. split; [vm_compute; reflexivity|].
  apply priority_score_is_monotone; vm_compute; reflexivity.
Defined.

(** X15: in the metrics of a protocol the flag and the priority score
    agree: a protocol flagged as needing simplification (above grade 8, or
    with a jargon density above 5) scores 20 or more, one that is not
    flagged scores 50 at most; and a protocol rated easy is flagged only
    for its jargon density. *)
Theorem flag_agrees_with_priority (p : Triage.Chunk) :
  let m := Triage.validate_protocol_readability p in
  (Triage.needs_simplification m = true -> 20 <= Triage.priority_score m)
  /\ (Triage.needs_simplification m = false -> Triage.priority_score m <= 50)
  /\ (Triage.reading_level_category m = Triage.easy ->
      Triage.needs_simplification m = PrimFloat.ltb 5 (Triage.jargon_density m)).
Proof.
  intros m. unfold m, Triage.validate_protocol_readability.
  destruct (analyze_text_complexity _) as [[words sentences] syllables].
  cbn [Triage.needs_simplification Triage.priority_score Triage.reading_level_category
       Triage.jargon_density].
  set (g := calculate_flesch_kincaid_grade _ words sentences syllables).
  set (e := calculate_flesch_reading_ease _ words sentences syllables).
  set (j := Triage.calculate_jargon_density _ _).
  set (d := match Triage.difficulty_level p with Some x => x | None => _ end).
  set (c := match Triage.category p with Some x => x | None => _ end).
  rewrite uncapped.
  pose proof (points_bounds g j d c) as Hb.
  pose proof (reading_points_flag g) as Hg.
  pose proof (jargon_points_flag j) as Hj.
  repeat split.
  - intros H. destruct (PrimFloat.ltb 8 g), (PrimFloat.ltb 5 j); try discriminate; lia.
  - intros H. destruct (PrimFloat.ltb 8 g), (PrimFloat.ltb 5 j); try discriminate; lia.
  - unfold Triage.categorize_reading_level.
    destruct (PrimFloat.leb g 6) eqn:E6.
    + intros _. destruct (PrimFloat.ltb 8 g) eqn:E8; [|reflexivity].
      pose proof (@ltb_leb_trans 8 g 6 E8 E6) as F. vm_compute in F. discriminate F.
    + cbn [andb].
      destruct (_ && _); [discriminate|].
      destruct (_ && _); discriminate.
Qed.

(** ** The production update, and the revert after it *)

Section Production.

(** A verdict of "valid" means that each of the four checks passed. *)
Lemma validation_passes (o s : text) :
  fst (validate_tooltip_injection o s) = true ->
  validate_tooltip_injection o s = (true, Valid)
  /\ nested s = false
  /\ Py.count (txt "{{") s = Py.count (txt "}}") s
  /\ Py.strip (strip_markup s) = Py.strip o
  /\ forall marker, In marker (map txt ["**"; "*"; "__"; "_"]%string) ->
                    Nat.even (Py.count marker s) = true.
Proof.
  unfold validate_tooltip_injection.
  destruct (nested s); [discriminate|].
  destruct (Py.count (txt "{{") s =? Py.count (txt "}}") s) eqn:Ec; [|discriminate].
  cbn [negb]. unfold content_preserved.
  destruct (Py.eqb (strip_markup s) o || Py.eqb (Py.strip (strip_markup s)) (Py.strip o))
    eqn:Ep; [|discriminate].
  cbn [negb].
  destruct (find _ _) eqn:Ef; [discriminate|].
  intros _. repeat split.
  - now apply Nat.eqb_eq.
  - apply orb_true_iff in Ep. destruct Ep as [Ep|Ep]; apply py_eqb_eq in Ep.
    + now rewrite Ep.
    + exact Ep.
  - intros marker Hm. pose proof (find_none _ _ Ef marker Hm) as H.
    now apply negb_false_iff in H.
Qed.

Lemma production_update_some (p : Protocol) (G : list GlossaryEntry)
    (u : Pipeline.UpdateData) :
  Pipeline.production_update p G = Some u ->
  let original := get_text (chunk_text p) in
  Pipeline.new_simplified_text u = fst (inject_tooltips original G 5)
  /\ fst (validate_tooltip_injection original (Pipeline.new_simplified_text u)) = true
  /\ Pipeline.new_level_before u = grade_level original
  /\ Pipeline.new_level_after u = grade_level (Pipeline.new_simplified_text u).
Proof.
  intros H original. unfold Pipeline.production_update in H. fold original in H.
  destruct (inject_tooltips original G 5) as [simplified used].
  destruct (validate_tooltip_injection original simplified) as [valid msg] eqn:Ev.
  destruct valid; [|discriminate]. cbn [negb] in H. injection H as <-.
  cbn [Pipeline.new_simplified_text Pipeline.new_level_before Pipeline.new_level_after fst].
  rewrite Ev. repeat split.
Qed.

End Production.

(** X16: the production update stores only what the validator accepts.
    When the loop body reaches the store for a row, the text it writes is
    the injector's output for the bound 5, the validator's verdict on it is
    "Valid", so that it has no nested tooltip, as many opening as closing
    pairs and, once its markup is stripped, the content of the original up
    to surrounding white space; and the two levels written are the grade
    levels of the original and of the written text. *)
Theorem production_update_is_validated (p : Protocol) (G : list GlossaryEntry)
    (u : Pipeline.UpdateData) :
  Pipeline.production_update p G = Some u ->
  let original := get_text (chunk_text p) in
  let s := Pipeline.new_simplified_text u in
  s = fst (inject_tooltips original G 5)
  /\ validate_tooltip_injection original s = (true, Valid)
  /\ nested s = false
  /\ Py.count (txt "{{") s = Py.count (txt "}}") s
  /\ Py.strip (strip_markup s) = Py.strip original
  /\ Pipeline.new_level_before u = grade_level original
  /\ Pipeline.new_level_after u = grade_level s.
Proof.
  intros H original s.
  destruct (production_update_some p G H) as [Hs [Hv [Hb Ha]]].
  fold original in Hs, Hv, Hb. fold s in Hs, Hv, Ha.
  destruct (validation_passes original s Hv) as [Hvalid [Hn [Hc [Hp _]]]].
  repeat split; assumption.
Qed.

Lemma production_update_is_validated_witness :
  let p := {| id := txt "protocol-1"; chunk_summary := None;
              chunk_text := Some (txt "  The amygdala reacts.");
              simplified_text := None;
              stored_level_before := None; stored_level_after := None |} in
  let G := [entry "amygdala" "alarm"] in
  exists u,
    Pipeline.production_update p G = Some u
    /\ Pipeline.new_simplified_text u = txt "  The {{amygdala||alarm}} reacts."
    /\ Pipeline.new_glossary_terms u
       = txt "{" ++ Pipeline.quote :: txt "amygdala" ++ Pipeline.quote :: txt "}"
    /\ let original := get_text (chunk_text p) in
       let s := Pipeline.new_simplified_text u in
       s = fst (inject_tooltips original G 5)
       /\ validate_tooltip_injection original s = (true, Valid)
       /\ nested s = false
       /\ Py.count (txt "{{") s = Py.count (txt "}}") s
       /\ Py.strip (strip_markup s) = Py.strip original
       /\ Pipeline.new_level_before u = grade_level original
       /\ Pipeline.new_level_after u = grade_level s.
Proof.
  intros p G. eexists. split; [vm_compute; reflexivity|].
  split; [reflexivity|]. split; [reflexivity|].
  apply (@production_update_is_validated p G). vm_compute. reflexivity.
Defined.

(** X17: the revert after the production update.  For a row the
    production update has written, the diagnosis reads back the grade level
    of the original text as the level before injection, and the revert of
    version 2 returns the original text at exactly that level and marks it
    for the store; when the row is degraded, this is strictly below the
    stored level after injection. *)
Theorem revert_restores_the_written_row (p : Protocol) (G : list GlossaryEntry)
    (u : Pipeline.UpdateData) :
  Pipeline.production_update p G = Some u ->
  let row := Pipeline.updated_row p u in
  let d := diagnose_degradation row in
  let v := repair_protocol_revert row d in
  repaired_text v = get_text (chunk_text p)
  /\ reading_level_before d = grade_level (get_text (chunk_text p))
  /\ reading_level_repaired v = reading_level_before d
  /\ persist v = Update_store
  /\ (is_degraded row = true ->
      PrimFloat.ltb (reading_level_repaired v) (reading_level_after d) = true).
Proof.
  intros H row d v.
  destruct (production_update_some p G H) as [_ [_ [Hb _]]].
  unfold v, d, row, repair_protocol_revert, diagnose_degradation, Pipeline.updated_row,
    persist, is_degraded.
  cbn [repaired_text reading_level_before reading_level_after reading_level_repaired
       strategy_applied should_update chunk_text stored_level_before stored_level_after
       get_level].
  rewrite Hb. repeat split.
  intros Hd. apply andb_true_iff in Hd. apply Hd.
Qed.

(** The degraded scenario: a complex definition raises the level, and the
    revert brings it back. *)
Lemma revert_restores_the_written_row_witness :
  let p := {| id := txt "protocol-1"; chunk_summary := None;
              chunk_text := Some (txt "The amygdala reacts.");
              simplified_text := None;
              stored_level_before := None; stored_level_after := None |} in
  exists u,
    Pipeline.production_update p complex_glossary = Some u
    /\ let row := Pipeline.updated_row p u in
       let d := diagnose_degradation row in
       let v := repair_protocol_revert row d in
       is_degraded row = true
       /\ repaired_text v = get_text (chunk_text p)
       /\ reading_level_before d = grade_level (get_text (chunk_text p))
       /\ reading_level_repaired v = reading_level_before d
       /\ persist v = Update_store
       /\ (is_degraded row = true ->
           PrimFloat.ltb (reading_level_repaired v) (reading_level_after d) = true).
Proof.
  intros p. eexists. split; [vm_compute; reflexivity|].
  split; [vm_compute; reflexivity|].
  apply (@revert_restores_the_written_row p complex_glossary). vm_compute. reflexivity.
Defined.

(** ** A document without tooltips *)

Section NoTooltips.

Lemma sub_tooltips_none (f : text -> text -> text) (t : text) :
  Re.findall tooltip_at t = [] -> sub_tooltips f t = t.
Proof.
  intros H. unfold sub_tooltips, Re.sub.
  apply (@sub_keeps tooltip_at _
           (fun matched => let '(g1, g2) := tooltip_groups matched in f g1 g2))
    with (T := t) (i := 0).
  - intros p s. destruct (tooltip_at p s); [|reflexivity].
    now destruct (tooltip_groups _).
  - intros p s n Hm. apply tooltip_match in Hm.
    destruct Hm as [g [d [_ [_ [_ [_ Hn]]]]]]. exact Hn.
  - reflexivity.
  - intros a b Hab. exfalso.
    unfold Re.findall, Re.finditer in H. apply map_eq_nil in H.
    rewrite H in Hab. contradiction.
Qed.

End NoTooltips.

(** X18: the repair needs tooltips.  When the stored text holds no
    tooltip of the form the scripts read, [repair_protocol] returns it
    unchanged and reports no tooltip modified, whatever the diagnosis it is
    given and whichever strategy it applies. *)
Theorem repair_needs_tooltips (p : Protocol) (d : Diagnosis) :
  extract_tooltips_from_text (get_text (simplified_text p)) = [] ->
  repaired_text (repair_protocol p d) = get_text (simplified_text p)
  /\ tooltips_modified (repair_protocol p d) = 0.
Proof.
  intros H. unfold extract_tooltips_from_text in H. apply map_eq_nil in H.
  unfold repair_protocol.
  destruct (has simplify_language (repair_strategies d)).
  - cbn [repaired_text tooltips_modified]. split; [|reflexivity].
    now apply sub_tooltips_none.
  - destruct (has remove_tooltips (repair_strategies d)).
    + unfold remove_complex_tooltips. rewrite H.
      cbn [repaired_text tooltips_modified filter length]. split; [|reflexivity].
      now apply sub_tooltips_none.
    + destruct (has manual_review (repair_strategies d)); split; reflexivity.
Qed.

(** Three spans in one sentence, none of them a tooltip with a
    definition: the diagnosis proposes [remove_tooltips], which changes
    nothing. *)
Lemma repair_needs_tooltips_witness :
  let p := {| id := txt "protocol-1"; chunk_summary := None;
              chunk_text := Some (txt "See a, b and c");
              simplified_text := Some (txt "See {{a}}, {{b}} and {{c}}");
              stored_level_before := Some 1%float; stored_level_after := Some 2%float |} in
  let d := diagnose_degradation p in
  repair_strategies d = [remove_tooltips]
  /\ repaired_text (repair_protocol p d) = get_text (simplified_text p)
  /\ tooltips_modified (repair_protocol p d) = 0.
Proof.
  intros p d. split; [vm_compute; reflexivity|].
  apply (@repair_needs_tooltips p d). vm_compute. reflexivity.
Defined.

(** ** When the bound is not reached *)

Section Unbounded.

(** A list sorted by an asymmetric order is determined by its elements. *)
Lemma sorted_perm_unique (A : Type) (R : A -> A -> Prop) (l1 : list A) :
  forall l2,
    (forall x y, In x l1 -> In y l1 -> R x y -> R y x -> False) ->
    StronglySorted R l1 -> StronglySorted R l2 -> Permutation l1 l2 -> l1 = l2.
Proof.
  induction l1 as [|x l1 IH]; intros l2 Has H1 H2 Hp.
  - apply Permutation_nil in Hp. now subst.
  - destruct l2 as [|y l2]; [apply Permutation_sym, Permutation_nil in Hp; discriminate|].
    inversion H1 as [|? ? H1' Hx]; subst. inversion H2 as [|? ? H2' Hy]; subst.
    rewrite Forall_forall in Hx, Hy.
    assert (Hxy : x = y).
    { assert (Hin : In x (y :: l2)) by (apply (Permutation_in _ Hp); now left).
      destruct Hin as [Hin|Hin]; [now symmetry|].
      assert (Hin' : In y (x :: l1))
        by (apply (Permutation_in _ (Permutation_sym Hp)); now left).
      destruct Hin' as [Hin'|Hin']; [exact Hin'|].
      exfalso. apply (Has x y); [now left|now right|now apply Hx|now apply Hy]. }
    subst y. f_equal. apply IH; try assumption.
    + intros a b Ha Hb. apply Has; now right.
    + now apply Permutation_cons_inv with x.
Qed.

Lemma take_all (A : Type) (n : nat) (l : list A) :
  length l <= n -> Py.take (Z.of_nat n) l = l.
Proof.
  intros H. unfold Py.take.
  destruct (Z.ltb_spec (Z.of_nat n) 0) as [F|_]; [lia|].
  rewrite Nat2Z.id. now apply firstn_all2.
Qed.

Lemma take_length (A : Type) (n : nat) (l : list A) :
  length (Py.take (Z.of_nat n) l) = Nat.min n (length l).
Proof.
  unfold Py.take.
  destruct (Z.ltb_spec (Z.of_nat n) 0) as [F|_]; [lia|].
  rewrite Nat2Z.id. apply length_firstn.
Qed.

End Unbounded.

(** X19: how many matches are rendered, and which.  For a bound [n] the
    injector renders the smaller of [n] and the number of matches; and when
    the matches are no more than the bound (and no glossary term is empty)
    it renders all of them: the selection, read in text order, is the list
    the matcher returned, whatever the priority scores, and the injected
    text is the original with every match replaced by its tooltip. *)
Theorem all_matches_rendered_within_bound (T : text) (G : list GlossaryEntry) (n : nat) :
  length (top_terms T G (Z.of_nat n)) = Nat.min n (length (find_technical_terms T G))
  /\ (nonempty_terms G = true ->
      length (find_technical_terms T G) <= n ->
      rev (top_terms T G (Z.of_nat n)) = find_technical_terms T G
      /\ fst (inject_tooltips T G (Z.of_nat n))
         = layout T 0 (find_technical_terms T G) (length T)).
Proof.
  split.
  - unfold top_terms. now rewrite sort_length, take_length, sort_length.
  - intros HG Hn.
    assert (Hall : forall m, In m (find_technical_terms T G) ->
                             position m < end_position m)
      by (intros m Hm; now apply nonempty_match with T G).
    assert (E : rev (top_terms T G (Z.of_nat n)) = find_technical_terms T G).
    { apply sorted_perm_unique with (R := precedes).
      - intros x y Hx Hy Hxy Hyx. apply in_rev, top_terms_in in Hx, Hy.
        pose proof (Hall x Hx). pose proof (Hall y Hy). unfold precedes in *. lia.
      - now apply sorted_rev, selection_chain.
      - apply matches_ordered.
      - rewrite <- Permutation_rev. unfold top_terms.
        rewrite sort_perm, take_all by now rewrite sort_length.
        apply sort_perm. }
    split; [exact E|]. rewrite <- E. now apply injected_layout.
Qed.

(** Both sides of the bound: three matches under a bound of 5 are all
    rendered, under a bound of 2 two of them. *)
Lemma all_matches_rendered_within_bound_witness :
  let T := txt "The amygdala reacts; the amygdala calms. Amygdala!" in
  let G := [entry "amygdala" "alarm"] in
  length (top_terms T G 2) = 2
  /\ rev (top_terms T G 5) = find_technical_terms T G
  /\ fst (inject_tooltips T G 5) = layout T 0 (find_technical_terms T G) (length T).
Proof.
  intros T G. split.
  - apply (proj1 (all_matches_rendered_within_bound T G 2)).
  - apply (proj2 (all_matches_rendered_within_bound T G 5)).
    + reflexivity.
    + vm_compute. lia.
Defined.

(** ** The diagnosis reads what the injector wrote *)

Section ReadBack.

Lemma findall_found (m : option ascii -> text -> option nat) (whole : text) (s : text) :
  forall prev i k,
    skipn i whole = s ->
    map (fun ab => Py.slice whole (fst ab) (snd ab)) (Re.finditer_from m prev i k s)
      = found_from m prev k s.
Proof.
  induction s as [|c s IH]; intros prev i k Hs.
  - cbn [Re.finditer_from found_from]. destruct k; [|reflexivity].
    destruct (m prev []) as [n|]; [|reflexivity].
    cbn [map fst snd]. unfold Py.slice. rewrite Hs. do 2 f_equal. lia.
  - assert (Hs' : skipn (S i) whole = s).
    { change (S i) with (1 + i). now rewrite <- skipn_skipn, Hs. }
    cbn [Re.finditer_from found_from]. destruct k as [|k]; [|now apply IH].
    destruct (m prev (c :: s)) as [n|]; [|now apply IH].
    cbn [map fst snd]. f_equal; [|now apply IH].
    unfold Py.slice. rewrite Hs. f_equal. lia.
Qed.

Lemma found_prev (s : text) :
  forall p p' k, found_from tooltip_at p k s = found_from tooltip_at p' k s.
Proof.
  induction s as [|c s IH]; intros p p' k; [reflexivity|].
  cbn [found_from]. destruct k; reflexivity.
Qed.

Lemma found_skip (s : text) :
  forall p k,
    k <= length s ->
    found_from tooltip_at p k s = found_from tooltip_at None 0 (skipn k s).
Proof.
  induction s as [|c s IH]; intros p k Hk.
  - destruct k; [reflexivity|simpl in Hk; lia].
  - destruct k as [|k]; [apply found_prev|].
    cbn [found_from skipn]. apply IH. simpl in Hk. lia.
Qed.

Lemma tooltip_at_plain (c : ascii) (r : text) (p : option ascii) :
  not_open c = true -> tooltip_at p (c :: r) = None.
Proof.
  each_char c; simpl; try reflexivity.
  discriminate.
Qed.

Lemma found_plain (seg r : text) :
  forallb not_open seg = true ->
  forall p, found_from tooltip_at p 0 (seg ++ r) = found_from tooltip_at None 0 r.
Proof.
  induction seg as [|c seg IH]; intros H p; [apply found_prev|].
  simpl in H. apply andb_true_iff in H. destruct H as [Hc H].
  rewrite <- app_comm_cons. cbn [found_from].
  rewrite tooltip_at_plain by exact Hc. now apply IH.
Qed.

Lemma tooltip_at_shape (g d rest : text) (p : option ascii) :
  g <> [] -> d <> [] ->
  forallb not_bar g = true ->
  forallb not_close d = true ->
  tooltip_at p ("{"%char :: "{"%char :: g
                  ++ "|"%char :: "|"%char :: d ++ "}"%char :: "}"%char :: rest)
    = Some (length g + length d + 6).
Proof.
  intros Hg Hd Hbar Hclose.
  set (s2 := d ++ "}"%char :: "}"%char :: rest).
  assert (Eg : Py.take_while not_bar (g ++ "|"%char :: "|"%char :: s2) = g)
    by (apply take_while_stop; [assumption|reflexivity]).
  assert (Es1 : skipn (length g) (g ++ "|"%char :: "|"%char :: s2)
                = "|"%char :: "|"%char :: s2)
    by apply skipn_length_app.
  assert (Ed : Py.take_while not_close s2 = d)
    by (apply take_while_stop; [assumption|reflexivity]).
  assert (Es2 : skipn (length d) s2 = "}"%char :: "}"%char :: rest)
    by apply skipn_length_app.
  unfold tooltip_at. cbv beta iota zeta.
  rewrite Eg. destruct g as [|a g]; [contradiction|].
  rewrite Es1. cbv beta iota zeta.
  rewrite Ed. destruct d as [|b d]; [contradiction|].
  rewrite Es2. reflexivity.
Qed.

(** A tooltip is found whole, and the scan resumes after it. *)
Lemma found_tooltip (t : TermMatch) (rest : text) (p : option ascii) :
  term t <> [] -> definition t <> [] ->
  forallb not_bar (term t) = true ->
  forallb not_close (definition t) = true ->
  found_from tooltip_at p 0 (tooltip t ++ rest)
    = tooltip t :: found_from tooltip_at None 0 rest.
Proof.
  intros Hg Hd Hbar Hclose.
  assert (Hm : tooltip_at p (tooltip t ++ rest) = Some (length (tooltip t))).
  { rewrite tooltip_shape, tooltip_at_shape by assumption.
    f_equal. rewrite tooltip_length. lia. }
  assert (Hl : 2 <= length (tooltip t)) by (rewrite tooltip_length; lia).
  destruct (tooltip t ++ rest) as [|c s] eqn:E.
  { apply (f_equal (@length ascii)) in E. rewrite length_app in E. simpl in E. lia. }
  cbn [found_from]. rewrite Hm, <- E, firstn_length_app. f_equal.
  rewrite found_skip.
  - f_equal. change (skipn (pred (length (tooltip t))) s)
      with (skipn (pred (length (tooltip t))) (tl (c :: s))).
    rewrite <- E. destruct (tooltip t) as [|c0 tip] eqn:Et; [simpl in Hl; lia|].
    cbn [app tl length pred]. apply skipn_length_app.
  - apply (f_equal (@length ascii)) in E. rewrite length_app in E.
    cbn [length] in E. lia.
Qed.

Lemma layout_found (T : text) (ms : list TermMatch) :
  brace_free T = true ->
  Forall (fun m => term m <> [] /\ definition m <> []
                   /\ forallb not_bar (term m) = true
                   /\ forallb not_close (definition m) = true) ms ->
  forall from upto,
    found_from tooltip_at None 0 (layout T from ms upto) = map tooltip ms.
Proof.
  intros HT. induction 1 as [|m ms [Hg [Hd [Hbar Hclose]]] Hms IH]; intros from upto.
  - cbn [layout map]. rewrite <- (app_nil_r (Py.slice T from upto)).
    now rewrite found_plain by now apply brace_free_open, brace_free_slice.
  - cbn [layout map].
    rewrite found_plain by now apply brace_free_open, brace_free_slice.
    rewrite found_tooltip by assumption. f_equal. apply IH.
Qed.

Lemma with_definitions_match (T : text) (G : list GlossaryEntry) (n : Z) (m : TermMatch) :
  with_definitions G = true -> In m (top_terms T G n) -> definition m <> [].
Proof.
  intros HG Hm. apply top_terms_in, candidate_of in Hm. destruct Hm as [e [He Hm]].
  apply entry_match_sound in Hm. destruct Hm as [Hd _].
  unfold with_definitions in HG. rewrite forallb_forall in HG. specialize (HG e He).
  rewrite Hd. now destruct (entry_definition e).
Qed.

Lemma injected_tooltips_found (T : text) (G : list GlossaryEntry) (n : Z) :
  brace_free T = true -> wire_safe G = true -> with_definitions G = true ->
  Re.findall tooltip_at (fst (inject_tooltips T G n))
    = map tooltip (rev (top_terms T G n)).
Proof.
  intros HT HG HD.
  destruct (wire_safe_parts G HG) as [Hstrip [Hne _]].
  unfold Re.findall, Re.finditer.
  rewrite (@findall_found tooltip_at (fst (inject_tooltips T G n))
             (fst (inject_tooltips T G n)) None 0 0 eq_refl).
  rewrite injected_layout by exact Hne.
  apply layout_found; [exact HT|].
  destruct (@top_terms_chain T G n Hstrip) as [Hok _].
  apply Forall_forall. intros m Hm. apply in_rev in Hm.
  rewrite Forall_forall in Hok. destruct (Hok m Hm) as [Ht [[Hlt Hlen] [Hbar Hclose]]].
  repeat split; try assumption.
  - intros E. rewrite Ht in E. apply (f_equal (@length ascii)) in E.
    rewrite slice_length in E by lia. simpl in E. lia.
  - now apply with_definitions_match with T G n.
Qed.

End ReadBack.

(** X20: the diagnosis reads back what the injector wrote.  For a text
    without braces and a glossary whose terms are non-empty and have no bar
    and whose definitions are non-empty and have no brace, the tooltips
    that [extract_tooltips_from_text] finds in the injected text are the
    selected matches in text order, each with its term and its definition
    (stripped of surrounding white space); so the [tooltip_count] of the
    diagnosis of a row that stores this text is the number of spans
    rendered. *)
Theorem diagnosis_reads_the_injected_tooltips
    (T : text) (G : list GlossaryEntry) (n : Z) :
  brace_free T = true ->
  wire_safe G = true ->
  with_definitions G = true ->
  let s := fst (inject_tooltips T G n) in
  map (fun t => (tip_term t, tip_definition t)) (extract_tooltips_from_text s)
    = map (fun m => (Py.strip (term m), Py.strip (definition m))) (rev (top_terms T G n))
  /\ forall p, simplified_text p = Some s ->
               tooltip_count (diagnose_degradation p) = length (top_terms T G n).
Proof.
  intros HT HG HD s.
  assert (E : map (fun t => (tip_term t, tip_definition t)) (extract_tooltips_from_text s)
              = map (fun m => (Py.strip (term m), Py.strip (definition m)))
                    (rev (top_terms T G n))).
  { unfold extract_tooltips_from_text, s.
    rewrite injected_tooltips_found by assumption.
    rewrite !map_map. apply map_ext_in. intros m Hm. apply in_rev in Hm.
    destruct (wire_safe_parts G HG) as [Hstrip _].
    destruct (@top_terms_chain T G n Hstrip) as [Hok _].
    rewrite Forall_forall in Hok. destruct (Hok m Hm) as [_ [_ [Hbar Hclose]]].
    change (tooltip m) with (markup (term m) (definition m)).
    rewrite tooltip_groups_markup by assumption.
    destruct (analyze_text_complexity (definition m)) as [[w sn] y]. reflexivity. }
  split; [exact E|].
  intros p Hp. unfold diagnose_degradation. cbn [tooltip_count].
  rewrite Hp. cbn [get_text]. fold s.
  rewrite <- (length_map (fun t => (tip_term t, tip_definition t))), E.
  now rewrite length_map, length_rev.
Qed.

Lemma diagnosis_reads_the_injected_tooltips_witness :
  let T := txt "The amygdala and the cortex react." in
  let G := [entry "cortex" "outer layer"; entry "amygdala" "alarm"] in
  let s := fst (inject_tooltips T G 5) in
  map (fun t => (tip_term t, tip_definition t)) (extract_tooltips_from_text s)
    = [(txt "amygdala", txt "alarm"); (txt "cortex", txt "outer layer")]
  /\ map (fun t => (tip_term t, tip_definition t)) (extract_tooltips_from_text s)
     = map (fun m => (Py.strip (term m), Py.strip (definition m))) (rev (top_terms T G 5))
  /\ forall p, simplified_text p = Some s ->
               tooltip_count (diagnose_degradation p) = length (top_terms T G 5).
Proof.
  intros T G s. split; [vm_compute; reflexivity|].
  apply (@diagnosis_reads_the_injected_tooltips T G 5); vm_compute; reflexivity.
Defined.

(** ** The spans in the returned text, for every glossary *)

Section AnyGlossary.

(** The sweep keeps the order of the candidates. *)
Lemma keep_first_sorted (R : TermMatch -> TermMatch -> Prop) (l : list TermMatch) :
  StronglySorted R l ->
  forall seen uniq,
    StronglySorted R uniq ->
    (forall u t, In u uniq -> In t l -> R u t) ->
    StronglySorted R (snd (fold_left keep_first l (seen, uniq))).
Proof.
  induction 1 as [|t l Hs IH Ht]; intros seen uniq Hu Hr; simpl; [exact Hu|].
  destruct (overlaps seen t).
  - apply IH; [exact Hu|]. intros u t' Hin Hin'. apply Hr; [exact Hin|now right].
  - apply IH.
    + apply sorted_snoc; [exact Hu|].
      apply Forall_forall. intros u Hin. apply Hr; [exact Hin|now left].
    + intros u t' Hin Hin'. apply in_app_or in Hin. destruct Hin as [Hin|[<-|[]]].
      * apply Hr; [exact Hin|now right].
      * rewrite Forall_forall in Ht. now apply Ht.
Qed.

Lemma matches_by_priority (T : text) (G : list GlossaryEntry) :
  StronglySorted wins_over (find_technical_terms T G).
Proof.
  unfold find_technical_terms.
  apply keep_first_sorted.
  - apply sort_by_position, candidates_longest_first.
  - constructor.
  - intros u t [].
Qed.

Lemma sorted_and (A : Type) (R1 R2 R : A -> A -> Prop) (P : A -> Prop) (l : list A) :
  (forall a b, P a -> P b -> R1 a b -> R2 a b -> R a b) ->
  Forall P l ->
  StronglySorted R1 l -> StronglySorted R2 l -> StronglySorted R l.
Proof.
  intros HR HP H1. induction H1 as [|x l H1 IH Hx]; intros H2; constructor.
  - inversion HP; inversion H2; subst. now apply IH.
  - inversion HP as [|? ? Px Pl]; inversion H2 as [|? ? _ Hx2]; subst.
    rewrite Forall_forall in *. intros y Hy. apply HR; auto.
Qed.

(** Any two of the returned matches lie apart, empty ones included. *)
Lemma matches_apart (T : text) (G : list GlossaryEntry) :
  StronglySorted apart (find_technical_terms T G).
Proof.
  apply sorted_and with (R1 := precedes) (R2 := wins_over)
                        (P := fun m => position m <= end_position m).
  - unfold apart, precedes, wins_over. intros a b Pa Pb H1 H2. lia.
  - apply Forall_forall. intros m Hm. apply candidate_of in Hm.
    destruct Hm as [e [_ Hm]]. apply entry_match_sound in Hm. lia.
  - apply matches_ordered.
  - apply matches_by_priority.
Qed.

(** An order that does not depend on the side is kept when the list is
    rearranged or cut. *)
Lemma sorted_perm_sym (A : Type) (R : A -> A -> Prop) (l l' : list A) :
  (forall a b, R a b -> R b a) ->
  Permutation l l' -> StronglySorted R l -> StronglySorted R l'.
Proof.
  intros Hsym Hp. induction Hp as [|x l l' Hp IH|x y l|l l' l'' Hp1 IH1 Hp2 IH2];
    intros H.
  - exact H.
  - inversion H as [|? ? Hl Hx]; subst. constructor; [now apply IH|].
    apply Forall_forall. intros z Hz. rewrite Forall_forall in Hx.
    apply Hx. now apply (Permutation_in _ (Permutation_sym Hp)).
  - inversion H as [|? ? Hxl Hy]; subst. inversion Hxl as [|? ? Hl Hx]; subst.
    inversion Hy as [|? ? Hyx Hyl]; subst.
    constructor; [constructor; assumption|].
    constructor; [now apply Hsym|exact Hx].
  - now apply IH2, IH1.
Qed.

Lemma sorted_firstn (A : Type) (R : A -> A -> Prop) (n : nat) (l : list A) :
  StronglySorted R l -> StronglySorted R (firstn n l).
Proof.
  intros H. revert n. induction H as [|x l Hl IH Hx]; intros [|n]; simpl;
    try constructor.
  - apply IH.
  - now apply firstn_forall.
Qed.

Lemma apart_sym (a b : TermMatch) : apart a b -> apart b a.
Proof.
  unfold apart. tauto.
Qed.

(** The selected matches, last position first: each ends where or before
    the one rendered before it starts. *)
Lemma selection_chain_any (T : text) (G : list GlossaryEntry) (n : Z) :
  StronglySorted (fun a b => precedes b a) (top_terms T G n).
Proof.
  apply sorted_and with (R1 := apart) (R2 := fun a b => position b <= position a)
                        (P := fun _ => True).
  - unfold apart, precedes. intros a b _ _ H1 H2. now apply H1.
  - apply Forall_forall. trivial.
  - unfold top_terms.
    apply (sorted_perm_sym apart_sym (Permutation_sym (sort_perm _ _))).
    unfold Py.take. destruct (n <? 0)%Z; apply sorted_firstn;
      apply (sorted_perm_sym apart_sym (Permutation_sym (sort_perm _ _)));
      apply matches_apart.
  - unfold top_terms. apply sort_sorted.
    + intros a b c. lia.
    + intros y x H. apply Nat.ltb_lt in H. lia.
    + intros y x H. apply Nat.ltb_ge in H. exact H.
Qed.

(** The returned text is the original with each selected match replaced
    by its tooltip, for every glossary. *)
Lemma injected_layout_any (T : text) (G : list GlossaryEntry) (n : Z) :
  fst (inject_tooltips T G n) = layout T 0 (rev (top_terms T G n)) (length T).
Proof.
  rewrite inject_tooltips_eq. cbn [fst].
  replace (render (top_terms T G n) T)
    with (render (top_terms T G n) (firstn (length T) T ++ []))
    by now rewrite app_nil_r, firstn_all.
  rewrite render_layout; [apply app_nil_r| | |lia|].
  - apply selection_chain_any.
  - apply Forall_forall. intros m Hm. apply selected_within in Hm. lia.
  - apply Forall_forall. intros m Hm. apply selected_within in Hm. lia.
Qed.

Lemma injected_length (T : text) (G : list GlossaryEntry) (n : Z) :
  length (fst (inject_tooltips T G n))
    = length T + list_sum (map (fun m => length (definition m) + 6) (top_terms T G n)).
Proof.
  rewrite inject_tooltips_eq. cbn [fst]. apply (@render_length T); [|lia].
  apply Forall_forall. intros m Hm. now apply selected_within with G n.
Qed.

(** In a text without braces annotated from a glossary fit for the wire
    format, the opening and the closing pairs count the spans. *)
Lemma injected_delimiters (T : text) (G : list GlossaryEntry) (n : Z) :
  brace_free T = true -> wire_safe G = true ->
  Py.count (txt "{{") (fst (inject_tooltips T G n)) = length (top_terms T G n)
  /\ Py.count (txt "}}") (fst (inject_tooltips T G n)) = length (top_terms T G n).
Proof.
  intros HT HG.
  destruct (wire_safe_parts G HG) as [_ [_ Hdef]].
  destruct (@layout_structure T (rev (top_terms T G n)) HT
              (selected_brace_free T G n HT Hdef) 0 (length T)) as [_ [Ho Hc]].
  rewrite <- injected_layout_any, length_rev in Ho, Hc. now split.
Qed.

End AnyGlossary.

(** C10: when two of the selected matches have the same matched text, the
    term mapping holds that text as one key (its keys are distinct), while
    the returned text holds one markup span for each selected match: it is
    the original text with each of them, in text order, replaced by its
    tooltip, and so longer by six markup characters and a definition for
    each.  The mapping has fewer entries than there are spans in the text,
    and [tooltips_added] reports the size of the mapping; in a text without
    braces, annotated from a glossary without braces and bars, the spans
    are counted by the opening pairs, more than [tooltips_added]. *)
Theorem repeated_term_counted_once
    (T : text) (G : list GlossaryEntry) (n : Z) (i j : nat) (a b : TermMatch) :
  i < j ->
  nth_error (top_terms T G n) i = Some a ->
  nth_error (top_terms T G n) j = Some b ->
  term a = term b ->
  let spans := rev (top_terms T G n) in
  let annotated := fst (inject_tooltips T G n) in
  let used := snd (inject_tooltips T G n) in
  NoDup (map fst used)
  /\ In (term a) (map fst used)
  /\ annotated = layout T 0 spans (length T)
  /\ length annotated
     = length T + list_sum (map (fun m => length (definition m) + 6) (top_terms T G n))
  /\ length used < length spans
  /\ (forall r, tooltips_added (update_protocol r T G n) = length used)
  /\ (brace_free T = true -> wire_safe G = true ->
      Py.count (txt "{{") annotated = length spans
      /\ Py.count (txt "}}") annotated = length spans
      /\ forall r, tooltips_added (update_protocol r T G n)
                   < Py.count (txt "{{") annotated).
Proof.
  intros Hij Ha Hb Hab spans annotated used.
  assert (Hused : used = track (top_terms T G n) [])
    by (unfold used; now rewrite inject_tooltips_eq).
  destruct (track_repeated_term (top_terms T G n) [] Hij Ha Hb Hab) as [Hlen Hin].
  assert (Hadded : forall r, tooltips_added (update_protocol r T G n) = length used)
    by (intros r; apply tooltips_added_eq).
  assert (Hlt : length used < length spans)
    by (unfold spans; rewrite length_rev, Hused; exact Hlen).
  repeat split.
  - rewrite Hused. apply track_nodup. constructor.
  - rewrite Hused. exact Hin.
  - apply injected_layout_any.
  - apply injected_length.
  - exact Hlt.
  - exact Hadded.
  - unfold spans. rewrite length_rev. now apply injected_delimiters.
  - unfold spans. rewrite length_rev. now apply injected_delimiters.
  - intros r. rewrite Hadded.
    destruct (injected_delimiters T G n H H0) as [Ho _]. fold annotated in Ho.
    rewrite Ho. unfold spans in Hlt. now rewrite length_rev in Hlt.
Qed.

(** "amygdala" twice in one text: the returned text holds two spans, the
    mapping one entry. *)
Lemma repeated_term_counted_once_witness :
  let T := txt "The amygdala reacts; the amygdala calms." in
  let G := [entry "amygdala" "alarm"] in
  let a := {| term := txt "amygdala"; position := 25; end_position := 33;
              definition := txt "alarm"; term_category := txt "general" |} in
  let spans := rev (top_terms T G 5) in
  let annotated := fst (inject_tooltips T G 5) in
  let used := snd (inject_tooltips T G 5) in
  (annotated = txt "The {{amygdala||alarm}} reacts; the {{amygdala||alarm}} calms."
   /\ used = [(txt "amygdala", txt "alarm")]
   /\ (Py.count (txt "{{") annotated, length used) = (2, 1))
  /\ NoDup (map fst used)
  /\ In (term a) (map fst used)
  /\ annotated = layout T 0 spans (length T)
  /\ length annotated
     = length T + list_sum (map (fun m => length (definition m) + 6) (top_terms T G 5))
  /\ length used < length spans
  /\ (forall r, tooltips_added (update_protocol r T G 5) = length used)
  /\ Py.count (txt "{{") annotated = length spans
  /\ Py.count (txt "}}") annotated = length spans
  /\ forall r, tooltips_added (update_protocol r T G 5) < Py.count (txt "{{") annotated.
Proof.
  intros T G a spans annotated used.
  split; [repeat split; vm_compute; reflexivity|].
  destruct (@repeated_term_counted_once T G 5 0 1 a
              {| term := txt "amygdala"; position := 4; end_position := 12;
                 definition := txt "alarm"; term_category := txt "general" |})
    as [H1 [H2 [H3 [H4 [H5 [H6 H7]]]]]].
  - lia.
  - vm_compute. reflexivity.
  - vm_compute. reflexivity.
  - reflexivity.
  - destruct H7 as [H7 [H8 H9]]; [vm_compute; reflexivity..|].
    repeat split; assumption.
Defined.
